(** * Diet data processor: the tabular query engine of
      [DietProcessorFunction/azure_diet_processor.py]

    The engine keeps one pandas [DataFrame] in [self.data], cleans it once
    after loading and answers eight read-only queries over it.  This file
    embeds the engine, together with the part of pandas and of Python's [re]
    it calls, and proves the properties the specification states about it.

    Conventions of the embedding.
    - A float64 value is an exact rational ([Q]); [None] stands for NaN, which
      is also how pandas marks a missing entry.  Rounding errors of binary
      floating point are not modelled: a mean of the model is the exact
      mean, and may differ from the computed one in the last place.  What
      is proved about the order of reported statistics is therefore limited
      to values that are taken from the table, not computed.
    - A column read by [pandas.read_csv] is either a float64 column (every
      entry a number or missing) or an object column (every entry a string or
      missing); a file with a header and no rows gives object columns.
    - A text is a [string] of bytes, and case folding is the ASCII one.  On
      ASCII text this is what Python does; the theorems on the search say
      where they assume it.
    - The order in which numpy's quicksort leaves equal values is not fixed
      by numpy.  The routine is a parameter, [argsort], of which the
      theorems assume no more than that it sorts.
    - A Python exception is an explicit [Raise] outcome, and the methods of the
      processor run in a state-and-exception monad over the processor object,
      so that what a failing call leaves behind in [self.data] is visible. *)

From Stdlib Require Import String Ascii List Bool Arith ZArith QArith Qround Lia Lqa.
From Stdlib Require Import Sorted Permutation.
Import ListNotations.

Local Close Scope Q_scope.
Local Open Scope string_scope.
Local Open Scope list_scope.

Set Implicit Arguments.

(* ================================================================= *)
(** ** Outcomes of Python calls *)

Inductive exn : Type :=
| TypeError          (* arithmetic or ordering on a value of the wrong type *)
| AttributeError     (* [.str] on a column that holds no strings *)
| ReError            (* [re.error]: the pattern does not compile *)
| KeyError            (* a column that is not in the table *)
| ResourceNotFoundError
| OtherError.        (* any other [Exception] of the I/O and parsing layer *)

Inductive outcome (A : Type) : Type :=
| Ok (a : A)
| Raise (e : exn).

Arguments Ok {A} a.
Arguments Raise {A} e.

Definition obind {A B} (o : outcome A) (f : A -> outcome B) : outcome B :=
  match o with
  | Ok a => f a
  | Raise e => Raise e
  end.

Fixpoint omap {A B} (f : A -> outcome B) (l : list A) : outcome (list B) :=
  match l with
  | [] => Ok []
  | x :: l' => obind (f x) (fun y => obind (omap f l') (fun ys => Ok (y :: ys)))
  end.

(* ================================================================= *)
(** ** Numbers *)

(** A float64: [None] is NaN. *)
Definition float64 := option Q.

(** Round half to even, to an integer. *)
Definition round_half_even (q : Q) : Z :=
  let f := Qfloor q in
  match Qcompare (q - inject_Z f) (1 # 2) with
  | Lt => f
  | Gt => (f + 1)%Z
  | Eq => if Z.even f then f else (f + 1)%Z
  end.

(** [round(x, 2)] on a finite number: the nearest multiple of 0.01, a tie
    going to the even one.  Python's [round] does this on the exact value
    of a float; on a statistic of a column, a [numpy.float64], the rounding
    goes through [x * 100] in floating point and may settle a tie the other
    way. *)
Definition round2 (q : Q) : Q :=
  Qred (inject_Z (round_half_even (q * 100)) / 100).

(** [a <= b] on floats: false as soon as one side is NaN. *)
Definition float_le (a b : float64) : bool :=
  match a, b with
  | Some x, Some y => Qle_bool x y
  | _, _ => false
  end.

Definition Qsum (l : list Q) : Q := fold_right Qplus 0%Q l.

(* ================================================================= *)
(** ** The part of pandas the engine uses *)

Module Pandas.

(** A single value taken out of a table. *)
Inductive scalar : Type :=
| SNaN
| SNum (q : Q)
| SStr (s : string).

(** A column, by dtype. *)
Inductive Series : Type :=
| Float64 (xs : list (option Q))
| Object (xs : list (option string)).

(** A table: the length of its index and its columns in file order.
    [read_csv] renames repeated headers, so a column name occurs once. *)
Record DataFrame : Type := mkDataFrame {
  index_len : nat;
  columns : list (string * Series)
}.

Definition Series_len (s : Series) : nat :=
  match s with
  | Float64 xs => length xs
  | Object xs => length xs
  end.

(** Every column is as long as the index. *)
Definition well_formed (df : DataFrame) : Prop :=
  Forall (fun c => Series_len (snd c) = index_len df) (columns df).

(** [df[col]], and [col in df.columns] as [column df col <> None]. *)
Fixpoint lookup {A} (k : string) (l : list (string * A)) : option A :=
  match l with
  | [] => None
  | (k', v) :: l' => if String.eqb k k' then Some v else lookup k l'
  end.

Definition column (df : DataFrame) (col : string) : option Series :=
  lookup col (columns df).

Definition has_column (df : DataFrame) (col : string) : bool :=
  match column df col with Some _ => true | None => false end.

(** [df[col] = s] for a column that exists: replaced in place. *)
Fixpoint replace_col (col : string) (s : Series) (l : list (string * Series))
  : list (string * Series) :=
  match l with
  | [] => [(col, s)]
  | (k, v) :: l' =>
      if String.eqb col k then (k, s) :: l' else (k, v) :: replace_col col s l'
  end.

Definition set_column (df : DataFrame) (col : string) (s : Series) : DataFrame :=
  mkDataFrame (index_len df) (replace_col col s (columns df)).

(** The entries that are not missing, in row order. *)
Fixpoint present {A} (xs : list (option A)) : list A :=
  match xs with
  | [] => []
  | Some x :: xs' => x :: present xs'
  | None :: xs' => present xs'
  end.

Definition is_missing {A} (c : option A) : bool :=
  match c with None => true | Some _ => false end.

Definition Series_has_missing (s : Series) : bool :=
  match s with
  | Float64 xs => existsb is_missing xs
  | Object xs => existsb is_missing xs
  end.

(** The arithmetic mean of a list of numbers; NaN when there is none.  It
    is the exact mean: the one pandas computes in floating point may differ
    from it in the last place. *)
Definition mean_of (l : list Q) : float64 :=
  match l with
  | [] => None
  | _ => Some (Qred (Qsum l / inject_Z (Z.of_nat (length l))))
  end.

(** [Series.mean()]: missing entries are skipped.  On an object column the
    sum of strings is not a number and pandas raises [TypeError]; on an object
    column without any value the mean is NaN. *)
Definition Series_mean (s : Series) : outcome float64 :=
  match s with
  | Float64 xs => Ok (mean_of (present xs))
  | Object xs =>
      match present xs with
      | [] => Ok None
      | _ :: _ => Raise TypeError
      end
  end.

Definition fill {A} (v : A) (xs : list (option A)) : list (option A) :=
  map (fun c => match c with None => Some v | Some _ => c end) xs.

(** [Series.fillna(value)].  Filling with NaN changes nothing.  A text put
    into a float64 column leaves a column without missing entries as it is
    and otherwise turns the column into an object column; a number put into
    an object column would give a column of mixed numbers and strings.  The
    engine reaches the first of these only on a column whose entries are all
    missing (lemma [mode_empty_all_missing]), where the result holds the text
    in every row, and never reaches the second (lemma [mean_object_not_num]);
    the model is exact on what is reached. *)
Definition fillna (v : scalar) (s : Series) : Series :=
  match v, s with
  | SNaN, _ => s
  | SNum q, Float64 xs => Float64 (fill q xs)
  | SStr t, Object xs => Object (fill t xs)
  | SStr t, Float64 xs =>
      if existsb is_missing xs then Object (map (fun _ => Some t) xs) else s
  | SNum _, Object _ => s
  end.

Definition scalar_of_float (x : float64) : scalar :=
  match x with Some q => SNum q | None => SNaN end.

(** *** Counting and ordering *)

Section Counting.
Variable A : Type.
Variable eqb : A -> A -> bool.

Fixpoint count (x : A) (l : list A) : nat :=
  match l with
  | [] => 0
  | y :: l' => (if eqb x y then 1 else 0) + count x l'
  end.

Fixpoint mem (x : A) (l : list A) : bool :=
  match l with
  | [] => false
  | y :: l' => eqb x y || mem x l'
  end.

(** The distinct values in order of first appearance. *)
Fixpoint distinct_acc (seen : list A) (l : list A) : list A :=
  match l with
  | [] => []
  | x :: l' =>
      if mem x seen then distinct_acc seen l'
      else x :: distinct_acc (x :: seen) l'
  end.

Definition distinct (l : list A) : list A := distinct_acc [] l.

Definition max_count (l : list A) : nat :=
  fold_right (fun x m => Nat.max (count x l) m) 0 l.

(** Stable insertion sort: [before x y] says that a new element [x], which
    stood earlier in the input than [y], is put in front of [y]. *)
Variable before : A -> A -> bool.

Fixpoint insert_by (x : A) (l : list A) : list A :=
  match l with
  | [] => [x]
  | y :: l' => if before x y then x :: l else y :: insert_by x l'
  end.

Definition sort_by (l : list A) : list A := fold_right insert_by [] l.
End Counting.

(** Ascending order keeps equal elements in input order. *)
Definition sort_asc {A} (leb : A -> A -> bool) (l : list A) : list A :=
  sort_by leb l.

(** Descending order keeps equal elements in input order too. *)
Definition sort_desc {A} (leb : A -> A -> bool) (l : list A) : list A :=
  sort_by (fun x y => leb y x) l.

(** [mode()] on the values that are present: the values of highest
    frequency, in ascending order. *)
Definition mode_of {A} (eqb leb : A -> A -> bool) (l : list A) : list A :=
  sort_asc leb
    (distinct eqb (filter (fun x => Nat.eqb (count eqb x l) (max_count eqb l)) l)).

Definition mode_num (xs : list (option Q)) : list Q :=
  mode_of Qeq_bool Qle_bool (present xs).

Definition mode_str (xs : list (option string)) : list string :=
  mode_of String.eqb String.leb (present xs).

(** [Series.mode()], as scalars. *)
Definition Series_mode (s : Series) : list scalar :=
  match s with
  | Float64 xs => map SNum (mode_num xs)
  | Object xs => map SStr (mode_str xs)
  end.

(** *** Cells, rows and selections *)

Definition Series_cells (s : Series) : list scalar :=
  match s with
  | Float64 xs => map scalar_of_float xs
  | Object xs => map (fun c => match c with Some t => SStr t | None => SNaN end) xs
  end.

(** The entry of a column at a row position. *)
Definition Series_at (s : Series) (i : nat) : scalar :=
  nth i (Series_cells s) SNaN.

(** [==] between two values: NaN equals nothing, not even itself. *)
Definition scalar_eqb (a b : scalar) : bool :=
  match a, b with
  | SNum x, SNum y => Qeq_bool x y
  | SStr x, SStr y => String.eqb x y
  | _, _ => false
  end.

(** Sameness as [unique()] and dictionary keys see it: one NaN. *)
Definition scalar_same (a b : scalar) : bool :=
  match a, b with
  | SNaN, SNaN => true
  | _, _ => scalar_eqb a b
  end.

(** [series == v], a boolean mask over the rows. *)
Definition mask_eq (s : Series) (v : scalar) : list bool :=
  map (fun c => scalar_eqb c v) (Series_cells s).

(** The row positions a mask selects. *)
Fixpoint where_from (i : nat) (mask : list bool) : list nat :=
  match mask with
  | [] => []
  | b :: mask' => if b then i :: where_from (S i) mask' else where_from (S i) mask'
  end.

Definition where_true (mask : list bool) : list nat := where_from 0 mask.

Definition Series_take (idxs : list nat) (s : Series) : Series :=
  match s with
  | Float64 xs => Float64 (map (fun i => nth i xs None) idxs)
  | Object xs => Object (map (fun i => nth i xs None) idxs)
  end.

(** [df.take(idxs)]: the rows at these positions, in this order. *)
Definition take (df : DataFrame) (idxs : list nat) : DataFrame :=
  mkDataFrame (length idxs)
    (map (fun c => (fst c, Series_take idxs (snd c))) (columns df)).

(** [df[mask]] *)
Definition select (df : DataFrame) (mask : list bool) : DataFrame :=
  take df (where_true mask).

(** [row.get(col, default)] on the row at position [i], as [iterrows] gives it. *)
Definition row_get (df : DataFrame) (i : nat) (col : string) (default : scalar)
  : scalar :=
  match column df col with
  | Some s => Series_at s i
  | None => default
  end.

(** [unique()]: distinct entries in order of first appearance, NaN included. *)
Definition Series_unique (s : Series) : list scalar :=
  distinct scalar_same (Series_cells s).

(** [nunique()]: the number of distinct entries that are not missing. *)
Definition Series_nunique (s : Series) : nat :=
  match s with
  | Float64 xs => length (distinct Qeq_bool (present xs))
  | Object xs => length (distinct String.eqb (present xs))
  end.

(** [value_counts().to_dict()]: each distinct entry that is not missing with
    its number of rows, most frequent first.  Entries of equal count are
    kept in order of first appearance here; the order pandas gives them is
    not relied on in what is proved. *)
Definition value_counts (s : Series) : list (scalar * nat) :=
  let cells := filter (fun c => negb (scalar_same c SNaN)) (Series_cells s) in
  sort_desc (fun a b => Nat.leb (snd a) (snd b))
    (map (fun v => (v, count scalar_same v cells)) (distinct scalar_same cells)).

(** *** Order statistics of a float64 column *)

Definition min_of (l : list Q) : float64 :=
  match l with
  | [] => None
  | x :: l' => Some (fold_left (fun m y => if Qle_bool y m then y else m) l' x)
  end.

Definition max_of (l : list Q) : float64 :=
  match l with
  | [] => None
  | x :: l' => Some (fold_left (fun m y => if Qle_bool m y then y else m) l' x)
  end.

Definition median_of (l : list Q) : float64 :=
  let sorted := sort_asc Qle_bool l in
  let n := length l in
  match n with
  | 0 => None
  | _ =>
      if Nat.even n
      then Some (Qred ((nth (n / 2 - 1) sorted 0%Q + nth (n / 2) sorted 0%Q) / 2))
      else Some (nth (n / 2) sorted 0%Q)
  end.

(** [min()], [max()], [median()] skip missing entries.  On an object column
    that holds strings they give a string or fail on the comparison, and the
    [round(..., 2)] the engine applies to the answer fails on a string: the
    model raises [TypeError] at once. *)
Definition Series_stat (f : list Q -> float64) (s : Series) : outcome float64 :=
  match s with
  | Float64 xs => Ok (f (present xs))
  | Object xs =>
      match present xs with
      | [] => Ok None
      | _ :: _ => Raise TypeError
      end
  end.

Definition Series_min := Series_stat min_of.
Definition Series_max := Series_stat max_of.
Definition Series_median := Series_stat median_of.

(** *** nlargest *)

(** Row positions paired with their entries. *)
Fixpoint enumerate_from {A} (i : nat) (xs : list A) : list (nat * A) :=
  match xs with
  | [] => []
  | x :: xs' => (i, x) :: enumerate_from (S i) xs'
  end.

(** The positions with a value, with that value; and those without. *)
Fixpoint valued (l : list (nat * option Q)) : list (nat * Q) :=
  match l with
  | [] => []
  | (i, Some q) :: l' => (i, q) :: valued l'
  | (_, None) :: l' => valued l'
  end.

Fixpoint unvalued (l : list (nat * option Q)) : list nat :=
  match l with
  | [] => []
  | (_, Some _) :: l' => unvalued l'
  | (i, None) :: l' => i :: unvalued l'
  end.

(** The order in which [nlargest] selects rows when it is asked for fewer
    rows than there are, with the default [keep='first']: descending by
    value, equal values in row order (pandas sorts the candidates with a
    mergesort), rows without a value last. *)
Definition nlargest_order (xs : list (option Q)) : list nat :=
  let rows := enumerate_from 0 xs in
  map fst (sort_desc (fun a b => Qle_bool (snd a) (snd b)) (valued rows))
    ++ unvalued rows.

(** [Series.sort_values(ascending=False)] on a float64 column, as a list of
    row positions.  pandas sorts the values that are present with numpy's
    [argsort] of kind quicksort, for which numpy leaves the order of equal
    values open; [argsort] stands for that routine.  pandas hands it the
    values in reverse row order, maps the positions it returns back to
    rows, reverses the outcome and puts the rows without a value last. *)
Definition sort_values_desc (argsort : list Q -> list nat) (xs : list (option Q))
  : list nat :=
  let rows := valued (enumerate_from 0 xs) in
  let non_nans := rev (map snd rows) in
  let non_nan_idx := rev (map fst rows) in
  rev (map (fun p => nth p non_nan_idx 0) (argsort non_nans))
    ++ unvalued (enumerate_from 0 xs).

(** [df.nlargest(n, col)] for a column that exists: the positions of the
    rows it returns.  A column that is not numeric is refused.  Asked for
    fewer rows than there are, pandas selects them in the order of
    [nlargest_order]; asked for at least as many, it sorts the whole column
    with [sort_values] and takes the first [n]. *)
Definition nlargest (argsort : list Q -> list nat) (n : Z) (s : Series)
  : outcome (list nat) :=
  match s with
  | Object _ => Raise TypeError
  | Float64 xs =>
      Ok (if (n <=? 0)%Z then []
          else if (Z.of_nat (length xs) <=? n)%Z
               then firstn (Z.to_nat n) (sort_values_desc argsort xs)
               else firstn (Z.to_nat n) (nlargest_order xs))
  end.

(** [round(x, 2)] on a value taken from a table. *)
Definition round_scalar (v : scalar) : outcome float64 :=
  match v with
  | SNaN => Ok None
  | SNum q => Ok (Some (round2 q))
  | SStr _ => Raise TypeError
  end.

Definition round_float (x : float64) : float64 := option_map round2 x.

End Pandas.

(* ================================================================= *)
(** ** The part of Python's [re] that [str.contains] relies on *)

Module Re.

(** Patterns built from literal characters, [.], [|], groups and the
    repetitions [*], [+] and [?]. *)
Inductive regex : Type :=
| Nothing                      (* matches no text *)
| Eps                          (* matches the empty text *)
| Chr (c : ascii)              (* a literal character *)
| Dot                          (* any character but a newline *)
| Cat (r1 r2 : regex)
| Alt (r1 r2 : regex)
| Star (r : regex).

(** ASCII lower case, the folding of [re.IGNORECASE] on ASCII text. *)
Definition lower (c : ascii) : ascii :=
  let n := nat_of_ascii c in
  if Nat.leb 65 n && Nat.leb n 90 then ascii_of_nat (n + 32) else c.

Fixpoint lower_str (s : string) : string :=
  match s with
  | EmptyString => EmptyString
  | String c s' => String (lower c) (lower_str s')
  end.

Definition newline : ascii := ascii_of_nat 10.

(** Two characters are the same letter, letter case ignored: they are
    equal, or one is an upper-case ASCII letter, "A" (65) to "Z" (90), and
    the other its lower-case form, 32 places further. *)
Definition same_letter (c d : ascii) : Prop :=
  c = d \/
  (65 <= nat_of_ascii c <= 90 /\ nat_of_ascii d = nat_of_ascii c + 32) \/
  (65 <= nat_of_ascii d <= 90 /\ nat_of_ascii c = nat_of_ascii d + 32).

(** Two texts are the same, letter case ignored. *)
Inductive same_text : string -> string -> Prop :=
| same_text_nil : same_text EmptyString EmptyString
| same_text_cons c d s t :
    same_letter c d -> same_text s t -> same_text (String c s) (String d t).

(** The texts a pattern matches in full, letter case ignored. *)
Inductive matches : regex -> string -> Prop :=
| MEps : matches Eps EmptyString
| MChr c d : same_letter c d -> matches (Chr c) (String d EmptyString)
| MDot d : d <> newline -> matches Dot (String d EmptyString)
| MCat r1 r2 s1 s2 :
    matches r1 s1 -> matches r2 s2 -> matches (Cat r1 r2) (s1 ++ s2)%string
| MAltL r1 r2 s : matches r1 s -> matches (Alt r1 r2) s
| MAltR r1 r2 s : matches r2 s -> matches (Alt r1 r2) s
| MStar0 r : matches (Star r) EmptyString
| MStarS r s1 s2 :
    matches r s1 -> matches (Star r) s2 -> matches (Star r) (s1 ++ s2)%string.

(** [re.search]: the pattern matches some stretch of the text. *)
Definition found (r : regex) (v : string) : Prop :=
  exists pre mid post, v = (pre ++ mid ++ post)%string /\ matches r mid.

(** *** Matching by derivatives *)

Fixpoint nullable (r : regex) : bool :=
  match r with
  | Nothing => false
  | Eps => true
  | Chr _ => false
  | Dot => false
  | Cat r1 r2 => nullable r1 && nullable r2
  | Alt r1 r2 => nullable r1 || nullable r2
  | Star _ => true
  end.

Fixpoint deriv (c : ascii) (r : regex) : regex :=
  match r with
  | Nothing => Nothing
  | Eps => Nothing
  | Chr d => if Ascii.eqb (lower c) (lower d) then Eps else Nothing
  | Dot => if Ascii.eqb c newline then Nothing else Eps
  | Cat r1 r2 =>
      if nullable r1
      then Alt (Cat (deriv c r1) r2) (deriv c r2)
      else Cat (deriv c r1) r2
  | Alt r1 r2 => Alt (deriv c r1) (deriv c r2)
  | Star r1 => Cat (deriv c r1) (Star r1)
  end.

(** Does the pattern match a stretch that starts where the text starts? *)
Fixpoint match_here (r : regex) (v : string) : bool :=
  nullable r ||
  match v with
  | EmptyString => false
  | String c v' => match_here (deriv c r) v'
  end.

(** Does the pattern match a stretch that starts anywhere in the text? *)
Fixpoint search (r : regex) (v : string) : bool :=
  match_here r v ||
  match v with
  | EmptyString => false
  | String _ v' => search r v'
  end.

(** *** Reading a pattern *)

Inductive compiled : Type :=
| Compiled (r : regex)
| Invalid        (* [re.compile] raises [re.error] *)
| Unsupported.   (* the pattern uses syntax outside this fragment *)

(** What stands just before the reading position: nothing that can be
    repeated, an item that can, or an item already repeated. *)
Inductive last_item : Type := NoItem | Item | Repeated.

(** An open group: its finished branches and the items of the branch being
    read, both latest first. *)
Record frame : Type := mkFrame {
  alts : list regex;
  items : list regex
}.

Definition sequence (items_rev : list regex) : regex :=
  fold_right Cat Eps (rev items_rev).

Definition close (f : frame) : regex :=
  fold_right Alt Nothing (rev (sequence (items f) :: alts f)).

Definition push (r : regex) (f : frame) : frame :=
  mkFrame (alts f) (r :: items f).

Definition is_repeat (c : ascii) : bool :=
  Ascii.eqb c "*" || Ascii.eqb c "+" || Ascii.eqb c "?".

Definition repeat_of (c : ascii) (r : regex) : regex :=
  if Ascii.eqb c "*" then Star r
  else if Ascii.eqb c "+" then Cat r (Star r)
  else Alt r Eps.

Definition is_alnum (c : ascii) : bool :=
  let n := nat_of_ascii c in
  (Nat.leb 48 n && Nat.leb n 57) || (Nat.leb 65 n && Nat.leb n 90)
  || (Nat.leb 97 n && Nat.leb n 122).

(** Anchors, classes and counted repetitions: special, and not modelled. *)
Definition is_other_special (c : ascii) : bool :=
  Ascii.eqb c "^" || Ascii.eqb c "$" || Ascii.eqb c "[" || Ascii.eqb c "]"
  || Ascii.eqb c "{" || Ascii.eqb c "}".

(** A character that stands for itself in a pattern. *)
Definition is_plain (c : ascii) : bool :=
  negb (Ascii.eqb c "(" || Ascii.eqb c ")" || Ascii.eqb c "|" || is_repeat c
        || Ascii.eqb c "." || Ascii.eqb c "\" || is_other_special c).

Fixpoint parse (s : string) (cur : frame) (stack : list frame)
  (last : last_item) {struct s} : compiled :=
  match s with
  | EmptyString =>
      match stack with
      | [] => Compiled (close cur)
      | _ :: _ => Invalid                      (* missing ")" *)
      end
  | String c s' =>
      if Ascii.eqb c "(" then
        match s' with
        | String "?" _ => Unsupported          (* "(?...)" extensions *)
        | _ => parse s' (mkFrame [] []) (cur :: stack) NoItem
        end
      else if Ascii.eqb c ")" then
        match stack with
        | [] => Invalid                        (* unbalanced ")" *)
        | parent :: stack' => parse s' (push (close cur) parent) stack' Item
        end
      else if Ascii.eqb c "|" then
        parse s' (mkFrame (sequence (items cur) :: alts cur) []) stack NoItem
      else if is_repeat c then
        match last, items cur with
        | Item, r :: rest =>
            parse s' (mkFrame (alts cur) (repeat_of c r :: rest)) stack Repeated
        | Repeated, _ => Unsupported           (* lazy, possessive, multiple *)
        | _, _ => Invalid                      (* nothing to repeat *)
        end
      else if Ascii.eqb c "." then parse s' (push Dot cur) stack Item
      else if Ascii.eqb c "\" then
        match s' with
        | EmptyString => Invalid               (* bad escape at the end *)
        | String d s'' =>
            if is_alnum d then Unsupported     (* classes, references *)
            else parse s'' (push (Chr d) cur) stack Item
        end
      else if is_other_special c then Unsupported
      else parse s' (push (Chr c) cur) stack Item
  end.

(** [re.compile(pat, re.IGNORECASE)] on this fragment. *)
Definition compile (pat : string) : compiled :=
  parse pat (mkFrame [] []) [] NoItem.

(** *** The syntax of patterns

    What Python's [re] documents for this fragment, stated on the text of
    the pattern and independently of [parse]: a pattern is a sequence of
    branches separated by [|]; a branch is a sequence of items; an item is
    an atom, possibly followed by one of [*], [+], [?]; an atom is a
    character that stands for itself, a dot, a backslash followed by a
    character that is no letter or digit, or a pattern in parentheses. *)

Definition alternation (branches : list (list regex)) : regex :=
  fold_right Alt Nothing (map (fold_right Cat Eps) branches).

(** The characters that have a meaning of their own in a pattern. *)
Definition special_characters : list ascii :=
  ["("; ")"; "|"; "*"; "+"; "?"; "."; "\"; "^"; "$"; "["; "]"; "{"; "}"]%char.

(** An ASCII digit, "0" (48) to "9" (57), or letter, "A" (65) to "Z" (90)
    and "a" (97) to "z" (122). *)
Definition letter_or_digit (c : ascii) : Prop :=
  48 <= nat_of_ascii c <= 57 \/ 65 <= nat_of_ascii c <= 90 \/
  97 <= nat_of_ascii c <= 122.

Inductive atom_of : string -> regex -> Prop :=
| atom_plain c : ~ In c special_characters -> atom_of (String c "") (Chr c)
| atom_dot : atom_of "." Dot
| atom_escape d :
    ~ letter_or_digit d -> atom_of (String "\" (String d "")) (Chr d)
| atom_group q bs :
    branches_of q bs -> atom_of ("(" ++ q ++ ")")%string (alternation bs)
with item_of : string -> regex -> Prop :=
| item_atom p r : atom_of p r -> item_of p r
| item_star p r : atom_of p r -> item_of (p ++ "*")%string (Star r)
| item_plus p r : atom_of p r -> item_of (p ++ "+")%string (Cat r (Star r))
| item_opt p r : atom_of p r -> item_of (p ++ "?")%string (Alt r Eps)
with items_of : string -> list regex -> Prop :=
| items_nil : items_of "" []
| items_cons p q r rs :
    item_of p r -> items_of q rs -> items_of (p ++ q)%string (r :: rs)
with branches_of : string -> list (list regex) -> Prop :=
| branches_one p rs : items_of p rs -> branches_of p [rs]
| branches_more p q rs bs :
    items_of p rs -> branches_of q bs ->
    branches_of (p ++ "|" ++ q)%string (rs :: bs).

Scheme atom_of_min := Minimality for atom_of Sort Prop
  with item_of_min := Minimality for item_of Sort Prop
  with items_of_min := Minimality for items_of Sort Prop
  with branches_of_min := Minimality for branches_of Sort Prop.

Combined Scheme pattern_syntax_ind
  from atom_of_min, item_of_min, items_of_min, branches_of_min.


(** *** What [parse] has read so far

    The text read at the current nesting level, against the frame built
    from it. *)





(** The literal reading the specification gives of a search term: the term,
    letter case ignored, occurs in the text. *)
Definition substring_ci (term v : string) : Prop :=
  exists pre mid post,
    v = (pre ++ mid ++ post)%string /\ same_text mid term.

Fixpoint prefix_ci (term v : string) : bool :=
  match term, v with
  | EmptyString, _ => true
  | String _ _, EmptyString => false
  | String a term', String b v' =>
      Ascii.eqb (lower a) (lower b) && prefix_ci term' v'
  end.

Fixpoint contains_ci (term v : string) : bool :=
  prefix_ci term v ||
  match v with
  | EmptyString => false
  | String _ v' => contains_ci term v'
  end.

End Re.

(* ================================================================= *)
(** ** The processor object and its monad *)

Import Pandas.

(** [AzureDietDataProcessor]: the fields the engine reads and writes. *)
Record Processor : Type := mkProcessor {
  data : option DataFrame;
  container_name : string;
  blob_name : string
}.

(** A method: it may change the object, and it returns or raises. *)
Definition M (A : Type) : Type := Processor -> outcome A * Processor.

Definition ret {A} (a : A) : M A := fun self => (Ok a, self).

Definition raise {A} (e : exn) : M A := fun self => (Raise e, self).

Definition bind {A B} (m : M A) (k : A -> M B) : M B :=
  fun self =>
    match m self with
    | (Ok a, self') => k a self'
    | (Raise e, self') => (Raise e, self')
    end.

Notation "x <- m ;; k" := (bind m (fun x => k))
  (at level 61, m at next level, right associativity).
Notation "m ;; k" := (bind m (fun _ => k))
  (at level 61, right associativity).

(** An [outcome] computed without touching the object. *)
Definition lift {A} (o : outcome A) : M A := fun self => (o, self).

(** [try: m except Exception as e: handler e] *)
Definition try_except {A} (m : M A) (handler : exn -> M A) : M A :=
  fun self =>
    match m self with
    | (Ok a, self') => (Ok a, self')
    | (Raise e, self') => handler e self'
    end.

(** Reading [self.data]. *)
Definition get_data : M (option DataFrame) := fun self => (Ok (data self), self).

(** [self.data = df] *)
Definition set_data (df : DataFrame) : M unit :=
  fun self => (Ok tt, mkProcessor (Some df) (container_name self) (blob_name self)).

(** [self.data] used as a table: an attribute or an item of [None] fails. *)
Definition self_frame : M DataFrame :=
  d <- get_data ;;
  match d with
  | Some df => ret df
  | None => raise AttributeError
  end.

Fixpoint for_each {A} (l : list A) (body : A -> M unit) : M unit :=
  match l with
  | [] => ret tt
  | x :: l' => body x ;; for_each l' body
  end.

Fixpoint mapM {A B} (f : A -> M B) (l : list A) : M (list B) :=
  match l with
  | [] => ret []
  | x :: l' => y <- f x ;; ys <- mapM f l' ;; ret (y :: ys)
  end.

(* ================================================================= *)
(** ** Loading and cleaning *)

Definition numeric_cols : list string := ["Protein(g)"; "Carbs(g)"; "Fat(g)"].
Definition categorical_cols : list string := ["Diet_type"; "Cuisine_type"].

(** [s.fillna(s.mean())] *)
Definition fill_with_mean (s : Series) : outcome Series :=
  obind (Series_mean s) (fun mean_val => Ok (fillna (scalar_of_float mean_val) s)).

(** [mode_value[0] if len(mode_value) > 0 else "Unknown"] *)
Definition fill_value_of (mode_value : list scalar) : scalar :=
  match mode_value with
  | v :: _ => v
  | [] => SStr "Unknown"
  end.

(** [s.fillna(fill_value)] with the fill value taken from [s.mode()] *)
Definition fill_with_mode (s : Series) : outcome Series :=
  Ok (fillna (fill_value_of (Series_mode s)) s).

(** One turn of a cleaning loop: [if col in self.data.columns: self.data[col] = ...] *)
Definition clean_column (f : Series -> outcome Series) (col : string) : M unit :=
  df <- self_frame ;;
  match column df col with
  | Some s => s' <- lift (f s) ;; set_data (set_column df col s')
  | None => ret tt
  end.

(** [_clean_data]; [DietAnalyzer.clean_data] of [api/data_analysis.py] is the
    same procedure with progress messages. *)
Definition _clean_data : M unit :=
  d <- get_data ;;
  match d with
  | None => ret tt
  | Some _ =>
      for_each numeric_cols (clean_column fill_with_mean) ;;
      for_each categorical_cols (clean_column fill_with_mode)
  end.

Section Loading.

(** [pandas.read_csv] on the bytes of a file: a table, or an exception when
    the bytes do not parse. *)
Variable read_csv : string -> outcome DataFrame.

(** [download_blob().readall()] on a container and a blob name. *)
Variable download_blob : string -> string -> outcome string.

Definition load_data_from_content (content : string) : M bool :=
  try_except
    (df <- lift (read_csv content) ;;
     set_data df ;;
     _clean_data ;;
     ret true)
    (fun _ => ret false).

(** [blob_name or self.blob_name] *)
Definition blob_name_or (name : option string) (self_name : string) : string :=
  match name with
  | None => self_name
  | Some n => if String.eqb n "" then self_name else n
  end.

Definition load_data_from_blob (name : option string) : M bool :=
  try_except
    (fun self =>
       (blob_data <- lift (download_blob (container_name self)
                             (blob_name_or name (blob_name self))) ;;
        df <- lift (read_csv blob_data) ;;
        set_data df ;;
        _clean_data ;;
        ret true) self)
    (fun e =>
       match e with
       | ResourceNotFoundError => ret false
       | _ => ret false
       end).

End Loading.

(* ================================================================= *)
(** ** The queries *)

Definition macro_cols : list string := ["Protein(g)"; "Carbs(g)"; "Fat(g)"].

(** [df[col]] where the source does not check for the column first. *)
Definition getitem (df : DataFrame) (col : string) : outcome Series :=
  match column df col with
  | Some s => Ok s
  | None => Raise KeyError
  end.

(** [col.replace("(g)", "")]: every occurrence of the unit is dropped.
    [skip] counts the characters of an occurrence still to pass over. *)
Fixpoint drop_unit_from (skip : nat) (col : string) : string :=
  match col with
  | EmptyString => EmptyString
  | String c col' =>
      match skip with
      | S k => drop_unit_from k col'
      | O =>
          if String.prefix "(g)" col then drop_unit_from 2 col'
          else String c (drop_unit_from 0 col')
      end
  end.

Definition drop_unit (col : string) : string := drop_unit_from 0 col.

(** [d.get(key, default)] on a dictionary with text keys. *)
Definition dict_get {A} (d : list (string * A)) (key : string) (default : A) : A :=
  match lookup key d with
  | Some v => v
  | None => default
  end.

(** The rows of a table in order, as [iterrows] visits them. *)
Definition iterrows (df : DataFrame) : list nat := seq 0 (index_len df).

(** *** Macronutrient averages and the diet comparison *)

(** The averages of one diet type: a dictionary from nutrient name to the
    rounded mean over the rows of that diet type. *)
Definition averages_of (df : DataFrame) (available_cols : list string)
  (diet_col : Series) (diet_type : scalar) : outcome (list (string * float64)) :=
  let diet_data := select df (mask_eq diet_col diet_type) in
  omap (fun col =>
          obind (getitem diet_data col) (fun s =>
          obind (Series_mean s) (fun m =>
          Ok (drop_unit col, round_float m))))
       available_cols.

(** The result is a dictionary keyed by diet type; [unique()] gives each key
    once, so every turn of the loop adds an entry. *)
Definition get_macronutrient_averages
  : M (list (scalar * list (string * float64))) :=
  d <- get_data ;;
  match d with
  | None => ret []
  | Some df =>
      let available_cols := filter (has_column df) macro_cols in
      match column df "Diet_type", available_cols with
      | Some diet_col, _ :: _ =>
          lift (omap (fun diet_type =>
                        obind (averages_of df available_cols diet_col diet_type)
                              (fun averages => Ok (diet_type, averages)))
                     (Series_unique diet_col))
      | _, _ => ret []
      end
  end.

Record diet_info : Type := mkDietInfo {
  di_diet_type : scalar;
  di_protein : float64;
  di_carbs : float64;
  di_fat : float64;
  di_total_recipes : nat
}.

Definition get_diet_comparison_data : M (list diet_info) :=
  averages <- get_macronutrient_averages ;;
  mapM (fun entry : scalar * list (string * float64) =>
          let (diet_type, macros) := entry in
          df <- self_frame ;;
          diet_col <- lift (getitem df "Diet_type") ;;
          ret (mkDietInfo diet_type
                 (dict_get macros "Protein" (Some 0%Q))
                 (dict_get macros "Carbs" (Some 0%Q))
                 (dict_get macros "Fat" (Some 0%Q))
                 (index_len (select df (mask_eq diet_col diet_type)))))
       averages.

(** *** Top recipes by nutrient *)

Record top_recipe : Type := mkTopRecipe {
  tr_recipe_name : scalar;
  tr_diet_type : scalar;
  tr_cuisine_type : scalar;
  tr_nutrient_value : float64;
  tr_nutrient_type : string
}.

Definition top_recipe_info (top_recipes : DataFrame) (nutrient nutrient_col : string)
  (i : nat) : outcome top_recipe :=
  obind (getitem top_recipes nutrient_col) (fun s =>
  obind (round_scalar (Series_at s i)) (fun value =>
  Ok (mkTopRecipe
        (row_get top_recipes i "Recipe_name" (SStr "Unknown"))
        (row_get top_recipes i "Diet_type" (SStr "Unknown"))
        (row_get top_recipes i "Cuisine_type" (SStr "Unknown"))
        value
        nutrient))).

Section TopRecipes.

(** numpy's [argsort] of kind quicksort, which [nlargest] reaches through
    [sort_values]: the positions of a list of numbers in ascending order of
    value.  The order it gives to equal values is left open. *)
Variable argsort : list Q -> list nat.

Definition get_top_recipes_by_nutrient (nutrient : string) (n : Z)
  : M (list top_recipe) :=
  d <- get_data ;;
  match d with
  | None => ret []
  | Some df =>
      let nutrient_col := (nutrient ++ "(g)")%string in
      match column df nutrient_col with
      | None => ret []
      | Some s =>
          idxs <- lift (nlargest argsort n s) ;;
          let top_recipes := take df idxs in
          lift (omap (top_recipe_info top_recipes nutrient nutrient_col)
                     (iterrows top_recipes))
      end
  end.

End TopRecipes.

(** [n = max(1, min(n, 100))] in the HTTP entry point [main]. *)
Definition clamp_n (n : Z) : Z := Z.max 1 (Z.min n 100).

(** *** Cuisine distribution *)

Definition get_cuisine_distribution : M (list (scalar * list (scalar * nat))) :=
  d <- get_data ;;
  match d with
  | None => ret []
  | Some df =>
      match column df "Diet_type", column df "Cuisine_type" with
      | Some diet_col, Some _ =>
          lift (omap (fun diet_type =>
                        let diet_data := select df (mask_eq diet_col diet_type) in
                        obind (getitem diet_data "Cuisine_type") (fun s =>
                        Ok (diet_type, value_counts s)))
                     (Series_unique diet_col))
      | _, _ => ret []
      end
  end.

(** *** Nutrient ranges *)

Record nutrient_range : Type := mkRange {
  range_min : float64;
  range_max : float64;
  range_average : float64;
  range_median : float64
}.

Definition range_of (s : Series) : outcome nutrient_range :=
  obind (Series_min s) (fun mn =>
  obind (Series_max s) (fun mx =>
  obind (Series_mean s) (fun avg =>
  obind (Series_median s) (fun med =>
  Ok (mkRange (round_float mn) (round_float mx) (round_float avg)
        (round_float med)))))).

Fixpoint ranges_over (df : DataFrame) (cols : list string)
  : outcome (list (string * nutrient_range)) :=
  match cols with
  | [] => Ok []
  | col :: cols' =>
      match column df col with
      | Some s =>
          obind (range_of s) (fun r =>
          obind (ranges_over df cols') (fun rest =>
          Ok ((drop_unit col, r) :: rest)))
      | None => ranges_over df cols'
      end
  end.

Definition get_nutrient_ranges : M (list (string * nutrient_range)) :=
  d <- get_data ;;
  match d with
  | None => ret []
  | Some df => lift (ranges_over df macro_cols)
  end.

(** *** Summary *)

Record diet_summary : Type := mkSummary {
  total_recipes : nat;
  total_diet_types : nat;
  total_cuisine_types : nat;
  diet_types : list scalar;
  most_common_diet : scalar;
  most_common_cuisine : scalar
}.

Definition nunique_or_0 (df : DataFrame) (col : string) : nat :=
  match column df col with
  | Some s => Series_nunique s
  | None => 0
  end.

Definition most_common (df : DataFrame) (col : string) : scalar :=
  match column df col with
  | Some s => fill_value_of (Series_mode s)
  | None => SStr "Unknown"
  end.

(** [None] stands for the empty dictionary returned without a dataset. *)
Definition get_diet_summary : M (option diet_summary) :=
  d <- get_data ;;
  match d with
  | None => ret None
  | Some df =>
      ret (Some (mkSummary
                   (index_len df)
                   (nunique_or_0 df "Diet_type")
                   (nunique_or_0 df "Cuisine_type")
                   (match column df "Diet_type" with
                    | Some s => Series_unique s
                    | None => []
                    end)
                   (most_common df "Diet_type")
                   (most_common df "Cuisine_type")))
  end.

(** *** Recipes of a diet type, and search *)

Record recipe_info : Type := mkRecipeInfo {
  ri_recipe_name : scalar;
  (* [search_recipes] reports the diet type, the listing by diet type does not *)
  ri_diet_type : option scalar;
  ri_cuisine_type : scalar;
  ri_protein : float64;
  ri_carbs : float64;
  ri_fat : float64
}.

Definition recipe_row (with_diet : bool) (df : DataFrame) (i : nat)
  : outcome recipe_info :=
  obind (round_scalar (row_get df i "Protein(g)" (SNum 0))) (fun protein =>
  obind (round_scalar (row_get df i "Carbs(g)" (SNum 0))) (fun carbs =>
  obind (round_scalar (row_get df i "Fat(g)" (SNum 0))) (fun fat =>
  Ok (mkRecipeInfo
        (row_get df i "Recipe_name" (SStr "Unknown"))
        (if with_diet then Some (row_get df i "Diet_type" (SStr "Unknown")) else None)
        (row_get df i "Cuisine_type" (SStr "Unknown"))
        protein carbs fat)))).

Definition get_recipes_by_diet_type (diet_type : string) : M (list recipe_info) :=
  d <- get_data ;;
  match d with
  | None => ret []
  | Some df =>
      match column df "Diet_type" with
      | None => ret []
      | Some diet_col =>
          let diet_recipes := select df (mask_eq diet_col (SStr diet_type)) in
          lift (omap (recipe_row false diet_recipes) (iterrows diet_recipes))
      end
  end.

Section Search.

(** What [re.compile] makes of a pattern outside the modelled fragment: an
    exception, or a test on texts.  It is left open. *)
Variable re_beyond : string -> outcome (string -> bool).

(** [re.compile(pat, re.IGNORECASE)], then [search] on a text. *)
Definition re_compile (pat : string) : outcome (string -> bool) :=
  match Re.compile pat with
  | Re.Compiled r => Ok (Re.search r)
  | Re.Invalid => Raise ReError
  | Re.Unsupported => re_beyond pat
  end.

(** [series.str.contains(pat, case=False, na=False)]: the pattern is a
    regular expression ([regex=True] is the default), and a missing entry
    counts as no match.  The [.str] accessor exists on object columns only. *)
Definition str_contains (s : Series) (pat : string) : outcome (list bool) :=
  match s with
  | Float64 _ => Raise AttributeError
  | Object xs =>
      obind (re_compile pat) (fun test =>
      Ok (map (fun c => match c with Some v => test v | None => false end) xs))
  end.

Definition search_recipes (search_term search_field : string)
  : M (list recipe_info) :=
  d <- get_data ;;
  match d with
  | None => ret []
  | Some df =>
      match column df search_field with
      | None => ret []
      | Some s =>
          mask <- lift (str_contains s search_term) ;;
          let matching_recipes := select df mask in
          lift (omap (recipe_row true matching_recipes) (iterrows matching_recipes))
      end
  end.

(** *** All queries at once *)

(** numpy's [argsort] of kind quicksort, see [get_top_recipes_by_nutrient]. *)
Variable argsort : list Q -> list nat.

Inductive query : Type :=
| Summary
| MacronutrientAverages
| DietComparison
| TopByNutrient (nutrient : string) (n : Z)
| CuisineDistribution
| NutrientRanges
| RecipesByDietType (diet_type : string)
| SearchRecipes (search_term search_field : string).

Inductive answer : Type :=
| ASummary (r : option diet_summary)
| AAverages (r : list (scalar * list (string * float64)))
| AComparison (r : list diet_info)
| ATop (r : list top_recipe)
| ACuisine (r : list (scalar * list (scalar * nat)))
| ARanges (r : list (string * nutrient_range))
| ARecipes (r : list recipe_info).

Definition run_query (q : query) : M answer :=
  match q with
  | Summary => r <- get_diet_summary ;; ret (ASummary r)
  | MacronutrientAverages => r <- get_macronutrient_averages ;; ret (AAverages r)
  | DietComparison => r <- get_diet_comparison_data ;; ret (AComparison r)
  | TopByNutrient nutrient n =>
      r <- get_top_recipes_by_nutrient argsort nutrient n ;; ret (ATop r)
  | CuisineDistribution => r <- get_cuisine_distribution ;; ret (ACuisine r)
  | NutrientRanges => r <- get_nutrient_ranges ;; ret (ARanges r)
  | RecipesByDietType diet_type =>
      r <- get_recipes_by_diet_type diet_type ;; ret (ARecipes r)
  | SearchRecipes search_term search_field =>
      r <- search_recipes search_term search_field ;; ret (ARecipes r)
  end.

(** The empty result each query documents for a processor without dataset. *)
Definition empty_answer (q : query) : answer :=
  match q with
  | Summary => ASummary None
  | MacronutrientAverages => AAverages []
  | DietComparison => AComparison []
  | TopByNutrient _ _ => ATop []
  | CuisineDistribution => ACuisine []
  | NutrientRanges => ARanges []
  | RecipesByDietType _ => ARecipes []
  | SearchRecipes _ _ => ARecipes []
  end.

End Search.

(* ================================================================= *)
(** ** Notions used in the statements and proofs *)

(** A method that leaves the object as it found it. *)
Definition read_only {A} (m : M A) : Prop := forall self, snd (m self) = self.

(** One turn of a cleaning loop as a function on tables. *)
Definition clean_column_on (f : Series -> outcome Series) (col : string)
  (df : DataFrame) : outcome DataFrame :=
  match column df col with
  | Some s => obind (f s) (fun s' => Ok (set_column df col s'))
  | None => Ok df
  end.

(** A run of cleaning turns: the outcome, and the table reached when the run
    ended or was cut short by an exception. *)
Fixpoint run_steps (steps : list (string * (Series -> outcome Series)))
  (df : DataFrame) : outcome unit * DataFrame :=
  match steps with
  | [] => (Ok tt, df)
  | (col, f) :: rest =>
      match clean_column_on f col df with
      | Ok df1 => run_steps rest df1
      | Raise e => (Raise e, df)
      end
  end.

Definition cleaning_steps : list (string * (Series -> outcome Series)) :=
  map (fun col => (col, fill_with_mean)) numeric_cols
  ++ map (fun col => (col, fill_with_mode)) categorical_cols.

(** A fill that changes nothing when applied to its own result. *)
Definition settles (f : Series -> outcome Series) : Prop :=
  forall s s', f s = Ok s' -> f s' = Ok s'.

(** A processor that holds the table [df]. *)
Definition holding (df : DataFrame) : Processor :=
  mkProcessor (Some df) "diet-data" "All_Diets.csv".

(** [df'] is what a successful cleaning leaves in [self.data]. *)
Definition cleaned (df' : DataFrame) : Prop :=
  exists self,
    data self <> None /\
    fst (_clean_data self) = Ok tt /\ data (snd (_clean_data self)) = Some df'.

(** No entry of a column the cleaning declares is missing. *)
Definition no_missing_declared (df : DataFrame) : Prop :=
  forall col s,
    In col (numeric_cols ++ categorical_cols) ->
    column df col = Some s -> Series_has_missing s = false.

(** [v] is among the most frequent values of [l] and the least of them in
    the order [leb]. *)
Definition least_most_frequent {A} (eqb leb : A -> A -> bool) (l : list A) (v : A)
  : Prop :=
  In v l /\
  (forall u, count eqb u l <= count eqb v l) /\
  (forall u, In u l -> count eqb u l = count eqb v l -> leb v u = true).

(** The value a categorical column is filled with: the least of its most
    frequent entries, or the text "Unknown" when it has no entry at all. *)
Definition categorical_fill (s : Series) (v : scalar) : Prop :=
  match s with
  | Object xs =>
      match present xs with
      | [] => v = SStr "Unknown"
      | _ :: _ =>
          exists t, v = SStr t /\
                    least_most_frequent String.eqb String.leb (present xs) t
      end
  | Float64 xs =>
      match present xs with
      | [] => v = SStr "Unknown"
      | _ :: _ =>
          exists q, v = SNum q /\
                    least_most_frequent Qeq_bool Qle_bool (present xs) q
      end
  end.

(** A column with each missing entry replaced by [v]. *)
Definition filled_cells (v : scalar) (s : Series) : list scalar :=
  map (fun c => match c with SNaN => v | _ => c end) (Series_cells s).

(** The reading the specification gives of the mode: the most frequent
    value, the one met first among equally frequent ones. *)
Definition first_most_frequent (l : list string) : option string :=
  hd_error (filter (fun x => Nat.eqb (count String.eqb x l) (max_count String.eqb l)) l).

(** Row [i] ranks before row [j] in the column [xs]: its value is larger,
    or equal with [i] the earlier row; rows without a value rank last, in
    row order. *)
Definition ranks_before (xs : list (option Q)) (i j : nat) : Prop :=
  match nth i xs None, nth j xs None with
  | Some x, Some y => (y < x)%Q \/ ((x == y)%Q /\ i < j)
  | Some _, None => True
  | None, Some _ => False
  | None, None => i < j
  end.

(** Row [i] may stand before row [j] in a descending order of the column
    [xs]: its value is no smaller; rows without a value stand last, in row
    order.  Equal values may come in either order. *)
Definition value_order (xs : list (option Q)) (i j : nat) : Prop :=
  match nth i xs None, nth j xs None with
  | Some x, Some y => (y <= x)%Q
  | Some _, None => True
  | None, Some _ => False
  | None, None => i < j
  end.

(** What numpy promises of [argsort]: the positions of the list, each once,
    in ascending order of value. *)
Definition sorts (argsort : list Q -> list nat) : Prop :=
  forall l,
    Permutation (argsort l) (seq 0 (length l)) /\
    StronglySorted (fun p q => (nth p l 0 <= nth q l 0)%Q) (argsort l).

(** An [argsort] by insertion, for a given way to place a new element:
    [before a b] puts the pair [a] of a position and its value in front of
    [b], which stood later in the list. *)
Definition argsort_by (before : nat * Q -> nat * Q -> bool) (l : list Q) : list nat :=
  map fst (sort_by before (enumerate_from 0 l)).

(** Equal values stay in the order of the list. *)
Definition stable_argsort : list Q -> list nat :=
  argsort_by (fun a b => Qle_bool (snd a) (snd b)).

(** Equal values come out in reverse order of the list. *)
Definition reversing_argsort : list Q -> list nat :=
  argsort_by (fun a b =>
                if Qeq_bool (snd a) (snd b) then Nat.leb (fst b) (fst a)
                else Qle_bool (snd a) (snd b)).

(** The entry [get_top_recipes_by_nutrient] reports for row [i] of the table. *)
Definition top_row (df : DataFrame) (nutrient : string) (xs : list (option Q))
  (i : nat) : top_recipe :=
  mkTopRecipe
    (row_get df i "Recipe_name" (SStr "Unknown"))
    (row_get df i "Diet_type" (SStr "Unknown"))
    (row_get df i "Cuisine_type" (SStr "Unknown"))
    (round_float (nth i xs None))
    nutrient.

(** The ranking of rows paired with their values: larger value first, the
    earlier row first among equal values. *)
Definition pair_ranks_before (a b : nat * Q) : Prop :=
  (snd b < snd a)%Q \/ ((snd a == snd b)%Q /\ fst a < fst b).

(** A column whose mean is defined: numeric, or without any value. *)
Definition mean_defined (s : Series) : Prop :=
  match s with
  | Float64 _ => True
  | Object xs => present xs = []
  end.

Definition sum_nat (l : list nat) : nat := fold_right Nat.add 0 l.

(** The rows of a table whose diet type is [v]. *)
Definition rows_of_diet (diet_col : Series) (v : scalar) : list nat :=
  where_true (mask_eq diet_col v).

(** What the diet comparison reports for one macronutrient of the diet type
    [v]: the rounded mean over the rows of that diet type, or 0 when the
    table has no such column. *)
Definition macro_reported (df : DataFrame) (diet_col : Series) (v : scalar)
  (col : string) (x : float64) : Prop :=
  match column df col with
  | None => x = Some 0%Q
  | Some s =>
      exists m, Series_mean (Series_take (rows_of_diet diet_col v) s) = Ok m /\
                x = round_float m
  end.

(** The mean of a column over the rows of the diet type [v]; NaN where the
    mean is not defined. *)
Definition group_mean (df : DataFrame) (diet_col : Series) (v : scalar)
  (col : string) : float64 :=
  match column df col with
  | Some s =>
      match Series_mean (Series_take (rows_of_diet diet_col v) s) with
      | Ok m => m
      | Raise _ => None
      end
  | None => None
  end.

(** The dictionary of averages of the diet type [v]. *)
Definition group_averages (df : DataFrame) (diet_col : Series) (v : scalar)
  : list (string * float64) :=
  map (fun col => (drop_unit col, round_float (group_mean df diet_col v col)))
      (filter (has_column df) macro_cols).

(** The entry of the diet comparison for the diet type [v]. *)
Definition comparison_entry (df : DataFrame) (diet_col : Series) (v : scalar)
  : diet_info :=
  let macros := group_averages df diet_col v in
  mkDietInfo v
    (dict_get macros "Protein" (Some 0%Q))
    (dict_get macros "Carbs" (Some 0%Q))
    (dict_get macros "Fat" (Some 0%Q))
    (length (rows_of_diet diet_col v)).




(** A text of ASCII characters.  On such texts the bytes of the model are
    the characters of Python, and the case folding of [Re.lower] is the one
    of [re.IGNORECASE]. *)
Fixpoint is_ascii (s : string) : bool :=
  match s with
  | EmptyString => true
  | String c s' => Nat.ltb (nat_of_ascii c) 128 && is_ascii s'
  end.

(** The pattern that matches the text [t] itself, letter case ignored. *)
Fixpoint literal (t : string) : Re.regex :=
  match t with
  | EmptyString => Re.Eps
  | String c t' => Re.Cat (Re.Chr c) (literal t')
  end.

(** Every character of the term stands for itself in a pattern. *)
Fixpoint plain (t : string) : bool :=
  match t with
  | EmptyString => true
  | String c t' => Re.is_plain c && plain t'
  end.

(** A table value rounded for a report; NaN for what is not a number. *)
Definition rounded (v : scalar) : float64 :=
  match v with
  | SNum q => Some (round2 q)
  | _ => None
  end.

(** The entry the search and the listing by diet type report for row [i]. *)
Definition recipe_entry (with_diet : bool) (df : DataFrame) (i : nat) : recipe_info :=
  mkRecipeInfo
    (row_get df i "Recipe_name" (SStr "Unknown"))
    (if with_diet then Some (row_get df i "Diet_type" (SStr "Unknown")) else None)
    (row_get df i "Cuisine_type" (SStr "Unknown"))
    (rounded (row_get df i "Protein(g)" (SNum 0)))
    (rounded (row_get df i "Carbs(g)" (SNum 0)))
    (rounded (row_get df i "Fat(g)" (SNum 0))).

(** The rows of a text column whose entry is present and passes [test]. *)
Definition text_rows (test : string -> bool) (xs : list (option string)) : list nat :=
  where_true (map (fun c => match c with Some v => test v | None => false end) xs).

(* ================================================================= *)
(** ** Notions used in the further properties *)

(** What the summary says about a column without missing entries: the
    number of distinct values, the values themselves and the most common
    one. *)
Definition summarises (s : Series) (n : nat) (listed : list scalar) (top : scalar)
  : Prop :=
  n = length listed /\
  n <= Series_len s /\
  Forall (fun v => v <> SNaN) listed /\
  ForallOrdPairs (fun a b => scalar_same b a = false) listed /\
  (Series_len s = 0 -> top = SStr "Unknown") /\
  (0 < Series_len s ->
   (exists u, In u listed /\ scalar_same top u = true) /\
   forall w, count scalar_same w (Series_cells s)
             <= count scalar_same top (Series_cells s)).

(* ================================================================= *)
(** ** The constructor and the upload of results *)

(** [a or b] on optional texts: the first that is neither [None] nor empty. *)
Definition py_or (a b : option string) : option string :=
  match a with
  | Some s => if String.eqb s "" then b else Some s
  | None => b
  end.

Section Construction.

(** [os.getenv("AzureWebJobsStorage")] *)
Variable getenv_storage : option string.

(** [BlobServiceClient.from_connection_string]: it may reject the string. *)
Variable from_connection_string : string -> outcome unit.

(** [AzureDietDataProcessor.__init__]: the connection string comes from the
    argument or from the environment; without one the constructor raises
    [ValueError], counted here among [OtherError].  An exception of the
    client is raised again. *)
Definition init (connection_string : option string) (container : string)
  : outcome Processor :=
  match py_or connection_string getenv_storage with
  | None => Raise OtherError
  | Some cs =>
      if String.eqb cs "" then Raise OtherError
      else obind (from_connection_string cs)
                 (fun _ => Ok (mkProcessor None container "All_Diets.csv"))
  end.

End Construction.

Section Upload.

(** The value to upload: a dictionary or a list of Python. *)
Variable payload : Type.

(** [isinstance(data, list)] *)
Variable is_list : payload -> bool.

(** [json.dumps(data, indent=2)] *)
Variable json_dumps : payload -> outcome string.

(** [pd.DataFrame(data).to_csv(index=False)] *)
Variable frame_to_csv : payload -> outcome string.

(** [get_blob_client(container, blob)] and
    [upload_blob(content, overwrite=True, content_type=...)] on it. *)
Variable get_blob_client : string -> string -> outcome unit.
Variable upload_blob : string -> string -> string -> string -> outcome unit.

(** The text to upload and its content type, by format tag. *)
Definition render (data : payload) (format_type : string)
  : outcome (string * string) :=
  if String.eqb (Re.lower_str format_type) "json" then
    obind (json_dumps data) (fun content => Ok (content, "application/json"))
  else if String.eqb (Re.lower_str format_type) "csv" && is_list data then
    obind (frame_to_csv data) (fun content => Ok (content, "text/csv"))
  else Raise OtherError.   (* ValueError: unsupported format or data *)

Definition upload_results_to_blob (data : payload) (name format_type : string)
  : M bool :=
  fun self =>
    try_except
      (lift
         (obind (get_blob_client (container_name self) name) (fun _ =>
          obind (render data format_type) (fun rendered =>
          obind (upload_blob (container_name self) name (fst rendered) (snd rendered))
                (fun _ => Ok true)))))
      (fun _ => ret false)
      self.

End Upload.

(* ================================================================= *)
(** ** The HTTP entry point [main] of [DietProcessorFunction/__init__.py] *)

Record HttpRequest : Type := mkRequest {
  route_params : list (string * string);
  params : list (string * string)
}.

Inductive response_body : Type :=
| HealthBody                    (* status healthy, function is running *)
| LoadFailedBody                (* error: failed to load data from blob storage *)
| TermRequiredBody              (* error: search term is required *)
| InternalErrorBody (e : exn)   (* error: internal server error, with str(e) *)
| JsonBody (text : string).     (* json.dumps(result, indent=2) *)

Record HttpResponse : Type := mkResponse {
  status_code : nat;
  body : response_body
}.

(** What [main] hands to [json.dumps]: the answer of a query, or the
    dictionary that lists the operations. *)
Inductive main_result : Type :=
| Answer (a : answer)
| Welcome.

(** [s.replace(old, new)] for a text [old] that is not empty: occurrences are
    replaced from left to right.  [skip] counts the characters of an
    occurrence still to pass over. *)
Fixpoint replace_from (old new : string) (skip : nat) (s : string) : string :=
  match s with
  | EmptyString => EmptyString
  | String c s' =>
      match skip with
      | S k => replace_from old new k s'
      | O =>
          if String.prefix old s
          then (new ++ replace_from old new (String.length old - 1) s')%string
          else String c (replace_from old new 0 s')
      end
  end.

Definition str_replace (old new s : string) : string := replace_from old new 0 s.

(** [operation.replace("recipes/", "")] *)
Definition route_diet_type (operation : string) : string :=
  str_replace "recipes/" "" operation.

(** [req.params.get(key, default)] *)
Definition get_param (req : HttpRequest) (key default : string) : string :=
  match lookup key (params req) with
  | Some v => v
  | None => default
  end.

Section Main.

Variable getenv_storage : option string.
Variable from_connection_string : string -> outcome unit.
Variable download_blob : string -> string -> outcome string.
Variable read_csv : string -> outcome DataFrame.
Variable re_beyond : string -> outcome (string -> bool).
Variable argsort : list Q -> list nat.

(** [int(text)]: [None] when it raises [ValueError]. *)
Variable py_int : string -> option Z.

(** [json.dumps(result, indent=2)] *)
Variable dumps : main_result -> outcome string.

(** The count of the top-recipes operation: parsed, 10 when absent or not a
    number, then clamped. *)
Definition requested_n (req : HttpRequest) : Z :=
  let n :=
    match lookup "n" (params req) with
    | None => 10%Z
    | Some text =>
        match py_int text with
        | Some n => n
        | None => 10%Z
        end
    end in
  clamp_n n.

(** The chain of [if operation == ...] tests: a response of its own for a
    search without term, otherwise the result to serialise. *)
Definition dispatch (operation : string) (req : HttpRequest)
  : M (HttpResponse + main_result) :=
  let query q := a <- run_query re_beyond argsort q ;; ret (inr (Answer a)) in
  if String.eqb operation "summary" then query Summary
  else if String.eqb operation "macronutrients" then query MacronutrientAverages
  else if String.eqb operation "comparison" then query DietComparison
  else if String.eqb operation "top-recipes" then
    query (TopByNutrient (get_param req "nutrient" "Protein") (requested_n req))
  else if String.eqb operation "cuisine-distribution" then query CuisineDistribution
  else if String.eqb operation "nutrient-ranges" then query NutrientRanges
  else if String.prefix "recipes/" operation then
    query (RecipesByDietType (route_diet_type operation))
  else if String.eqb operation "search" then
    let search_term := get_param req "term" "" in
    let search_field := get_param req "field" "Recipe_name" in
    if String.eqb search_term "" then ret (inl (mkResponse 400 TermRequiredBody))
    else query (SearchRecipes search_term search_field)
  else ret (inr Welcome).

(** [(req.route_params.get("operation") or "").lower()] *)
Definition operation_of (req : HttpRequest) : string :=
  Re.lower_str
    (match lookup "operation" (route_params req) with
     | Some s => s
     | None => ""
     end).

(** The body of the [try] block of [main]. *)
Definition main_body (req : HttpRequest) : outcome HttpResponse :=
  let operation := operation_of req in
  if String.eqb operation "health" then Ok (mkResponse 200 HealthBody)
  else
    obind (init getenv_storage from_connection_string None "diet-data")
      (fun processor =>
         match load_data_from_blob read_csv download_blob None processor with
         | (Raise e, _) => Raise e
         | (Ok false, _) => Ok (mkResponse 500 LoadFailedBody)
         | (Ok true, loaded) =>
             match dispatch operation req loaded with
             | (Raise e, _) => Raise e
             | (Ok (inl response), _) => Ok response
             | (Ok (inr result), _) =>
                 obind (dumps result)
                       (fun text => Ok (mkResponse 200 (JsonBody text)))
             end
         end).

(** [main]: any exception becomes a response with status 500. *)
Definition main (req : HttpRequest) : HttpResponse :=
  match main_body req with
  | Ok response => response
  | Raise e => mkResponse 500 (InternalErrorBody e)
  end.

End Main.

(* ================================================================= *)
(** ** [DietAnalyzer.load_data] of [api/data_analysis.py] *)

(** [DietAnalyzer] keeps a table in [self.data] and nothing else; it is
    modelled on the processor record, whose other fields it never reads.
    Its [clean_data] is [_clean_data]. *)

Definition ends_with (suffix s : string) : bool :=
  let n := String.length s in
  let m := String.length suffix in
  Nat.leb m n && String.eqb (String.substring (n - m) m s) suffix.

Section Analyzer.

(** The columns of a dictionary given as data source. *)
Variable dict_source : Type.

(** [pd.read_csv(path)] and [pd.DataFrame(dict)] *)
Variable read_csv_path : string -> outcome DataFrame.
Variable frame_of_dict : dict_source -> outcome DataFrame.

Inductive data_source : Type :=
| SourcePath (path : string)
| SourceDict (d : dict_source)
| SourceOther.                  (* any other Python value *)

Definition load_data (source : data_source) : M (option DataFrame) :=
  (match source with
   | SourcePath path =>
       if ends_with ".csv" path
       then df <- lift (read_csv_path path) ;; set_data df
       else ret tt
   | SourceDict d => df <- lift (frame_of_dict d) ;; set_data df
   | SourceOther => ret tt
   end) ;;
  d <- get_data ;;
  (match d with
   | Some _ => _clean_data
   | None => ret tt
   end) ;;
  get_data.

End Analyzer.

(** The text has no slash. *)
Fixpoint no_slash (s : string) : bool :=
  match s with
  | EmptyString => true
  | String c s' => negb (Ascii.eqb c "/") && no_slash s'
  end.

(* ================================================================= *)
(** ** Sample tables *)

(** The three recipes of the specification's scenario. *)
Definition sample_table : DataFrame :=
  mkDataFrame 3
    [ ("Recipe_name", Object [Some "A"; Some "B"; Some "C"]);
      ("Diet_type", Object [Some "vegan"; Some "vegan"; Some "keto"]);
      ("Cuisine_type", Object [Some "italian"; Some "mexican"; Some "italian"]);
      ("Protein(g)", Float64 [Some 10%Q; Some 30%Q; Some 5%Q]);
      ("Carbs(g)", Float64 [Some 20%Q; Some 10%Q; Some 5%Q]);
      ("Fat(g)", Float64 [Some 5%Q; Some 2%Q; Some 25%Q]) ].

(** The same recipes before cleaning, with entries left out in the file. *)
Definition sample_raw : DataFrame :=
  mkDataFrame 3
    [ ("Recipe_name", Object [Some "A"; Some "B"; Some "C"]);
      ("Diet_type", Object [Some "vegan"; None; Some "vegan"]);
      ("Cuisine_type", Object [Some "italian"; Some "mexican"; Some "italian"]);
      ("Protein(g)", Float64 [Some 10%Q; None; Some 5%Q]);
      ("Carbs(g)", Float64 [Some 20%Q; Some 10%Q; Some 5%Q]);
      ("Fat(g)", Float64 [Some 5%Q; Some 2%Q; Some 25%Q]) ].

(** Two diet types that are equally frequent, and a nutrient never given. *)
Definition tie_raw : DataFrame :=
  mkDataFrame 3
    [ ("Recipe_name", Object [Some "A"; Some "B"; Some "C"]);
      ("Diet_type", Object [Some "vegan"; Some "keto"; None]);
      ("Protein(g)", Float64 [None; None; None]) ].

Definition tie_cleaned : DataFrame :=
  mkDataFrame 3
    [ ("Recipe_name", Object [Some "A"; Some "B"; Some "C"]);
      ("Diet_type", Object [Some "vegan"; Some "keto"; Some "keto"]);
      ("Protein(g)", Float64 [None; None; None]) ].

(** A processor as [__init__] leaves it: no dataset yet. *)
Definition fresh : Processor := mkProcessor None "diet-data" "All_Diets.csv".

(** A file whose protein column holds text, and the table it parses to. *)
Definition text_protein_csv : string :=
  "Recipe_name,Diet_type,Protein(g)
A,vegan,12g
B,,high
".

Definition text_protein : DataFrame :=
  mkDataFrame 2
    [ ("Recipe_name", Object [Some "A"; Some "B"]);
      ("Diet_type", Object [Some "vegan"; None]);
      ("Protein(g)", Object [Some "12g"; Some "high"]) ].

(** A reader for the two inputs it is used on: this file, and empty
    content, on which [pandas.read_csv] raises [EmptyDataError]. *)
Definition read_one_csv (content : string) : outcome DataFrame :=
  if String.eqb content text_protein_csv then Ok text_protein else Raise OtherError.

(** A store without blobs. *)
Definition empty_store (container name : string) : outcome string :=
  Raise ResourceNotFoundError.

(** No pattern beyond the modelled fragment compiles. *)
Definition no_extension (pat : string) : outcome (string -> bool) := Raise ReError.

(** A table with a column of serving sizes written as text. *)
Definition labelled : DataFrame :=
  mkDataFrame 2
    [ ("Recipe_name", Object [Some "A"; Some "B"]);
      ("Protein(g)", Float64 [Some 10%Q; Some 30%Q]);
      ("Serving(g)", Object [Some "100 g"; Some "250 g"]) ].

(** A clean table without a diet type column. *)
Definition no_diet_column : DataFrame :=
  mkDataFrame 1
    [ ("Recipe_name", Object [Some "A"]);
      ("Protein(g)", Float64 [Some 10%Q]) ].



(** A file with the recipes of [sample_raw], and a reader that knows it. *)
Definition sample_csv : string :=
  "Recipe_name,Diet_type,Cuisine_type,Protein(g),Carbs(g),Fat(g)
A,vegan,italian,10,20,5
B,,mexican,,10,2
C,vegan,italian,5,5,25
".

Definition read_sample_csv (content : string) : outcome DataFrame :=
  if String.eqb content sample_csv then Ok sample_raw else Raise OtherError.

(** A store that holds this file as [All_Diets.csv] in [diet-data]. *)
Definition sample_store (container name : string) : outcome string :=
  if String.eqb container "diet-data" && String.eqb name "All_Diets.csv"
  then Ok sample_csv else Raise ResourceNotFoundError.

Definition any_client (connection_string : string) : outcome unit := Ok tt.

(** [int] on the few texts the samples use. *)
Definition sample_int (text : string) : option Z :=
  if String.eqb text "1000" then Some 1000%Z else None.

Definition sample_dumps (result : main_result) : outcome string := Ok "{}".

(** Four recipes, two of them with the same amount of protein. *)
Definition tied_protein : DataFrame :=
  mkDataFrame 4
    [ ("Recipe_name", Object [Some "A"; Some "B"; Some "C"; Some "D"]);
      ("Protein(g)", Float64 [Some 10%Q; Some 20%Q; Some 30%Q; Some 30%Q]) ].

(* ================================================================= *)
(** * Properties *)

Unset Implicit Arguments.

(** ** Methods that only read the object *)

Lemma read_only_ret A (a : A) : read_only (ret a).
Proof. intros self; reflexivity. Qed.

Lemma read_only_raise A (e : exn) : read_only (@raise A e).
Proof. intros self; reflexivity. Qed.

Lemma read_only_lift A (o : outcome A) : read_only (lift o).
Proof. intros self; reflexivity. Qed.

Lemma read_only_get_data : read_only get_data.
Proof. intros self; reflexivity. Qed.

Lemma read_only_bind A B (m : M A) (k : A -> M B) :
  read_only m -> (forall a, read_only (k a)) -> read_only (bind m k).
Proof.
  intros Hm Hk self. unfold bind.
  specialize (Hm self). destruct (m self) as [[a | e] self']; simpl in *; subst.
  - apply Hk.
  - reflexivity.
Qed.

Lemma read_only_self_frame : read_only self_frame.
Proof.
  apply read_only_bind; [apply read_only_get_data |].
  intros [df |]; [apply read_only_ret | apply read_only_raise].
Qed.

Lemma read_only_mapM A B (f : A -> M B) (l : list A) :
  (forall a, read_only (f a)) -> read_only (mapM f l).
Proof.
  intros Hf. induction l as [| x l IH]; simpl.
  - apply read_only_ret.
  - apply read_only_bind; [apply Hf |]. intros y.
    apply read_only_bind; [apply IH |]. intros ys. apply read_only_ret.
Qed.

Ltac read_only_step :=
  first
    [ apply read_only_bind; [| intros ?]
    | apply read_only_mapM; intros ?
    | apply read_only_ret
    | apply read_only_raise
    | apply read_only_lift
    | apply read_only_get_data
    | apply read_only_self_frame
    | match goal with
      | |- read_only (match ?x with _ => _ end) => destruct x
      | |- read_only (let (_, _) := ?x in _) => destruct x
      end ].

Ltac solve_read_only := repeat read_only_step.

Lemma read_only_get_macronutrient_averages : read_only get_macronutrient_averages.
Proof. unfold get_macronutrient_averages. solve_read_only. Qed.

Lemma read_only_get_diet_comparison_data : read_only get_diet_comparison_data.
Proof.
  unfold get_diet_comparison_data.
  apply read_only_bind; [apply read_only_get_macronutrient_averages |].
  intros averages. solve_read_only.
Qed.

Lemma read_only_get_top_recipes_by_nutrient argsort nutrient n :
  read_only (get_top_recipes_by_nutrient argsort nutrient n).
Proof. unfold get_top_recipes_by_nutrient. solve_read_only. Qed.

Lemma read_only_get_cuisine_distribution : read_only get_cuisine_distribution.
Proof. unfold get_cuisine_distribution. solve_read_only. Qed.

Lemma read_only_get_nutrient_ranges : read_only get_nutrient_ranges.
Proof. unfold get_nutrient_ranges. solve_read_only. Qed.

Lemma read_only_get_diet_summary : read_only get_diet_summary.
Proof. unfold get_diet_summary. solve_read_only. Qed.

Lemma read_only_get_recipes_by_diet_type diet_type :
  read_only (get_recipes_by_diet_type diet_type).
Proof. unfold get_recipes_by_diet_type. solve_read_only. Qed.

Lemma read_only_search_recipes re_beyond term field :
  read_only (search_recipes re_beyond term field).
Proof. unfold search_recipes. solve_read_only. Qed.

(** C9.  Every query leaves the processor, and with it the dataset, exactly
    as it found it, whether it returns or raises; hence so does every
    sequence of queries. *)
Theorem queries_do_not_mutate :
  forall (re_beyond : string -> outcome (string -> bool))
         (argsort : list Q -> list nat) (qs : list query) (self : Processor),
    (forall q, snd (run_query re_beyond argsort q self) = self) /\
    snd (mapM (run_query re_beyond argsort) qs self) = self.
Proof.
  intros re_beyond argsort qs self.
  assert (Hq : forall q, read_only (run_query re_beyond argsort q)).
  { intros q. destruct q; simpl;
      (apply read_only_bind; [| intros ?; apply read_only_ret]).
    - apply read_only_get_diet_summary.
    - apply read_only_get_macronutrient_averages.
    - apply read_only_get_diet_comparison_data.
    - apply read_only_get_top_recipes_by_nutrient.
    - apply read_only_get_cuisine_distribution.
    - apply read_only_get_nutrient_ranges.
    - apply read_only_get_recipes_by_diet_type.
    - apply read_only_search_recipes. }
  split.
  - intros q. apply Hq.
  - apply read_only_mapM. exact Hq.
Qed.

Lemma queries_without_dataset_at re_beyond argsort q cn bn :
  fst (run_query re_beyond argsort q (mkProcessor None cn bn)) = Ok (empty_answer q).
Proof. destruct q; reflexivity. Qed.

(** C7.  On a processor without dataset every query returns its documented
    empty result and does not raise. *)
Theorem queries_without_dataset :
  forall (re_beyond : string -> outcome (string -> bool))
         (argsort : list Q -> list nat) (q : query) (container blob : string),
    fst (run_query re_beyond argsort q (mkProcessor None container blob))
    = Ok (empty_answer q).
Proof.
  intros re_beyond argsort q container blob. apply queries_without_dataset_at.
Qed.

(* ================================================================= *)
(** ** Cleaning as a run of turns over the columns *)

Lemma lookup_replace_same (col : string) (s : Series) l :
  lookup col (replace_col col s l) = Some s.
Proof.
  induction l as [| [k v] l IH]; simpl.
  - rewrite String.eqb_refl. reflexivity.
  - destruct (String.eqb col k) eqn:E; simpl; rewrite E; auto.
Qed.

Lemma lookup_replace_other (col col' : string) (s : Series) l :
  col <> col' -> lookup col' (replace_col col s l) = lookup col' l.
Proof.
  intros Hne. induction l as [| [k v] l IH]; simpl.
  - destruct (String.eqb col' col) eqn:E; [| reflexivity].
    apply String.eqb_eq in E. congruence.
  - destruct (String.eqb col k) eqn:E; simpl.
    + apply String.eqb_eq in E. subst k.
      destruct (String.eqb col' col) eqn:E'; [| reflexivity].
      apply String.eqb_eq in E'. congruence.
    + rewrite IH. reflexivity.
Qed.

Lemma replace_col_id (col : string) (s : Series) l :
  lookup col l = Some s -> replace_col col s l = l.
Proof.
  induction l as [| [k v] l IH]; simpl; [discriminate |].
  destruct (String.eqb col k) eqn:E.
  - intros H. inversion H. reflexivity.
  - intros H. rewrite IH by assumption. reflexivity.
Qed.

Lemma column_set_same df col s : column (set_column df col s) col = Some s.
Proof. apply lookup_replace_same. Qed.

Lemma column_set_other df col col' s :
  col <> col' -> column (set_column df col s) col' = column df col'.
Proof. apply lookup_replace_other. Qed.

Lemma set_column_id df col s : column df col = Some s -> set_column df col s = df.
Proof.
  destruct df as [n cols]. unfold column, set_column. simpl. intros H.
  rewrite replace_col_id by assumption. reflexivity.
Qed.

Lemma index_len_set_column df col s : index_len (set_column df col s) = index_len df.
Proof. reflexivity. Qed.

Lemma clean_column_on_other f col col' df df1 :
  col <> col' -> clean_column_on f col df = Ok df1 -> column df1 col' = column df col'.
Proof.
  unfold clean_column_on. intros Hne.
  destruct (column df col) as [s |]; [| intros H; inversion H; reflexivity].
  destruct (f s) as [s' | e]; simpl; intros H; inversion H.
  apply column_set_other. assumption.
Qed.

Lemma clean_column_on_index f col df df1 :
  clean_column_on f col df = Ok df1 -> index_len df1 = index_len df.
Proof.
  unfold clean_column_on.
  destruct (column df col) as [s |]; [| intros H; inversion H; reflexivity].
  destruct (f s) as [s' | e]; simpl; intros H; inversion H. reflexivity.
Qed.

Lemma run_steps_other steps : forall df col',
  ~ In col' (map fst steps) ->
  column (snd (run_steps steps df)) col' = column df col'.
Proof.
  induction steps as [| [col f] rest IH]; intros df col' Hnot; simpl; [reflexivity |].
  simpl in Hnot.
  destruct (clean_column_on f col df) as [df1 | e] eqn:E; simpl; [| reflexivity].
  rewrite IH by tauto.
  eapply clean_column_on_other; [| exact E]. tauto.
Qed.

Lemma run_steps_index steps : forall df,
  index_len (snd (run_steps steps df)) = index_len df.
Proof.
  induction steps as [| [col f] rest IH]; intros df; simpl; [reflexivity |].
  destruct (clean_column_on f col df) as [df1 | e] eqn:E; simpl; [| reflexivity].
  rewrite IH. eapply clean_column_on_index; exact E.
Qed.

Lemma run_steps_app steps1 steps2 df :
  run_steps (steps1 ++ steps2) df =
  match run_steps steps1 df with
  | (Ok _, df1) => run_steps steps2 df1
  | (Raise e, df1) => (Raise e, df1)
  end.
Proof.
  revert df. induction steps1 as [| [col f] rest IH]; intros df; simpl; [reflexivity |].
  destruct (clean_column_on f col df) as [df1 | e]; [apply IH | reflexivity].
Qed.

(** Running the turns again on the table they reached repeats the outcome
    and changes nothing. *)
Lemma run_steps_settled steps :
  NoDup (map fst steps) ->
  Forall (fun st => settles (snd st)) steps ->
  forall df,
    run_steps steps (snd (run_steps steps df)) = run_steps steps df.
Proof.
  induction steps as [| [col f] rest IH]; intros Hnd Hall df; simpl; [reflexivity |].
  inversion Hnd as [| ? ? Hnotin Hnd']; subst.
  inversion Hall as [| ? ? Hf Hall']; subst. simpl in Hf.
  destruct (clean_column_on f col df) as [df1 | e] eqn:E; simpl.
  - assert (Hcol : clean_column_on f col (snd (run_steps rest df1))
                   = Ok (snd (run_steps rest df1))).
    { unfold clean_column_on in *.
      rewrite (run_steps_other rest df1 col Hnotin).
      destruct (column df col) as [s |] eqn:Ec.
      - destruct (f s) as [s' | e] eqn:Ef; simpl in E; inversion E; subst df1.
        rewrite column_set_same. rewrite (Hf _ _ Ef). simpl.
        rewrite set_column_id; [reflexivity |].
        rewrite (run_steps_other rest _ col Hnotin). apply column_set_same.
      - inversion E; subst df1. rewrite Ec. reflexivity. }
    rewrite Hcol. apply IH; assumption.
  - rewrite E. reflexivity.
Qed.

Lemma clean_column_run f col df cn bn :
  clean_column f col (mkProcessor (Some df) cn bn) =
  match clean_column_on f col df with
  | Ok df1 => (Ok tt, mkProcessor (Some df1) cn bn)
  | Raise e => (Raise e, mkProcessor (Some df) cn bn)
  end.
Proof.
  unfold clean_column, clean_column_on, bind, self_frame, get_data, bind, ret, lift,
    set_data. simpl.
  destruct (column df col) as [s |]; [| reflexivity].
  destruct (f s) as [s' | e]; reflexivity.
Qed.

Lemma for_each_run f cols : forall df cn bn,
  for_each cols (clean_column f) (mkProcessor (Some df) cn bn) =
  (fst (run_steps (map (fun col => (col, f)) cols) df),
   mkProcessor (Some (snd (run_steps (map (fun col => (col, f)) cols) df))) cn bn).
Proof.
  induction cols as [| col cols IH]; intros df cn bn; simpl; [reflexivity |].
  unfold bind. rewrite clean_column_run.
  destruct (clean_column_on f col df) as [df1 | e]; [apply IH | reflexivity].
Qed.

Lemma clean_data_run df cn bn :
  _clean_data (mkProcessor (Some df) cn bn) =
  (fst (run_steps cleaning_steps df),
   mkProcessor (Some (snd (run_steps cleaning_steps df))) cn bn).
Proof.
  unfold cleaning_steps. rewrite run_steps_app.
  change (_clean_data (mkProcessor (Some df) cn bn))
    with (bind (for_each numeric_cols (clean_column fill_with_mean))
            (fun _ => for_each categorical_cols (clean_column fill_with_mode))
            (mkProcessor (Some df) cn bn)).
  unfold bind. rewrite for_each_run.
  destruct (run_steps (map (fun col => (col, fill_with_mean)) numeric_cols) df)
    as [[[] | e] df1]; simpl fst; simpl snd; cbv iota; [apply for_each_run | reflexivity].
Qed.

Lemma clean_data_none cn bn :
  _clean_data (mkProcessor None cn bn) = (Ok tt, mkProcessor None cn bn).
Proof. reflexivity. Qed.

(* ================================================================= *)
(** ** Cleaning twice *)

Lemma fill_fill A (v w : A) xs : fill v (fill w xs) = fill w xs.
Proof.
  unfold fill. rewrite map_map. apply map_ext. intros [x |]; reflexivity.
Qed.

Lemma fill_no_missing A (v : A) xs :
  existsb is_missing xs = false -> fill v xs = xs.
Proof.
  induction xs as [| [x |] xs IH]; simpl; intros H; try discriminate.
  - reflexivity.
  - rewrite IH by assumption. reflexivity.
Qed.

Lemma no_missing_fill A (v : A) xs : existsb is_missing (fill v xs) = false.
Proof. induction xs as [| [x |] xs IH]; simpl; auto. Qed.

Lemma no_missing_const A B (t : B) (xs : list A) :
  existsb is_missing (map (fun _ => Some t) xs) = false.
Proof. induction xs; simpl; auto. Qed.

(** [fillna] with any value changes nothing in a column without missing
    entries. *)
Lemma fillna_no_missing v s : Series_has_missing s = false -> fillna v s = s.
Proof.
  destruct v, s; simpl; intros H; try reflexivity.
  - rewrite fill_no_missing by assumption. reflexivity.
  - rewrite H. reflexivity.
  - rewrite fill_no_missing by assumption. reflexivity.
Qed.

Lemma settles_fill_with_mean : settles fill_with_mean.
Proof.
  intros s s'. unfold fill_with_mean. destruct s as [xs | xs]; simpl.
  - intros H. inversion H; subst s'; clear H.
    destruct (mean_of (present xs)) as [m |] eqn:E; simpl.
    + destruct (mean_of (present (fill m xs))) as [m' |]; simpl;
        [rewrite fill_fill |]; reflexivity.
    + rewrite E. reflexivity.
  - destruct (present xs) eqn:E; simpl; intros H; inversion H; subst s'.
    simpl. rewrite E. reflexivity.
Qed.

Lemma settles_fill_with_mode : settles fill_with_mode.
Proof.
  intros s s'. unfold fill_with_mode. intros H. inversion H; subst s'; clear H.
  f_equal.
  destruct (Series_has_missing s) eqn:Hm.
  - destruct s as [xs | xs]; simpl in *.
    + destruct (mode_num xs) as [| q ?]; simpl.
      * rewrite Hm. simpl.
        destruct (mode_str (map (fun _ => Some "Unknown") xs)); simpl;
          rewrite fill_no_missing; auto using no_missing_const.
      * apply fillna_no_missing. simpl. apply no_missing_fill.
    + destruct (mode_str xs) as [| t ?]; simpl;
        apply fillna_no_missing; simpl; apply no_missing_fill.
  - rewrite (fillna_no_missing _ s Hm). apply fillna_no_missing. assumption.
Qed.

Lemma cleaning_steps_settle :
  NoDup (map fst cleaning_steps) /\
  Forall (fun st => settles (snd st)) cleaning_steps.
Proof.
  split.
  - unfold cleaning_steps, numeric_cols, categorical_cols. simpl.
    repeat constructor; simpl; intuition discriminate.
  - unfold cleaning_steps, numeric_cols, categorical_cols. simpl.
    repeat constructor; simpl;
      auto using settles_fill_with_mean, settles_fill_with_mode.
Qed.

(** A run of turns none of which finds anything to fill leaves the table
    as it is. *)
Lemma run_steps_nothing_to_fill steps : forall df,
  (forall col f s, In (col, f) steps -> column df col = Some s ->
                   f s = Ok s \/ exists e, f s = Raise e) ->
  snd (run_steps steps df) = df.
Proof.
  induction steps as [| [col f] rest IH]; intros df H; simpl; [reflexivity |].
  destruct (clean_column_on f col df) as [df1 | e] eqn:E; simpl; [| reflexivity].
  assert (df1 = df) as ->.
  { unfold clean_column_on in E.
    destruct (column df col) as [s |] eqn:Ec; [| inversion E; reflexivity].
    destruct (H col f s (or_introl eq_refl) Ec) as [Hs | [e Hs]];
      rewrite Hs in E; simpl in E; inversion E.
    apply set_column_id. assumption. }
  apply IH. intros col' f' s Hin. apply H. right. assumption.
Qed.

Lemma fill_with_mean_no_missing s :
  Series_has_missing s = false ->
  fill_with_mean s = Ok s \/ exists e, fill_with_mean s = Raise e.
Proof.
  intros H. unfold fill_with_mean. destruct s as [xs | xs]; simpl.
  - left. f_equal. apply fillna_no_missing. assumption.
  - destruct (present xs); simpl; eauto.
Qed.

(** C5.  Cleaning is idempotent: cleaning what a cleaning left behind ends
    the same way and leaves the same dataset; and a table whose declared
    columns have no missing entry is left unchanged by cleaning. *)
Theorem cleaning_is_idempotent :
  (forall self : Processor,
     _clean_data (snd (_clean_data self)) = _clean_data self) /\
  (forall (self : Processor) (df : DataFrame),
     data self = Some df -> no_missing_declared df ->
     snd (_clean_data self) = self).
Proof.
  split.
  - intros [[df |] cn bn]; [| reflexivity].
    rewrite clean_data_run. cbn [snd]. rewrite clean_data_run.
    destruct cleaning_steps_settle as [Hnd Hall].
    rewrite (run_steps_settled cleaning_steps Hnd Hall df). reflexivity.
  - intros [d cn bn] df Hd Hclean. simpl in Hd. subst d.
    rewrite clean_data_run. cbn [snd].
    rewrite run_steps_nothing_to_fill; [reflexivity |].
    intros col f s Hin Hcol.
    assert (Hdecl : In col (numeric_cols ++ categorical_cols)).
    { unfold cleaning_steps in Hin. apply in_app_or in Hin. apply in_or_app.
      destruct Hin as [Hin | Hin]; apply in_map_iff in Hin;
        destruct Hin as [c [Hc Hin]]; inversion Hc; subst; auto. }
    specialize (Hclean col s Hdecl Hcol).
    unfold cleaning_steps in Hin. apply in_app_or in Hin.
    destruct Hin as [Hin | Hin]; apply in_map_iff in Hin;
      destruct Hin as [c [Hc Hin]]; inversion Hc; subst.
    + apply fill_with_mean_no_missing. assumption.
    + left. unfold fill_with_mode. f_equal. apply fillna_no_missing. assumption.
Qed.

Lemma sample_table_no_missing : no_missing_declared sample_table.
Proof.
  intros col s Hin. simpl in Hin.
  repeat (destruct Hin as [<- | Hin]; [intros H; inversion H; reflexivity |]).
  contradiction.
Qed.

Lemma cleaning_is_idempotent_witness :
  _clean_data (snd (_clean_data (holding sample_raw)))
  = _clean_data (holding sample_raw) /\
  snd (_clean_data (holding sample_table)) = holding sample_table.
Proof.
  split.
  - apply (proj1 cleaning_is_idempotent).
  - apply (proj2 cleaning_is_idempotent _ sample_table);
      [reflexivity | exact sample_table_no_missing].
Defined.

(* ================================================================= *)
(** ** Counting, distinct values and stable sorting *)

Section CountingFacts.
Variable A : Type.
Variable eqb : A -> A -> bool.
Hypothesis eqb_refl : forall x, eqb x x = true.
Hypothesis eqb_sym : forall x y, eqb x y = true -> eqb y x = true.
Hypothesis eqb_trans : forall x y z, eqb x y = true -> eqb y z = true -> eqb x z = true.

Lemma eqb_congr x y z : eqb x y = true -> eqb x z = eqb y z.
Proof.
  intros H. destruct (eqb y z) eqn:E.
  - eapply eqb_trans; eassumption.
  - destruct (eqb x z) eqn:E'; [| reflexivity].
    rewrite <- E. symmetry. eapply eqb_trans; [apply eqb_sym |]; eassumption.
Qed.

Lemma count_congr x y l : eqb x y = true -> count eqb x l = count eqb y l.
Proof.
  intros H. induction l as [| z l IH]; simpl; [reflexivity |].
  rewrite (eqb_congr x y z H), IH. reflexivity.
Qed.

Lemma count_pos_in x l : 0 < count eqb x l -> exists y, In y l /\ eqb x y = true.
Proof.
  induction l as [| z l IH]; simpl; [lia |].
  destruct (eqb x z) eqn:E.
  - intros _. exists z. auto.
  - intros H. destruct (IH H) as [y [Hy Hxy]]. exists y. auto.
Qed.

Lemma count_in_pos x l : In x l -> 0 < count eqb x l.
Proof.
  induction l as [| z l IH]; simpl; [contradiction |].
  intros [-> | H]; [rewrite eqb_refl; lia |].
  specialize (IH H). lia.
Qed.

Lemma fold_max_ge (g : A -> nat) l x :
  In x l -> g x <= fold_right (fun y m => Nat.max (g y) m) 0 l.
Proof.
  induction l as [| z l IH]; simpl; [contradiction |].
  intros [-> | H]; [lia |]. specialize (IH H). lia.
Qed.

Lemma fold_max_attained (g : A -> nat) l :
  l <> [] -> exists x, In x l /\ g x = fold_right (fun y m => Nat.max (g y) m) 0 l.
Proof.
  induction l as [| z l IH]; [congruence |]. intros _.
  destruct l as [| z' l'].
  - exists z. simpl. split; [auto | lia].
  - destruct IH as [x [Hx Hgx]]; [discriminate |].
    remember (z' :: l') as l eqn:El. simpl.
    destruct (Nat.le_ge_cases (g z) (g x)) as [Hle | Hge].
    + exists x. split; [auto | lia].
    + exists z. split; [auto | lia].
Qed.

(** No value occurs more often than [max_count] says, and some value of a
    list that is not empty occurs that often. *)
Lemma count_le_max x l : count eqb x l <= max_count eqb l.
Proof.
  destruct (count eqb x l) as [| n] eqn:E; [lia |].
  destruct (count_pos_in x l) as [y [Hy Hxy]]; [lia |].
  rewrite <- E, (count_congr x y l Hxy).
  unfold max_count. apply (fold_max_ge (fun y => count eqb y l)). assumption.
Qed.

Lemma max_count_attained l :
  l <> [] -> exists x, In x l /\ count eqb x l = max_count eqb l.
Proof. apply (fold_max_attained (fun y => count eqb y l)). Qed.

Lemma distinct_acc_in seen l x : In x (distinct_acc eqb seen l) -> In x l.
Proof.
  revert seen. induction l as [| z l IH]; intros seen; simpl; [auto |].
  destruct (mem eqb z seen).
  - intros H. right. eapply IH. eassumption.
  - intros [-> | H]; [auto |]. right. eapply IH. eassumption.
Qed.

Lemma distinct_acc_covers l : forall seen x,
  In x l ->
  mem eqb x seen = true \/
  exists y, In y (distinct_acc eqb seen l) /\ eqb x y = true.
Proof.
  induction l as [| z l IH]; intros seen x; simpl; [contradiction |].
  intros [-> | H].
  - destruct (mem eqb x seen) eqn:E; [auto |].
    right. exists x. simpl. auto.
  - destruct (mem eqb z seen) eqn:E.
    + apply IH. assumption.
    + destruct (IH (z :: seen) x H) as [Hm | [y [Hy Hxy]]].
      * simpl in Hm. apply orb_true_iff in Hm. destruct Hm as [Hz | Hm]; [| auto].
        right. exists z. simpl. auto.
      * right. exists y. simpl. auto.
Qed.

Lemma distinct_covers l x :
  In x l -> exists y, In y (distinct eqb l) /\ eqb x y = true.
Proof.
  intros H. destruct (distinct_acc_covers l [] x H) as [Hm | Hy]; [discriminate | exact Hy].
Qed.

Lemma distinct_nonempty l : l <> [] -> distinct eqb l <> [].
Proof. destruct l; [congruence |]. intros _. unfold distinct. simpl. discriminate. Qed.

End CountingFacts.

Section SortingFacts.
Variable A : Type.
Variable before : A -> A -> bool.

Lemma insert_by_perm x l : Permutation (insert_by before x l) (x :: l).
Proof.
  induction l as [| y l IH]; simpl; [reflexivity |].
  destruct (before x y); [reflexivity |].
  rewrite IH. apply perm_swap.
Qed.

Lemma sort_by_perm l : Permutation (sort_by before l) l.
Proof.
  induction l as [| x l IH]; simpl; [reflexivity |].
  rewrite insert_by_perm. constructor. exact IH.
Qed.

Lemma sort_by_in l x : In x (sort_by before l) <-> In x l.
Proof.
  split; apply Permutation_in; [| symmetry]; apply sort_by_perm.
Qed.

Lemma sort_by_nonempty l : l <> [] -> sort_by before l <> [].
Proof.
  intros H E. pose proof (sort_by_perm l) as P. rewrite E in P.
  apply Permutation_nil in P. contradiction.
Qed.

Hypothesis before_total : forall x y, before x y = true \/ before y x = true.
Hypothesis before_trans :
  forall x y z, before x y = true -> before y z = true -> before x z = true.

Lemma insert_by_sorted x l :
  StronglySorted (fun a b => before a b = true) l ->
  StronglySorted (fun a b => before a b = true) (insert_by before x l).
Proof.
  induction 1 as [| y l Hs IH Hall]; simpl.
  - constructor; constructor.
  - destruct (before x y) eqn:E.
    + constructor; [constructor; assumption |].
      constructor; [assumption |].
      eapply Forall_impl; [| exact Hall]. intros z Hz. eapply before_trans; eassumption.
    + constructor; [exact IH |].
      eapply Permutation_Forall; [symmetry; apply insert_by_perm |].
      constructor; [| assumption].
      destruct (before_total x y) as [H | H]; [congruence | exact H].
Qed.

Lemma sort_by_sorted l :
  StronglySorted (fun a b => before a b = true) (sort_by before l).
Proof.
  induction l as [| x l IH]; simpl; [constructor | apply insert_by_sorted; exact IH].
Qed.

(** The first element of the sorted list stands before every element. *)
Lemma sort_by_head l v rest :
  sort_by before l = v :: rest -> forall u, In u l -> before v u = true.
Proof.
  intros E u Hu. apply sort_by_in in Hu. rewrite E in Hu.
  pose proof (sort_by_sorted l) as Hs. rewrite E in Hs.
  inversion Hs as [| ? ? _ Hall]; subst.
  destruct Hu as [<- | Hu].
  - destruct (before_total v v); assumption.
  - rewrite Forall_forall in Hall. apply Hall. assumption.
Qed.

End SortingFacts.

(* ================================================================= *)
(** ** The mode *)

Section ModeFacts.
Variable A : Type.
Variable eqb leb : A -> A -> bool.
Hypothesis eqb_refl : forall x, eqb x x = true.
Hypothesis eqb_sym : forall x y, eqb x y = true -> eqb y x = true.
Hypothesis eqb_trans : forall x y z, eqb x y = true -> eqb y z = true -> eqb x z = true.
Hypothesis leb_total : forall x y, leb x y = true \/ leb y x = true.
Hypothesis leb_trans : forall x y z, leb x y = true -> leb y z = true -> leb x z = true.
Hypothesis leb_congr : forall x y y', eqb y y' = true -> leb x y' = true -> leb x y = true.

Lemma mode_of_nil : mode_of eqb leb [] = [].
Proof. reflexivity. Qed.

(** [mode()[0]] is the least of the most frequent values. *)
Lemma mode_of_head l :
  l <> [] ->
  exists v rest, mode_of eqb leb l = v :: rest /\ least_most_frequent eqb leb l v.
Proof.
  intros Hl. unfold mode_of, sort_asc.
  set (top := filter (fun x => Nat.eqb (count eqb x l) (max_count eqb l)) l).
  assert (Htop : top <> []).
  { destruct (max_count_attained A eqb l Hl) as [x [Hx Hc]].
    intros E. assert (Hin : In x top).
    { apply filter_In. split; [assumption |]. apply Nat.eqb_eq. assumption. }
    rewrite E in Hin. contradiction. }
  destruct (sort_by leb (distinct eqb top)) as [| v rest] eqn:E.
  { exfalso. eapply sort_by_nonempty; [| exact E]. apply distinct_nonempty. assumption. }
  exists v, rest. split; [reflexivity |].
  assert (Hv : In v top).
  { assert (Hd : In v (distinct eqb top)).
    { apply (proj1 (sort_by_in A leb (distinct eqb top) v)). rewrite E. left. reflexivity. }
    apply (distinct_acc_in A eqb [] top v Hd). }
  apply filter_In in Hv. destruct Hv as [Hvl Hvc]. apply Nat.eqb_eq in Hvc.
  split; [assumption |]. split.
  - intros u. rewrite Hvc. apply count_le_max; assumption.
  - intros u Hu Hc.
    assert (Hut : In u top).
    { apply filter_In. split; [assumption |]. apply Nat.eqb_eq. congruence. }
    destruct (distinct_covers A eqb eqb_refl top u Hut) as [y [Hy Huy]].
    apply (leb_congr v u y Huy).
    eapply sort_by_head; eauto.
Qed.

End ModeFacts.

(** The order on strings is transitive. *)
Lemma ascii_compare_refl a : Ascii.compare a a = Eq.
Proof. unfold Ascii.compare. apply N.compare_refl. Qed.

Lemma ascii_compare_lt_trans a b c :
  Ascii.compare a b = Lt -> Ascii.compare b c = Lt -> Ascii.compare a c = Lt.
Proof.
  unfold Ascii.compare. rewrite !N.compare_lt_iff. apply N.lt_trans.
Qed.

Lemma string_compare_trans : forall s1 s2 s3,
  String.compare s1 s2 <> Gt -> String.compare s2 s3 <> Gt ->
  String.compare s1 s3 <> Gt.
Proof.
  induction s1 as [| a s1 IH]; intros [| b s2] [| c s3]; simpl; try congruence.
  destruct (Ascii.compare a b) eqn:E1; destruct (Ascii.compare b c) eqn:E2;
    try congruence.
  - apply Ascii.compare_eq_iff in E1. apply Ascii.compare_eq_iff in E2. subst.
    rewrite ascii_compare_refl. apply IH.
  - apply Ascii.compare_eq_iff in E1. subst. rewrite E2. congruence.
  - apply Ascii.compare_eq_iff in E2. subst. rewrite E1. congruence.
  - rewrite (ascii_compare_lt_trans a b c E1 E2). congruence.
Qed.

Lemma string_leb_trans s1 s2 s3 :
  String.leb s1 s2 = true -> String.leb s2 s3 = true -> String.leb s1 s3 = true.
Proof.
  unfold String.leb. intros H1 H2.
  pose proof (string_compare_trans s1 s2 s3) as H.
  destruct (String.compare s1 s2); destruct (String.compare s2 s3);
    destruct (String.compare s1 s3); try reflexivity; try discriminate;
    exfalso; apply H; congruence.
Qed.

Lemma string_eqb_trans x y z :
  String.eqb x y = true -> String.eqb y z = true -> String.eqb x z = true.
Proof. rewrite !String.eqb_eq. congruence. Qed.

Lemma string_eqb_sym x y : String.eqb x y = true -> String.eqb y x = true.
Proof. rewrite !String.eqb_eq. congruence. Qed.

Lemma string_leb_congr x y y' :
  String.eqb y y' = true -> String.leb x y' = true -> String.leb x y = true.
Proof. rewrite String.eqb_eq. congruence. Qed.

Lemma mode_str_head l :
  l <> [] ->
  exists v rest, mode_of String.eqb String.leb l = v :: rest /\
                 least_most_frequent String.eqb String.leb l v.
Proof.
  apply mode_of_head;
    eauto using String.eqb_refl, string_eqb_sym, string_eqb_trans, String.leb_total,
      string_leb_trans, string_leb_congr.
Qed.

Lemma Qeq_bool_sym x y : Qeq_bool x y = true -> Qeq_bool y x = true.
Proof. rewrite !Qeq_bool_iff. intros H. symmetry. exact H. Qed.

Lemma Qeq_bool_trans x y z :
  Qeq_bool x y = true -> Qeq_bool y z = true -> Qeq_bool x z = true.
Proof. rewrite !Qeq_bool_iff. intros H1 H2. rewrite H1. exact H2. Qed.

Lemma Qle_bool_total x y : Qle_bool x y = true \/ Qle_bool y x = true.
Proof.
  rewrite !Qle_bool_iff. destruct (Qlt_le_dec x y) as [H | H]; [left | right]; auto.
  apply Qlt_le_weak. exact H.
Qed.

Lemma Qle_bool_trans x y z :
  Qle_bool x y = true -> Qle_bool y z = true -> Qle_bool x z = true.
Proof. rewrite !Qle_bool_iff. apply Qle_trans. Qed.

Lemma Qle_bool_congr x y y' :
  Qeq_bool y y' = true -> Qle_bool x y' = true -> Qle_bool x y = true.
Proof. rewrite Qeq_bool_iff, !Qle_bool_iff. intros H1 H2. rewrite H1. exact H2. Qed.

Lemma mode_num_head l :
  l <> [] ->
  exists v rest, mode_of Qeq_bool Qle_bool l = v :: rest /\
                 least_most_frequent Qeq_bool Qle_bool l v.
Proof.
  apply mode_of_head;
    eauto using Qeq_bool_refl, Qeq_bool_sym, Qeq_bool_trans, Qle_bool_total,
      Qle_bool_trans, Qle_bool_congr.
Qed.

(** The fill value [_clean_data] computes for a categorical column. *)
Lemma fill_value_is_categorical_fill s :
  categorical_fill s (fill_value_of (Series_mode s)).
Proof.
  destruct s as [xs | xs]; simpl.
  - unfold mode_num. destruct (present xs) as [| x l] eqn:E; [reflexivity |].
    destruct (mode_num_head (x :: l)) as [v [rest [Hm Hv]]]; [discriminate |].
    rewrite Hm. simpl. exists v. auto.
  - unfold mode_str. destruct (present xs) as [| x l] eqn:E; [reflexivity |].
    destruct (mode_str_head (x :: l)) as [v [rest [Hm Hv]]]; [discriminate |].
    rewrite Hm. simpl. exists v. auto.
Qed.

(** The two mixed cases of [fillna] are out of reach of the cleaning: a
    float64 column whose mode is empty has no value at all, and the mean
    of an object column is never a number. *)
Lemma mode_empty_all_missing xs : Series_mode (Float64 xs) = [] -> present xs = [].
Proof.
  simpl. unfold mode_num. destruct (present xs) as [| x l]; [reflexivity |].
  destruct (mode_num_head (x :: l)) as [v [rest [Hm _]]]; [discriminate |].
  rewrite Hm. discriminate.
Qed.

Lemma mean_object_not_num xs q : Series_mean (Object xs) <> Ok (Some q).
Proof. simpl. destruct (present xs); discriminate. Qed.

(* ================================================================= *)
(** ** What cleaning leaves in each column *)

Lemma clean_column_on_absent f col df df1 col' :
  clean_column_on f col df = Ok df1 -> column df col' = None -> column df1 col' = None.
Proof.
  unfold clean_column_on. destruct (column df col) as [s |] eqn:Ec.
  - destruct (f s) as [s' | e]; simpl; intros H Hn; inversion H.
    rewrite column_set_other; [assumption |]. intros ->. congruence.
  - intros H Hn. inversion H. subst. assumption.
Qed.

Lemma run_steps_absent steps : forall df col',
  column df col' = None -> column (snd (run_steps steps df)) col' = None.
Proof.
  induction steps as [| [col f] rest IH]; intros df col' Hn; simpl; [assumption |].
  destruct (clean_column_on f col df) as [df1 | e] eqn:E; simpl; [| assumption].
  apply IH. eapply clean_column_on_absent; eassumption.
Qed.

(** After a run that did not raise, a column holds what its own turn made of
    it. *)
Lemma run_steps_column steps : forall df col f s,
  NoDup (map fst steps) ->
  fst (run_steps steps df) = Ok tt ->
  In (col, f) steps -> column df col = Some s ->
  exists s', f s = Ok s' /\ column (snd (run_steps steps df)) col = Some s'.
Proof.
  induction steps as [| [c0 f0] rest IH]; intros df col f s Hnd Hok Hin Hcol;
    simpl in *; [contradiction |].
  inversion Hnd as [| ? ? Hnotin Hnd']; subst.
  destruct (clean_column_on f0 c0 df) as [df1 | e] eqn:E; simpl in Hok;
    [| discriminate].
  destruct Hin as [Heq | Hin].
  - inversion Heq; subst c0 f0. unfold clean_column_on in E. rewrite Hcol in E.
    destruct (f s) as [s' | e]; simpl in E; inversion E. subst df1.
    exists s'. split; [reflexivity |].
    rewrite (run_steps_other rest _ col Hnotin). apply column_set_same.
  - assert (Hne : c0 <> col).
    { intros ->. apply Hnotin. apply in_map_iff. exists (col, f). auto. }
    apply IH; try assumption.
    rewrite (clean_column_on_other f0 c0 col df df1 Hne E). assumption.
Qed.

Lemma present_nil_fill A (t : A) xs :
  present xs = [] -> map (fun _ : option A => Some t) xs = fill t xs.
Proof.
  induction xs as [| [x |] xs IH]; simpl; intros H; try discriminate.
  - reflexivity.
  - rewrite IH by assumption. reflexivity.
Qed.

(** The turn of a categorical column replaces each missing entry by the
    fill value and keeps the others. *)
Lemma fillna_categorical s v :
  categorical_fill s v ->
  v <> SNaN /\ Series_cells (fillna v s) = filled_cells v s.
Proof.
  unfold filled_cells. destruct s as [xs | xs]; simpl.
  - destruct (present xs) as [| x l] eqn:E.
    + intros ->. split; [discriminate |]. simpl.
      destruct (existsb is_missing xs) eqn:Em; simpl.
      * clear Em. induction xs as [| [q |] xs IH]; simpl in *; try discriminate.
        -- reflexivity.
        -- f_equal. apply IH. assumption.
      * clear E. induction xs as [| [q |] xs IH]; simpl in *; try discriminate.
        -- reflexivity.
        -- f_equal. apply IH. assumption.
    + intros [q [-> _]]. split; [discriminate |]. simpl. unfold fill.
      rewrite !map_map. apply map_ext. intros [y |]; reflexivity.
  - intros H. assert (exists t, v = SStr t) as [t ->].
    { destruct (present xs); [eauto | destruct H as [t [-> _]]; eauto]. }
    split; [discriminate |]. simpl. unfold fill.
    rewrite !map_map. apply map_ext. intros [y |]; reflexivity.
Qed.

Lemma filled_cells_no_missing v s s' :
  v <> SNaN -> Series_cells s' = filled_cells v s -> Series_has_missing s' = false.
Proof.
  intros Hv H.
  assert (Hall : Forall (fun c => c <> SNaN) (Series_cells s')).
  { rewrite H. unfold filled_cells. apply Forall_forall. intros c Hc.
    apply in_map_iff in Hc. destruct Hc as [c0 [<- _]]. destruct c0; congruence. }
  clear H. destruct s' as [xs | xs]; simpl in *.
  - induction xs as [| [q |] xs IH]; simpl in *; auto.
    + apply IH. inversion Hall; assumption.
    + inversion Hall; congruence.
  - induction xs as [| [q |] xs IH]; simpl in *; auto.
    + apply IH. inversion Hall; assumption.
    + inversion Hall; congruence.
Qed.

Lemma mean_of_spec l m :
  mean_of l = Some m ->
  l <> [] /\ (m == Qsum l / inject_Z (Z.of_nat (length l)))%Q.
Proof.
  destruct l as [| x l]; [discriminate |].
  unfold mean_of.
  generalize (Qsum (x :: l) / inject_Z (Z.of_nat (length (x :: l))))%Q.
  intros q H. assert (Hm : m = Qred q) by congruence. subst m.
  split; [discriminate |]. apply Qred_correct.
Qed.

(** C1 (as amended).  When cleaning succeeds: a column the table lacks stays
    absent; in a declared numeric column that has at least one value each
    missing entry is replaced by the arithmetic mean of the values present
    before filling, and none is missing afterwards; in a declared categorical
    column each missing entry is replaced by the least (in text or numeric
    order) of the column's most frequent values, or by "Unknown" when the
    column has no value, and none is missing afterwards. *)
Theorem cleaning_fills_missing :
  forall (self : Processor) (df df' : DataFrame),
    data self = Some df ->
    fst (_clean_data self) = Ok tt ->
    data (snd (_clean_data self)) = Some df' ->
    (index_len df' = index_len df /\
     forall col, column df col = None -> column df' col = None) /\
    (forall col xs m,
        In col numeric_cols -> column df col = Some (Float64 xs) ->
        mean_of (present xs) = Some m ->
        (m == Qsum (present xs) / inject_Z (Z.of_nat (length (present xs))))%Q /\
        column df' col = Some (Float64 (fill m xs)) /\
        Series_has_missing (Float64 (fill m xs)) = false) /\
    (forall col s,
        In col categorical_cols -> column df col = Some s ->
        exists v s',
          categorical_fill s v /\
          column df' col = Some s' /\
          Series_cells s' = filled_cells v s /\
          Series_has_missing s' = false).
Proof.
  intros [d cn bn] df df' Hd Hok Hdf'. simpl in Hd. subst d.
  rewrite clean_data_run in Hok, Hdf'. cbn [fst snd data] in Hok, Hdf'.
  assert (Hdf : df' = snd (run_steps cleaning_steps df)) by congruence.
  subst df'. clear Hdf'.
  destruct cleaning_steps_settle as [Hnd _].
  split; [split |]; [| | split].
  - apply run_steps_index.
  - intros col. apply run_steps_absent.
  - intros col xs m Hin Hcol Hm.
    destruct (run_steps_column cleaning_steps df col fill_with_mean (Float64 xs) Hnd Hok)
      as [s' [Hs' Hc]]; [| assumption |].
    { unfold cleaning_steps. apply in_or_app. left.
      apply in_map_iff. exists col. auto. }
    unfold fill_with_mean in Hs'. simpl in Hs'. rewrite Hm in Hs'. simpl in Hs'.
    inversion Hs'. subst s'.
    split; [apply (mean_of_spec _ _ Hm) |]. split; [exact Hc |].
    simpl. apply no_missing_fill.
  - intros col s Hin Hcol.
    destruct (run_steps_column cleaning_steps df col fill_with_mode s Hnd Hok)
      as [s' [Hs' Hc]]; [| assumption |].
    { unfold cleaning_steps. apply in_or_app. right.
      apply in_map_iff. exists col. auto. }
    unfold fill_with_mode in Hs'. inversion Hs'. subst s'.
    pose proof (fill_value_is_categorical_fill s) as Hfill.
    destruct (fillna_categorical s _ Hfill) as [Hv Hcells].
    exists (fill_value_of (Series_mode s)), (fillna (fill_value_of (Series_mode s)) s).
    repeat split; try assumption.
    eapply filled_cells_no_missing; eassumption.
Qed.

Lemma cleaning_fills_missing_witness :
  column (snd (run_steps cleaning_steps sample_raw)) "Protein(g)"
  = Some (Float64 (fill (15 # 2)%Q [Some 10%Q; None; Some 5%Q])).
Proof.
  destruct (cleaning_fills_missing (holding sample_raw) sample_raw
              (snd (run_steps cleaning_steps sample_raw))
              eq_refl eq_refl eq_refl) as [_ [Hnum _]].
  apply (Hnum "Protein(g)" [Some 10%Q; None; Some 5%Q] (15 # 2)%Q).
  - simpl. auto.
  - reflexivity.
  - reflexivity.
Defined.

(** C1 as stated fails: of two equally frequent diet types the code fills
    in "keto", the least in text order, where the first met is "vegan"; and
    a numeric column without any value keeps its missing entries. *)
Lemma cleaning_tie_counterexample :
  _clean_data (holding tie_raw) = (Ok tt, holding tie_cleaned) /\
  first_most_frequent (present [Some "vegan"; Some "keto"; None]) = Some "vegan" /\
  column tie_cleaned "Diet_type"
  = Some (Object [Some "vegan"; Some "keto"; Some "keto"]) /\
  option_map Series_has_missing (column tie_cleaned "Protein(g)") = Some true.
Proof. repeat split; reflexivity. Qed.

(* ================================================================= *)
(** ** Loading *)

Lemma load_data_from_content_total read_csv content self :
  exists b, fst (load_data_from_content read_csv content self) = Ok b.
Proof.
  unfold load_data_from_content, try_except, bind, lift, ret, set_data.
  destruct (read_csv content) as [df | e]; cbn iota beta;
    [| eexists; reflexivity].
  destruct (_clean_data _) as [[[] | e] self2]; eexists; reflexivity.
Qed.

Lemma load_data_from_blob_total read_csv download name self :
  exists b, fst (load_data_from_blob read_csv download name self) = Ok b.
Proof.
  unfold load_data_from_blob, try_except, bind, lift, ret, set_data.
  destruct (download _ _) as [blob_data | e]; cbn iota beta;
    [| destruct e; eexists; reflexivity].
  destruct (read_csv blob_data) as [df | e]; cbn iota beta;
    [| destruct e; eexists; reflexivity].
  destruct (_clean_data _) as [[[] | e] self2]; [| destruct e];
    eexists; reflexivity.
Qed.

(** X16.  A load never raises.  When the blob cannot be downloaded or the
    content cannot be parsed, it returns [False] and leaves the processor
    exactly as it was, with the dataset it held before, if any; on a
    processor without dataset every query after such a failure returns its
    empty result. *)
Theorem load_failure_keeps_state :
  forall (read_csv : string -> outcome DataFrame)
         (download : string -> string -> outcome string)
         (content : string) (name : option string) (self : Processor),
    (exists b, fst (load_data_from_content read_csv content self) = Ok b) /\
    (exists b, fst (load_data_from_blob read_csv download name self) = Ok b) /\
    (forall e, read_csv content = Raise e ->
       load_data_from_content read_csv content self = (Ok false, self)) /\
    (forall e,
       download (container_name self) (blob_name_or name (blob_name self)) = Raise e ->
       load_data_from_blob read_csv download name self = (Ok false, self)) /\
    (forall blob_data e,
       download (container_name self) (blob_name_or name (blob_name self))
       = Ok blob_data ->
       read_csv blob_data = Raise e ->
       load_data_from_blob read_csv download name self = (Ok false, self)) /\
    (forall e re_beyond argsort q,
       data self = None -> read_csv content = Raise e ->
       fst (run_query re_beyond argsort q
              (snd (load_data_from_content read_csv content self)))
       = Ok (empty_answer q)).
Proof.
  intros read_csv download content name self.
  split; [apply load_data_from_content_total |].
  split; [apply load_data_from_blob_total |].
  assert (Hc : forall e, read_csv content = Raise e ->
               load_data_from_content read_csv content self = (Ok false, self)).
  { intros e H. unfold load_data_from_content, try_except, bind, lift, ret.
    rewrite H. reflexivity. }
  split; [exact Hc |]. split; [| split].
  - intros e H. unfold load_data_from_blob, try_except, bind, lift, ret.
    rewrite H. destruct e; reflexivity.
  - intros blob_data e Hd H. unfold load_data_from_blob, try_except, bind, lift, ret.
    rewrite Hd, H. destruct e; reflexivity.
  - intros e re_beyond argsort q Hnone H. rewrite (Hc e H). cbn [snd].
    destruct self as [d cn bn]. simpl in Hnone. subst d.
    apply queries_without_dataset_at.
Qed.

Lemma load_failure_keeps_state_witness :
  load_data_from_content read_one_csv "" fresh = (Ok false, fresh) /\
  load_data_from_blob read_one_csv empty_store None fresh = (Ok false, fresh).
Proof.
  destruct (load_failure_keeps_state read_one_csv empty_store "" None fresh)
    as [_ [_ [Hc [Hb _]]]].
  split.
  - apply (Hc OtherError). reflexivity.
  - apply (Hb ResourceNotFoundError). reflexivity.
Defined.

(** What a load leaves behind when the parsed table cannot be cleaned. *)
Lemma load_content_unclean read_csv content self df e :
  read_csv content = Ok df ->
  fst (_clean_data (holding df)) = Raise e ->
  load_data_from_content read_csv content self
  = (Ok false,
     mkProcessor (Some (snd (run_steps cleaning_steps df)))
       (container_name self) (blob_name self)).
Proof.
  intros Hread Hclean. destruct self as [d cn bn].
  unfold holding in Hclean. rewrite clean_data_run in Hclean. cbn [fst] in Hclean.
  unfold load_data_from_content, try_except, bind, lift, ret, set_data.
  rewrite Hread. cbn iota beta. cbn [container_name blob_name].
  rewrite clean_data_run, Hclean. reflexivity.
Qed.

Lemma load_blob_unclean read_csv download name self blob_data df e :
  download (container_name self) (blob_name_or name (blob_name self)) = Ok blob_data ->
  read_csv blob_data = Ok df ->
  fst (_clean_data (holding df)) = Raise e ->
  load_data_from_blob read_csv download name self
  = (Ok false,
     mkProcessor (Some (snd (run_steps cleaning_steps df)))
       (container_name self) (blob_name self)).
Proof.
  intros Hdown Hread Hclean. destruct self as [d cn bn].
  unfold holding in Hclean. rewrite clean_data_run in Hclean. cbn [fst] in Hclean.
  unfold load_data_from_blob, try_except, bind, lift, ret, set_data.
  cbn [container_name blob_name] in Hdown |- *.
  rewrite Hdown. cbn iota beta. rewrite Hread. cbn iota beta.
  rewrite clean_data_run, Hclean. destruct e; reflexivity.
Qed.

(** C4.  The code breaks the claim by a slip: [self.data] is assigned
    before [_clean_data] runs, inside the [try] block.  When the content
    parses but cleaning raises, the load returns [False] and yet the parsed
    table, with all its rows, stays in the processor, in place of whatever
    it held before; the summary that follows is not the empty one.  The
    same holds for a load from the blob store. *)
Theorem load_failure_installs_table :
  forall (read_csv : string -> outcome DataFrame)
         (download : string -> string -> outcome string)
         (content : string) (name : option string) (self : Processor)
         (df : DataFrame) (e : exn),
    fst (_clean_data (holding df)) = Raise e ->
    (read_csv content = Ok df ->
     let after := snd (load_data_from_content read_csv content self) in
     fst (load_data_from_content read_csv content self) = Ok false /\
     (exists df', data after = Some df' /\ index_len df' = index_len df) /\
     forall re_beyond argsort,
       fst (run_query re_beyond argsort Summary after) <> Ok (empty_answer Summary)) /\
    (forall blob_data,
       download (container_name self) (blob_name_or name (blob_name self))
       = Ok blob_data ->
       read_csv blob_data = Ok df ->
       let after := snd (load_data_from_blob read_csv download name self) in
       fst (load_data_from_blob read_csv download name self) = Ok false /\
       (exists df', data after = Some df' /\ index_len df' = index_len df) /\
       forall re_beyond argsort,
         fst (run_query re_beyond argsort Summary after) <> Ok (empty_answer Summary)).
Proof.
  intros read_csv download content name self df e Hclean. split.
  - intros Hread after. subst after.
    rewrite (load_content_unclean read_csv content self df e Hread Hclean).
    cbn [fst snd data]. split; [reflexivity |]. split.
    + eexists. split; [reflexivity | apply run_steps_index].
    + intros re_beyond argsort. discriminate.
  - intros blob_data Hdown Hread after. subst after.
    rewrite (load_blob_unclean read_csv download name self blob_data df e
               Hdown Hread Hclean).
    cbn [fst snd data]. split; [reflexivity |]. split.
    + eexists. split; [reflexivity | apply run_steps_index].
    + intros re_beyond argsort. discriminate.
Qed.

(** The failing input: the protein column of the file holds text, so the
    mean that cleaning starts with raises.  The load returns [False], the
    two recipes are installed uncleaned, and the summary reports them. *)
Lemma load_failure_installs_table_witness :
  load_data_from_content read_one_csv text_protein_csv fresh
  = (Ok false, holding text_protein) /\
  fst (_clean_data (holding text_protein)) = Raise TypeError /\
  fst (get_diet_summary (holding text_protein))
  = Ok (Some (mkSummary 2 1 0 [SStr "vegan"; SNaN] (SStr "vegan") (SStr "Unknown"))) /\
  fst (run_query no_extension stable_argsort Summary
         (snd (load_data_from_content read_one_csv text_protein_csv fresh)))
  <> Ok (empty_answer Summary).
Proof.
  split; [reflexivity |]. split; [reflexivity |]. split; [reflexivity |].
  apply (proj1 (load_failure_installs_table read_one_csv empty_store text_protein_csv
                  None fresh text_protein TypeError eq_refl) eq_refl).
Defined.

(* ================================================================= *)
(** ** Rows of a selection *)

Lemma lookup_map_snd A B (g : A -> B) col (l : list (string * A)) :
  lookup col (map (fun c => (fst c, g (snd c))) l) = option_map g (lookup col l).
Proof.
  induction l as [| [k v] l IH]; simpl; [reflexivity |].
  destruct (String.eqb col k); [reflexivity | exact IH].
Qed.

Lemma column_take df idxs col :
  column (take df idxs) col = option_map (Series_take idxs) (column df col).
Proof. unfold column, take. simpl. apply lookup_map_snd. Qed.

Lemma nth_map_default A B (g : A -> B) (l : list A) (d : A) (d' : B) i :
  g d = d' -> nth i (map g l) d' = g (nth i l d).
Proof. intros <-. apply map_nth. Qed.

Lemma Series_at_float xs i : Series_at (Float64 xs) i = scalar_of_float (nth i xs None).
Proof. unfold Series_at. simpl. apply nth_map_default. reflexivity. Qed.

Lemma Series_at_take idxs s k :
  k < length idxs -> Series_at (Series_take idxs s) k = Series_at s (nth k idxs 0).
Proof.
  intros Hk. unfold Series_at. destruct s as [xs | xs]; simpl.
  - rewrite !(nth_map_default _ _ scalar_of_float _ None SNaN) by reflexivity.
    f_equal. rewrite (nth_indep _ None (nth 0 xs None)) by (rewrite length_map; exact Hk).
    apply (map_nth (fun i => nth i xs None)).
  - set (g := fun c : option string => match c with Some t => SStr t | None => SNaN end).
    rewrite !(nth_map_default _ _ g _ None SNaN) by reflexivity.
    f_equal. rewrite (nth_indep _ None (nth 0 xs None)) by (rewrite length_map; exact Hk).
    apply (map_nth (fun i => nth i xs None)).
Qed.

Lemma row_get_take df idxs k col default :
  k < length idxs ->
  row_get (take df idxs) k col default = row_get df (nth k idxs 0) col default.
Proof.
  intros Hk. unfold row_get. rewrite column_take.
  destruct (column df col) as [s |]; simpl; [| reflexivity].
  apply Series_at_take. exact Hk.
Qed.

(** Visiting the rows of a selection is visiting the selected rows. *)
Lemma omap_ext_in A B (f g : A -> outcome B) l :
  (forall x, In x l -> f x = g x) -> omap f l = omap g l.
Proof.
  induction l as [| x l IH]; simpl; intros H; [reflexivity |].
  rewrite (H x) by auto. rewrite IH by auto. reflexivity.
Qed.

Lemma omap_ok A B (g : A -> B) l : omap (fun x => Ok (g x)) l = Ok (map g l).
Proof. induction l as [| x l IH]; simpl; [| rewrite IH]; reflexivity. Qed.

Lemma omap_map A B C (h : A -> B) (f : B -> outcome C) l :
  omap f (map h l) = omap (fun x => f (h x)) l.
Proof. induction l as [| x l IH]; simpl; [| rewrite IH]; reflexivity. Qed.

Lemma map_nth_seq (idxs : list nat) :
  map (fun k => nth k idxs 0) (seq 0 (length idxs)) = idxs.
Proof.
  apply nth_ext with (d := 0) (d' := 0).
  - rewrite length_map, length_seq. reflexivity.
  - intros k Hk. rewrite length_map, length_seq in Hk.
    rewrite (nth_indep _ 0 (nth 0 idxs 0)) by (rewrite length_map, length_seq; exact Hk).
    rewrite (map_nth (fun k => nth k idxs 0)). rewrite seq_nth by exact Hk. reflexivity.
Qed.

Lemma omap_iterrows_take A df idxs (f : DataFrame -> nat -> outcome A)
  (g : nat -> outcome A) :
  (forall k, k < length idxs -> f (take df idxs) k = g (nth k idxs 0)) ->
  omap (f (take df idxs)) (iterrows (take df idxs)) = omap g idxs.
Proof.
  intros H. unfold iterrows. simpl index_len.
  rewrite <- (map_nth_seq idxs) at 3. rewrite omap_map.
  apply omap_ext_in. intros k Hk. apply in_seq in Hk. apply H. lia.
Qed.

(* ================================================================= *)
(** ** The order of [nlargest] *)

Lemma StronglySorted_app A (R : A -> A -> Prop) l1 l2 :
  StronglySorted R l1 -> StronglySorted R l2 ->
  (forall a b, In a l1 -> In b l2 -> R a b) ->
  StronglySorted R (l1 ++ l2).
Proof.
  induction 1 as [| x l1 Hs IH Hall]; intros H2 Hcross; simpl; [assumption |].
  constructor.
  - apply IH; [assumption |]. intros a b Ha Hb. apply Hcross; simpl; auto.
  - apply Forall_app. split; [assumption |].
    apply Forall_forall. intros b Hb. apply Hcross; simpl; auto.
Qed.

Lemma StronglySorted_map A B (g : A -> B) (R : A -> A -> Prop) (R' : B -> B -> Prop) l :
  (forall a b, In a l -> In b l -> R a b -> R' (g a) (g b)) ->
  StronglySorted R l -> StronglySorted R' (map g l).
Proof.
  intros Hg Hs. induction Hs as [| x l Hs IH Hall]; simpl; [constructor |].
  constructor.
  - apply IH. intros a b Ha Hb. apply Hg; simpl; auto.
  - apply Forall_forall. intros b Hb. apply in_map_iff in Hb.
    destruct Hb as [a [<- Ha]]. apply Hg; simpl; auto.
    rewrite Forall_forall in Hall. apply Hall. assumption.
Qed.

(** Inserting a row that stood before all the rows of a ranked list keeps
    the list ranked. *)
Lemma insert_desc_ranked (p : nat * Q) l :
  Forall (fun z => fst p < fst z) l ->
  StronglySorted pair_ranks_before l ->
  StronglySorted pair_ranks_before
    (insert_by (fun a b => Qle_bool (snd b) (snd a)) p l).
Proof.
  intros Hlt Hs. induction Hs as [| h l Hs IH Hall]; simpl.
  - constructor; constructor.
  - inversion Hlt as [| ? ? Hh Hlt']; subst.
    destruct (Qle_bool (snd h) (snd p)) eqn:E.
    + apply Qle_bool_iff in E.
      assert (Hph : pair_ranks_before p h).
      { unfold pair_ranks_before. apply Qle_lteq in E. destruct E as [E | E]; [auto |].
        right. split; [symmetry; exact E | exact Hh]. }
      constructor; [constructor; assumption |].
      constructor; [exact Hph |].
      rewrite Forall_forall in Hall, Hlt' |- *. intros z Hz.
      specialize (Hall z Hz). specialize (Hlt' z Hz).
      unfold pair_ranks_before in *.
      assert (Hzh : (snd z <= snd h)%Q).
      { destruct Hall as [H | [H _]]; [apply Qlt_le_weak; exact H | rewrite H; apply Qle_refl]. }
      assert (Hzp : (snd z <= snd p)%Q) by (eapply Qle_trans; eassumption).
      apply Qle_lteq in Hzp. destruct Hzp as [H | H]; [auto |].
      right. split; [symmetry; exact H | exact Hlt'].
    + constructor; [apply IH; assumption |].
      eapply Permutation_Forall; [symmetry; apply insert_by_perm |].
      constructor; [| exact Hall].
      unfold pair_ranks_before. left.
      apply Qnot_le_lt. intros H. apply Qle_bool_iff in H. congruence.
Qed.

Lemma sort_desc_ranked (l : list (nat * Q)) :
  StronglySorted (fun a b => fst a < fst b) l ->
  StronglySorted pair_ranks_before
    (sort_desc (fun a b => Qle_bool (snd a) (snd b)) l).
Proof.
  unfold sort_desc. induction 1 as [| p l Hs IH Hall]; simpl; [constructor |].
  apply insert_desc_ranked; [| exact IH].
  eapply Permutation_Forall; [symmetry; apply sort_by_perm | exact Hall].
Qed.

Lemma enumerate_from_fst A (xs : list A) : forall i,
  map fst (enumerate_from i xs) = seq i (length xs).
Proof. induction xs as [| x xs IH]; intros i; simpl; [| rewrite IH]; reflexivity. Qed.

Lemma enumerate_from_nth A (xs : list A) (d : A) : forall i j x,
  In (j, x) (enumerate_from i xs) -> i <= j /\ nth (j - i) xs d = x /\ j - i < length xs.
Proof.
  induction xs as [| y xs IH]; intros i j x; simpl; [contradiction |].
  intros [H | H].
  - inversion H; subst. rewrite Nat.sub_diag. repeat split; [lia | lia].
  - destruct (IH (S i) j x H) as [Hle [Hn Hlen]].
    replace (j - i) with (S (j - S i)) by lia. repeat split; [lia | exact Hn | lia].
Qed.

Lemma enumerate_from_increasing A (xs : list A) : forall i,
  StronglySorted (fun a b => fst a < fst b) (enumerate_from i xs).
Proof.
  induction xs as [| y xs IH]; intros i; simpl; constructor; [apply IH |].
  apply Forall_forall. intros [j x] Hin. simpl.
  destruct (enumerate_from_nth A xs y (S i) j x Hin) as [Hle _]. lia.
Qed.

Lemma valued_in l i q : In (i, q) (valued l) <-> In (i, Some q) l.
Proof.
  induction l as [| [j [y |]] l IH]; simpl; [tauto | |].
  - rewrite IH. split; intros [H | H]; auto; left; congruence.
  - rewrite IH. split; [auto |]. intros [H | H]; [discriminate | exact H].
Qed.

Lemma unvalued_in l i : In i (unvalued l) <-> In (i, None) l.
Proof.
  induction l as [| [j [y |]] l IH]; simpl; [tauto | |].
  - rewrite IH. split; [auto |]. intros [H | H]; [discriminate | exact H].
  - rewrite IH. split; intros [H | H]; auto; left; congruence.
Qed.

Lemma valued_increasing l :
  StronglySorted (fun a b : nat * option Q => fst a < fst b) l ->
  StronglySorted (fun a b : nat * Q => fst a < fst b) (valued l).
Proof.
  induction 1 as [| [j [y |]] l Hs IH Hall]; simpl; [constructor | | exact IH].
  constructor; [exact IH |].
  apply Forall_forall. intros [i q] Hin. apply valued_in in Hin.
  rewrite Forall_forall in Hall. apply (Hall _ Hin).
Qed.

Lemma unvalued_increasing l :
  StronglySorted (fun a b : nat * option Q => fst a < fst b) l ->
  StronglySorted lt (unvalued l).
Proof.
  induction 1 as [| [j [y |]] l Hs IH Hall]; simpl; [constructor | exact IH |].
  constructor; [exact IH |].
  apply Forall_forall. intros i Hin. apply unvalued_in in Hin.
  rewrite Forall_forall in Hall. apply (Hall _ Hin).
Qed.

Lemma valued_unvalued_perm l :
  Permutation (map fst (valued l) ++ unvalued l) (map fst l).
Proof.
  induction l as [| [j [y |]] l IH]; simpl; [constructor | |].
  - constructor. exact IH.
  - rewrite <- Permutation_middle. constructor. exact IH.
Qed.

(** [nlargest] ranks every row once. *)
Lemma nlargest_order_perm xs :
  Permutation (nlargest_order xs) (seq 0 (length xs)).
Proof.
  unfold nlargest_order, sort_desc.
  rewrite (Permutation_map fst (sort_by_perm _ _ (valued (enumerate_from 0 xs)))).
  rewrite valued_unvalued_perm. rewrite enumerate_from_fst. reflexivity.
Qed.

(** [nlargest] ranks the rows by value, larger first, rows of equal value in
    row order, rows without a value last. *)
Lemma nlargest_order_ranked xs :
  StronglySorted (ranks_before xs) (nlargest_order xs).
Proof.
  unfold nlargest_order.
  pose proof (enumerate_from_increasing _ xs 0) as Hinc.
  assert (Hval : forall i q, In (i, q) (valued (enumerate_from 0 xs)) ->
                             nth i xs None = Some q).
  { intros i q H. apply valued_in in H.
    destruct (enumerate_from_nth _ xs None 0 i (Some q) H) as [_ [Hn _]].
    rewrite Nat.sub_0_r in Hn. exact Hn. }
  assert (Hun : forall i, In i (unvalued (enumerate_from 0 xs)) -> nth i xs None = None).
  { intros i H. apply unvalued_in in H.
    destruct (enumerate_from_nth _ xs None 0 i None H) as [_ [Hn _]].
    rewrite Nat.sub_0_r in Hn. exact Hn. }
  set (sorted := sort_desc (fun a b => Qle_bool (snd a) (snd b))
                   (valued (enumerate_from 0 xs))).
  assert (Hin : forall p, In p sorted -> In p (valued (enumerate_from 0 xs))).
  { intros p. apply sort_by_in. }
  apply StronglySorted_app.
  - apply StronglySorted_map with (R := pair_ranks_before).
    + intros [i x] [j y] Ha Hb Hr. unfold ranks_before. simpl.
      rewrite (Hval i x (Hin _ Ha)), (Hval j y (Hin _ Hb)). exact Hr.
    + apply sort_desc_ranked. apply valued_increasing. exact Hinc.
  - assert (Hs := unvalued_increasing _ Hinc).
    clear Hin. revert Hs Hun. generalize (unvalued (enumerate_from 0 xs)).
    intros l Hs. induction Hs as [| i l Hs IH Hall]; intros Hun; constructor.
    + apply IH. intros j Hj. apply Hun. simpl. auto.
    + rewrite Forall_forall in Hall |- *. intros j Hj.
      unfold ranks_before. rewrite (Hun i), (Hun j) by (simpl; auto).
      apply Hall. exact Hj.
  - intros i j Hi Hj. apply in_map_iff in Hi. destruct Hi as [[i' x] [<- Hi]].
    unfold ranks_before. simpl.
    rewrite (Hval i' x (Hin _ Hi)), (Hun j Hj). exact I.
Qed.

(* ================================================================= *)
(** ** Top recipes by nutrient *)

Lemma StronglySorted_app_inv A (R : A -> A -> Prop) l1 l2 :
  StronglySorted R (l1 ++ l2) ->
  StronglySorted R l1 /\ StronglySorted R l2 /\
  (forall a b, In a l1 -> In b l2 -> R a b).
Proof.
  induction l1 as [| x l1 IH]; simpl; intros H.
  - repeat split; [constructor | exact H | intros a b []].
  - inversion H as [| ? ? Hs Hall]; subst.
    destruct (IH Hs) as [H1 [H2 Hc]]. apply Forall_app in Hall.
    destruct Hall as [Ha1 Ha2]. repeat split.
    + constructor; assumption.
    + exact H2.
    + intros a b [<- | Ha] Hb; [| apply Hc; assumption].
      rewrite Forall_forall in Ha2. apply Ha2. exact Hb.
Qed.

Lemma well_formed_column df col s :
  well_formed df -> column df col = Some s -> Series_len s = index_len df.
Proof.
  unfold well_formed, column. intros Hwf H.
  induction (columns df) as [| [k v] l IH]; simpl in *; [discriminate |].
  inversion Hwf; subst. destruct (String.eqb col k).
  - inversion H; subst. assumption.
  - apply IH; assumption.
Qed.

Lemma clamp_n_range n : (1 <= clamp_n n <= 100)%Z.
Proof. unfold clamp_n. lia. Qed.

Lemma top_recipe_info_take df idxs nutrient xs k :
  column df (nutrient ++ "(g)")%string = Some (Float64 xs) ->
  k < length idxs ->
  top_recipe_info (take df idxs) nutrient (nutrient ++ "(g)")%string k
  = Ok (top_row df nutrient xs (nth k idxs 0)).
Proof.
  intros Hcol Hk. unfold top_recipe_info, getitem, top_row.
  rewrite column_take, Hcol.
  change (option_map (Series_take idxs) (Some (Float64 xs)))
    with (Some (Series_take idxs (Float64 xs))).
  cbn [obind].
  rewrite Series_at_take by exact Hk. rewrite Series_at_float.
  rewrite !row_get_take by exact Hk.
  destruct (nth (nth k idxs 0) xs None); reflexivity.
Qed.

(** *** What [sort_values] gives, whatever order numpy leaves equal values in *)

Lemma StronglySorted_weaken A (R R' : A -> A -> Prop) l :
  (forall a b, R a b -> R' a b) -> StronglySorted R l -> StronglySorted R' l.
Proof.
  intros HR. induction 1 as [| x l Hs IH Hall]; constructor; [exact IH |].
  eapply Forall_impl; [| exact Hall]. intros b. apply HR.
Qed.

Lemma StronglySorted_rev A (R : A -> A -> Prop) l :
  StronglySorted R l -> StronglySorted (fun a b => R b a) (rev l).
Proof.
  induction 1 as [| x l Hs IH Hall]; simpl; [constructor |].
  apply StronglySorted_app; [exact IH | repeat constructor |].
  intros a b Ha [<- | []]. apply in_rev in Ha.
  rewrite Forall_forall in Hall. apply Hall. exact Ha.
Qed.

(** An insertion sort of the positions is an [argsort], as soon as the way
    it places an element follows the values. *)
Lemma argsort_by_sorts (before : nat * Q -> nat * Q -> bool) :
  (forall a b, before a b = true \/ before b a = true) ->
  (forall a b c, before a b = true -> before b c = true -> before a c = true) ->
  (forall a b, before a b = true -> (snd a <= snd b)%Q) ->
  sorts (argsort_by before).
Proof.
  intros Htotal Htrans Hle l. unfold argsort_by. split.
  - rewrite (Permutation_map fst (sort_by_perm _ before (enumerate_from 0 l))).
    rewrite enumerate_from_fst. reflexivity.
  - apply StronglySorted_map with (R := fun a b => before a b = true);
      [| apply sort_by_sorted; assumption].
    intros [i x] [j y] Ha Hb Hab.
    apply sort_by_in in Ha. apply sort_by_in in Hb.
    destruct (enumerate_from_nth _ l 0%Q 0 i x Ha) as [_ [Hx _]].
    destruct (enumerate_from_nth _ l 0%Q 0 j y Hb) as [_ [Hy _]].
    rewrite Nat.sub_0_r in Hx, Hy. cbn [fst]. rewrite Hx, Hy.
    apply (Hle _ _ Hab).
Qed.

Lemma stable_argsort_sorts : sorts stable_argsort.
Proof.
  apply argsort_by_sorts.
  - intros a b. apply Qle_bool_total.
  - intros a b c. apply Qle_bool_trans.
  - intros a b H. apply Qle_bool_iff. exact H.
Qed.

Lemma reversing_argsort_sorts : sorts reversing_argsort.
Proof.
  apply argsort_by_sorts.
  - intros [i x] [j y]. cbn [fst snd].
    destruct (Qeq_bool x y) eqn:E.
    + rewrite (Qeq_bool_sym _ _ E). rewrite !Nat.leb_le. lia.
    + destruct (Qeq_bool y x) eqn:E'.
      * rewrite (Qeq_bool_sym _ _ E') in E. discriminate.
      * apply Qle_bool_total.
  - intros [i x] [j y] [k z]. cbn [fst snd].
    destruct (Qeq_bool x y) eqn:Exy; destruct (Qeq_bool y z) eqn:Eyz;
      destruct (Qeq_bool x z) eqn:Exz;
      rewrite ?Nat.leb_le, ?Qle_bool_iff;
      repeat match goal with
             | H : Qeq_bool _ _ = true |- _ => apply Qeq_bool_iff in H
             | H : Qeq_bool _ _ = false |- _ => apply Qeq_bool_neq in H
             end;
      intros H1 H2; try lia; try lra.
  - intros [i x] [j y]. cbn [fst snd].
    destruct (Qeq_bool x y) eqn:E; [| apply Qle_bool_iff].
    intros _. apply Qeq_bool_iff in E. rewrite E. apply Qle_refl.
Qed.

Section SortValues.
Variable argsort : list Q -> list nat.
Hypothesis argsort_sorts : sorts argsort.
Variable xs : list (option Q).

Lemma rows_value i q :
  In (i, q) (valued (enumerate_from 0 xs)) -> nth i xs None = Some q /\ i < length xs.
Proof.
  intros H. apply valued_in in H.
  destruct (enumerate_from_nth _ xs None 0 i (Some q) H) as [_ [Hn Hlt]].
  rewrite Nat.sub_0_r in Hn, Hlt. auto.
Qed.

Lemma unvalued_row i :
  In i (unvalued (enumerate_from 0 xs)) -> nth i xs None = None /\ i < length xs.
Proof.
  intros H. apply unvalued_in in H.
  destruct (enumerate_from_nth _ xs None 0 i None H) as [_ [Hn Hlt]].
  rewrite Nat.sub_0_r in Hn, Hlt. auto.
Qed.

(** What [argsort] is handed, and the row each position stands for. *)
Lemma reversed_rows_at p :
  p < length (valued (enumerate_from 0 xs)) ->
  nth (nth p (rev (map fst (valued (enumerate_from 0 xs)))) 0) xs None
  = Some (nth p (rev (map snd (valued (enumerate_from 0 xs)))) 0%Q).
Proof.
  intros Hp. set (rows := valued (enumerate_from 0 xs)) in *.
  rewrite <- !map_rev.
  assert (Hlen : p < length (rev rows)) by (rewrite length_rev; exact Hp).
  rewrite (nth_indep _ 0 (fst (0, 0%Q))) by (rewrite length_map; exact Hlen).
  rewrite (nth_indep _ 0%Q (snd (0, 0%Q))) by (rewrite length_map; exact Hlen).
  rewrite !map_nth.
  assert (Hin : In (nth p (rev rows) (0, 0%Q)) rows).
  { apply in_rev. apply nth_In. exact Hlen. }
  destruct (nth p (rev rows) (0, 0%Q)) as [i q]. cbn [fst snd].
  apply (rows_value i q Hin).
Qed.

Lemma argsort_positions p :
  In p (argsort (rev (map snd (valued (enumerate_from 0 xs))))) ->
  p < length (valued (enumerate_from 0 xs)).
Proof.
  intros H. set (rows := valued (enumerate_from 0 xs)) in *.
  apply (Permutation_in _ (proj1 (argsort_sorts (rev (map snd rows))))) in H.
  apply in_seq in H. rewrite length_rev, length_map in H. lia.
Qed.

(** [sort_values] lists every row once. *)
Lemma sort_values_desc_perm :
  Permutation (sort_values_desc argsort xs) (seq 0 (length xs)).
Proof.
  unfold sort_values_desc.
  rewrite <- (enumerate_from_fst _ xs 0).
  rewrite <- (valued_unvalued_perm (enumerate_from 0 xs)).
  set (rows := valued (enumerate_from 0 xs)).
  apply Permutation_app_tail.
  rewrite <- Permutation_rev.
  rewrite (Permutation_map _ (proj1 (argsort_sorts (rev (map snd rows))))).
  replace (length (rev (map snd rows))) with (length (rev (map fst rows)))
    by (rewrite !length_rev, !length_map; reflexivity).
  rewrite map_nth_seq. symmetry. apply Permutation_rev.
Qed.

(** [sort_values] lists the rows by value, larger first, and the rows
    without a value last, in row order. *)
Lemma sort_values_desc_sorted :
  StronglySorted (value_order xs) (sort_values_desc argsort xs).
Proof.
  unfold sort_values_desc.
  apply StronglySorted_app.
  - apply StronglySorted_rev with (R := fun a b => value_order xs b a).
    apply StronglySorted_map with
      (R := fun p q =>
              (nth p (rev (map snd (valued (enumerate_from 0 xs)))) 0
               <= nth q (rev (map snd (valued (enumerate_from 0 xs)))) 0)%Q);
      [| apply (proj2 (argsort_sorts _))].
    intros p q Hp Hq Hpq. unfold value_order.
    rewrite (reversed_rows_at q (argsort_positions q Hq)).
    rewrite (reversed_rows_at p (argsort_positions p Hp)). exact Hpq.
  - rewrite <- (map_id (unvalued (enumerate_from 0 xs))).
    apply StronglySorted_map with (R := lt);
      [| apply unvalued_increasing; apply enumerate_from_increasing].
    intros a b Ha Hb Hab. unfold value_order.
    rewrite (proj1 (unvalued_row a Ha)), (proj1 (unvalued_row b Hb)). exact Hab.
  - intros a b Ha Hb. unfold value_order.
    apply in_rev in Ha. apply in_map_iff in Ha. destruct Ha as [p [<- Hp]].
    rewrite (reversed_rows_at p (argsort_positions p Hp)).
    rewrite (proj1 (unvalued_row b Hb)). exact I.
Qed.

End SortValues.

(** *** The rows [nlargest] selects *)

Lemma ranks_value_order xs i j : ranks_before xs i j -> value_order xs i j.
Proof.
  unfold ranks_before, value_order.
  destruct (nth i xs None), (nth j xs None); auto.
  intros [H | [H _]]; [apply Qlt_le_weak; exact H | rewrite H; apply Qle_refl].
Qed.

Lemma NoDup_firstn A (l : list A) n : NoDup l -> NoDup (firstn n l).
Proof.
  intros H. rewrite <- (firstn_skipn n l) in H.
  apply NoDup_app_remove_r in H. exact H.
Qed.

Lemma in_firstn A (l : list A) n x : In x (firstn n l) -> In x l.
Proof.
  intros H. rewrite <- (firstn_skipn n l). apply in_or_app. left. exact H.
Qed.

Lemma perm_seq_NoDup l n : Permutation l (seq 0 n) -> NoDup l.
Proof.
  intros H. apply (Permutation_NoDup (Permutation_sym H)). apply seq_NoDup.
Qed.

Lemma perm_seq_bound l n i : Permutation l (seq 0 n) -> In i l -> i < n.
Proof. intros H Hi. apply (Permutation_in _ H) in Hi. apply in_seq in Hi. lia. Qed.

(** The answer of the query once [nlargest] has selected the rows. *)
Lemma top_recipes_rows argsort df nutrient n xs idxs cn bn :
  column df (nutrient ++ "(g)")%string = Some (Float64 xs) ->
  nlargest argsort n (Float64 xs) = Ok idxs ->
  fst (get_top_recipes_by_nutrient argsort nutrient n (mkProcessor (Some df) cn bn))
  = Ok (map (top_row df nutrient xs) idxs).
Proof.
  intros Hcol Hn.
  unfold get_top_recipes_by_nutrient, bind, get_data. cbn iota beta. cbn [data].
  rewrite Hcol. unfold lift. rewrite Hn. cbn iota beta. cbn [fst].
  rewrite (omap_iterrows_take _ df idxs
             (fun t => top_recipe_info t nutrient (nutrient ++ "(g)")%string)
             (fun i => Ok (top_row df nutrient xs i))).
  - apply omap_ok.
  - intros k Hk. apply top_recipe_info_take; assumption.
Qed.

(** C2 (as amended).  With [N] clamped to [1, 100] by the caller: when the
    column "<nutrient>(g)" is numeric, the query returns [min N rowCount]
    rows of the table, none of them twice, in descending order of the value
    with the rows without a value last, and no row left out has a larger
    value than a row returned.  When [N] is less than the row count, rows
    of equal value come in input order, also across the cut.  When [N] is
    the row count or more, the order among rows of equal value is the one
    numpy's quicksort leaves them in, which the code does not fix.  When
    the table has no such column the result is empty; when the column
    holds text the query raises [TypeError]. *)
Theorem top_recipes_by_nutrient :
  forall (argsort : list Q -> list nat) (self : Processor) (df : DataFrame)
         (nutrient : string) (n : Z),
    data self = Some df -> sorts argsort ->
    match column df (nutrient ++ "(g)")%string with
    | None =>
        fst (get_top_recipes_by_nutrient argsort nutrient (clamp_n n) self) = Ok []
    | Some (Object _) =>
        fst (get_top_recipes_by_nutrient argsort nutrient (clamp_n n) self)
        = Raise TypeError
    | Some (Float64 xs) =>
        let N := Z.to_nat (clamp_n n) in
        exists idxs,
          fst (get_top_recipes_by_nutrient argsort nutrient (clamp_n n) self)
          = Ok (map (top_row df nutrient xs) idxs) /\
          1 <= N <= 100 /\
          length idxs = Nat.min N (length xs) /\
          (well_formed df -> length xs = index_len df) /\
          NoDup idxs /\
          (forall i, In i idxs -> i < length xs) /\
          StronglySorted (value_order xs) idxs /\
          (forall i j, In i idxs -> j < length xs -> ~ In j idxs -> value_order xs i j) /\
          (N < length xs ->
           StronglySorted (ranks_before xs) idxs /\
           (forall i j, In i idxs -> j < length xs -> ~ In j idxs ->
                        ranks_before xs i j))
    end.
Proof.
  intros argsort [d cn bn] df nutrient n Hd Hsorts. simpl in Hd. subst d.
  destruct (column df (nutrient ++ "(g)")%string) as [[xs | xs] |] eqn:Hcol.
  2: { unfold get_top_recipes_by_nutrient, bind, get_data. cbn iota beta. cbn [data].
       rewrite Hcol. reflexivity. }
  2: { unfold get_top_recipes_by_nutrient, bind, get_data. cbn iota beta. cbn [data].
       rewrite Hcol. reflexivity. }
  pose proof (clamp_n_range n) as Hn.
  cbv zeta.
  assert (Hwf : well_formed df -> length xs = index_len df)
    by (intros Hwf; apply (well_formed_column df _ _ Hwf Hcol)).
  destruct (Z.leb_spec (Z.of_nat (length xs)) (clamp_n n)) as [Hall | Hfew].
  - (* every row is asked for: the column is sorted as a whole *)
    exists (sort_values_desc argsort xs).
    pose proof (sort_values_desc_perm argsort Hsorts xs) as Hperm.
    assert (Hlen : length (sort_values_desc argsort xs) = length xs)
      by (rewrite (Permutation_length Hperm); apply length_seq).
    split; [| split; [lia | split; [| split; [exact Hwf | split; [| split; [| split;
      [| split]]]]]]].
    + apply top_recipes_rows; [exact Hcol |]. unfold nlargest.
      destruct (Z.leb_spec (clamp_n n) 0) as [Hle | _]; [lia |].
      destruct (Z.leb_spec (Z.of_nat (length xs)) (clamp_n n)) as [_ | Hlt]; [| lia].
      rewrite firstn_all2 by lia. reflexivity.
    + rewrite Hlen. lia.
    + apply (perm_seq_NoDup _ _ Hperm).
    + intros i. apply (perm_seq_bound _ _ i Hperm).
    + apply sort_values_desc_sorted. exact Hsorts.
    + intros i j _ Hj Hnot. exfalso. apply Hnot.
      apply (Permutation_in j (Permutation_sym Hperm)). apply in_seq. lia.
    + intros Hlt. lia.
  - (* fewer rows than there are: the first of the ranking *)
    set (idxs := firstn (Z.to_nat (clamp_n n)) (nlargest_order xs)).
    exists idxs.
    pose proof (nlargest_order_perm xs) as Hperm.
    pose proof (nlargest_order_ranked xs) as Hranked.
    rewrite <- (firstn_skipn (Z.to_nat (clamp_n n)) (nlargest_order xs)) in Hranked.
    apply StronglySorted_app_inv in Hranked. destruct Hranked as [Hs1 [_ Hcross]].
    assert (Hout : forall i j, In i idxs -> j < length xs -> ~ In j idxs ->
                               ranks_before xs i j).
    { intros i j Hi Hj Hnot. apply Hcross; [exact Hi |].
      assert (Hin : In j (nlargest_order xs)).
      { apply (Permutation_in j (Permutation_sym Hperm)). apply in_seq. lia. }
      rewrite <- (firstn_skipn (Z.to_nat (clamp_n n)) (nlargest_order xs)) in Hin.
      apply in_app_or in Hin. destruct Hin as [Hin | Hin]; [contradiction | exact Hin]. }
    split; [| split; [lia | split; [| split; [exact Hwf | split; [| split; [| split;
      [| split]]]]]]].
    + apply top_recipes_rows; [exact Hcol |]. unfold nlargest.
      destruct (Z.leb_spec (clamp_n n) 0) as [Hle | _]; [lia |].
      destruct (Z.leb_spec (Z.of_nat (length xs)) (clamp_n n)) as [Hge | _]; [lia |].
      reflexivity.
    + unfold idxs. rewrite length_firstn.
      rewrite (Permutation_length Hperm), length_seq. reflexivity.
    + apply NoDup_firstn. apply (perm_seq_NoDup _ _ Hperm).
    + intros i Hi. apply (perm_seq_bound _ _ i Hperm).
      apply (in_firstn _ _ (Z.to_nat (clamp_n n))). exact Hi.
    + apply StronglySorted_weaken with (R := ranks_before xs);
        [apply ranks_value_order | exact Hs1].
    + intros i j Hi Hj Hnot. apply ranks_value_order. apply Hout; assumption.
    + intros _. split; [exact Hs1 | exact Hout].
Qed.

Lemma tied_protein_column :
  column tied_protein "Protein(g)"
  = Some (Float64 [Some 10%Q; Some 20%Q; Some 30%Q; Some 30%Q]).
Proof. reflexivity. Qed.

Lemma top_recipes_by_nutrient_witness :
  exists idxs,
    fst (get_top_recipes_by_nutrient stable_argsort "Protein" (clamp_n 2)
           (holding tied_protein))
    = Ok (map (top_row tied_protein "Protein"
                 [Some 10%Q; Some 20%Q; Some 30%Q; Some 30%Q]) idxs) /\
    length idxs = 2 /\
    StronglySorted (ranks_before [Some 10%Q; Some 20%Q; Some 30%Q; Some 30%Q]) idxs.
Proof.
  destruct (top_recipes_by_nutrient stable_argsort (holding tied_protein) tied_protein
              "Protein" 2 eq_refl stable_argsort_sorts)
    as [idxs [Hrows [_ [Hlen [_ [_ [_ [_ [_ Hties]]]]]]]]].
  exists idxs. split; [exact Hrows |]. split; [exact Hlen |].
  apply Hties. simpl. lia.
Defined.

(** C2 as stated fails in two ways.  For a nutrient name whose column holds
    text the table is clean, the column exists, and the query raises
    instead of returning two rows.  And equal values need not come in input
    order: the recipes C and D have the same amount of protein; asked for
    all four recipes, the query sorts the column with numpy's quicksort,
    and an [argsort] that returns equal values in reverse order, as it may,
    puts D before C, while for three recipes C comes before D. *)
Lemma top_recipes_counterexample :
  (_clean_data (holding labelled) = (Ok tt, holding labelled) /\
   has_column labelled "Serving(g)" = true /\
   fst (get_top_recipes_by_nutrient stable_argsort "Serving" (clamp_n 10)
          (holding labelled))
   = Raise TypeError) /\
  (_clean_data (holding tied_protein) = (Ok tt, holding tied_protein) /\
   reversing_argsort [30%Q; 30%Q; 20%Q; 10%Q] = [3; 2; 1; 0] /\
   fst (get_top_recipes_by_nutrient reversing_argsort "Protein" (clamp_n 4)
          (holding tied_protein))
   = Ok [ mkTopRecipe (SStr "D") (SStr "Unknown") (SStr "Unknown") (Some 30%Q) "Protein";
          mkTopRecipe (SStr "C") (SStr "Unknown") (SStr "Unknown") (Some 30%Q) "Protein";
          mkTopRecipe (SStr "B") (SStr "Unknown") (SStr "Unknown") (Some 20%Q) "Protein";
          mkTopRecipe (SStr "A") (SStr "Unknown") (SStr "Unknown") (Some 10%Q) "Protein" ] /\
   fst (get_top_recipes_by_nutrient reversing_argsort "Protein" (clamp_n 3)
          (holding tied_protein))
   = Ok [ mkTopRecipe (SStr "C") (SStr "Unknown") (SStr "Unknown") (Some 30%Q) "Protein";
          mkTopRecipe (SStr "D") (SStr "Unknown") (SStr "Unknown") (Some 30%Q) "Protein";
          mkTopRecipe (SStr "B") (SStr "Unknown") (SStr "Unknown") (Some 20%Q) "Protein" ]).
Proof. repeat split; reflexivity. Qed.

(* ================================================================= *)
(** ** Distinct values and their counts add up *)

Section DistinctCounts.
Variable A : Type.
Variable eqb : A -> A -> bool.
Hypothesis eqb_refl : forall x, eqb x x = true.
Hypothesis eqb_sym : forall x y, eqb x y = true -> eqb y x = true.
Hypothesis eqb_trans : forall x y z, eqb x y = true -> eqb y z = true -> eqb x z = true.

Lemma mem_congr x y seen : eqb x y = true -> mem eqb x seen = mem eqb y seen.
Proof.
  intros H. induction seen as [| z seen IH]; simpl; [reflexivity |].
  rewrite (eqb_congr A eqb eqb_sym eqb_trans x y z H), IH. reflexivity.
Qed.

Lemma distinct_acc_not_seen seen l v :
  In v (distinct_acc eqb seen l) -> mem eqb v seen = false.
Proof.
  revert seen. induction l as [| x l IH]; intros seen; simpl; [contradiction |].
  destruct (mem eqb x seen) eqn:E.
  - apply IH.
  - intros [<- | H]; [exact E |].
    specialize (IH (x :: seen) H). simpl in IH.
    apply orb_false_iff in IH. tauto.
Qed.

(** The values [distinct_acc] keeps are pairwise different. *)
Lemma distinct_acc_pairwise seen l :
  ForallOrdPairs (fun a b => eqb b a = false) (distinct_acc eqb seen l).
Proof.
  revert seen. induction l as [| x l IH]; intros seen; simpl; [constructor |].
  destruct (mem eqb x seen) eqn:E; [apply IH |].
  constructor; [| apply IH].
  apply Forall_forall. intros b Hb.
  apply distinct_acc_not_seen in Hb. simpl in Hb. apply orb_false_iff in Hb. tauto.
Qed.

Lemma count_as_filter x l : count eqb x l = length (filter (eqb x) l).
Proof.
  induction l as [| y l IH]; simpl; [reflexivity |].
  destruct (eqb x y); simpl; rewrite IH; reflexivity.
Qed.

Lemma filter_split_unseen x seen l :
  mem eqb x seen = false ->
  length (filter (eqb x) l)
  + length (filter (fun y => negb (mem eqb y (x :: seen))) l)
  = length (filter (fun y => negb (mem eqb y seen)) l).
Proof.
  intros E. induction l as [| y l IHl]; simpl; [reflexivity |].
  destruct (eqb x y) eqn:Exy; simpl.
  - rewrite (eqb_sym x y Exy). simpl.
    rewrite <- (mem_congr x y seen Exy), E. simpl. simpl in IHl. rewrite <- IHl.
    reflexivity.
  - destruct (eqb y x) eqn:Eyx; [rewrite (eqb_sym y x Eyx) in Exy; discriminate |].
    simpl. simpl in IHl. destruct (mem eqb y seen); simpl; rewrite <- IHl; lia.
Qed.

Lemma sum_counts_unseen l : forall seen,
  sum_nat (map (fun v => count eqb v l) (distinct_acc eqb seen l))
  = length (filter (fun y => negb (mem eqb y seen)) l).
Proof.
  induction l as [| x l IH]; intros seen; [reflexivity |].
  cbn [distinct_acc filter].
  destruct (mem eqb x seen) eqn:E; cbn [negb].
  - rewrite <- IH. f_equal. apply map_ext_in. intros v Hv.
    apply distinct_acc_not_seen in Hv. cbn [count].
    destruct (eqb v x) eqn:Evx; [| reflexivity].
    rewrite (mem_congr v x seen Evx) in Hv. congruence.
  - cbn [map sum_nat fold_right length].
    change (count eqb x (x :: l)) with ((if eqb x x then 1 else 0) + count eqb x l).
    rewrite eqb_refl.
    assert (Hmap : map (fun v => count eqb v (x :: l)) (distinct_acc eqb (x :: seen) l)
                   = map (fun v => count eqb v l) (distinct_acc eqb (x :: seen) l)).
    { apply map_ext_in. intros v Hv. apply distinct_acc_not_seen in Hv.
      simpl in Hv. apply orb_false_iff in Hv. destruct Hv as [Hvx _].
      cbn [count]. rewrite Hvx. reflexivity. }
    rewrite Hmap. fold (sum_nat (map (fun v => count eqb v l)
                                    (distinct_acc eqb (x :: seen) l))).
    rewrite IH, count_as_filter, <- (filter_split_unseen x seen l E). lia.
Qed.

(** Over the distinct values of a list the numbers of occurrences sum to its
    length. *)
Lemma sum_counts_distinct l :
  sum_nat (map (fun v => count eqb v l) (distinct eqb l)) = length l.
Proof.
  unfold distinct. rewrite sum_counts_unseen. simpl.
  induction l as [| y l IH]; simpl; [| rewrite IH]; reflexivity.
Qed.

End DistinctCounts.

Lemma scalar_same_refl x : scalar_same x x = true.
Proof.
  destruct x; simpl; [reflexivity | apply Qeq_bool_refl | apply String.eqb_refl].
Qed.

Lemma scalar_same_sym x y : scalar_same x y = true -> scalar_same y x = true.
Proof.
  destruct x, y; simpl; try discriminate; auto using Qeq_bool_sym, string_eqb_sym.
Qed.

Lemma scalar_same_trans x y z :
  scalar_same x y = true -> scalar_same y z = true -> scalar_same x z = true.
Proof.
  destruct x, y, z; simpl; try discriminate; auto;
    eauto using Qeq_bool_trans, string_eqb_trans.
Qed.

Lemma scalar_eqb_same c v : c <> SNaN -> scalar_eqb c v = scalar_same v c.
Proof.
  destruct c, v; simpl; try congruence; intros _.
  - destruct (Qeq_bool q q0) eqn:E.
    + symmetry. apply Qeq_bool_sym. exact E.
    + destruct (Qeq_bool q0 q) eqn:E'; [| reflexivity].
      apply Qeq_bool_sym in E'. congruence.
  - apply String.eqb_sym.
Qed.

Lemma length_where_from mask : forall i,
  length (where_from i mask) = length (filter (fun b : bool => b) mask).
Proof.
  induction mask as [| b mask IH]; intros i; simpl; [reflexivity |].
  destruct b; simpl; rewrite IH; reflexivity.
Qed.

(** The number of rows of a diet type is the number of occurrences of the
    type in a column without missing entries. *)
Lemma rows_of_diet_count diet_col v :
  Forall (fun c => c <> SNaN) (Series_cells diet_col) ->
  length (rows_of_diet diet_col v) = count scalar_same v (Series_cells diet_col).
Proof.
  unfold rows_of_diet, where_true, mask_eq. rewrite length_where_from.
  induction 1 as [| c l Hc Hall IH]; simpl; [reflexivity |].
  rewrite (scalar_eqb_same c v Hc).
  destruct (scalar_same v c); simpl; rewrite IH; reflexivity.
Qed.

Lemma no_missing_cells s :
  Series_has_missing s = false -> Forall (fun c => c <> SNaN) (Series_cells s).
Proof.
  destruct s as [xs | xs]; simpl; intros H.
  - induction xs as [| [q |] xs IH]; simpl in *; try discriminate; constructor;
      [discriminate | auto].
  - induction xs as [| [q |] xs IH]; simpl in *; try discriminate; constructor;
      [discriminate | auto].
Qed.

Lemma Series_cells_length s : length (Series_cells s) = Series_len s.
Proof. destruct s; simpl; apply length_map. Qed.

(* ================================================================= *)
(** ** Columns of a cleaned table *)

Lemma cleaned_columns df :
  cleaned df ->
  (forall col s, In col categorical_cols -> column df col = Some s ->
                 Series_has_missing s = false) /\
  (forall col s, In col numeric_cols -> column df col = Some s -> mean_defined s).
Proof.
  intros [[[df0 |] cn bn] [Hsome [Hok Hdf]]]; [| simpl in Hsome; congruence].
  rewrite clean_data_run in Hok, Hdf. cbn [fst snd data] in Hok, Hdf.
  assert (Hdf' : df = snd (run_steps cleaning_steps df0)) by congruence.
  subst df. clear Hdf Hsome.
  destruct cleaning_steps_settle as [Hnd _].
  split; intros col s Hin Hcol.
  - destruct (column df0 col) as [s0 |] eqn:E0.
    + destruct (run_steps_column cleaning_steps df0 col fill_with_mode s0 Hnd Hok)
        as [s' [Hs' Hc]]; [| assumption |].
      { unfold cleaning_steps. apply in_or_app. right.
        apply in_map_iff. exists col. auto. }
      assert (s' = s) by congruence. subst s'.
      unfold fill_with_mode in Hs'. inversion Hs' as [Hs]. clear Hs'.
      destruct (fillna_categorical s0 _ (fill_value_is_categorical_fill s0)) as [Hv Hcells].
      subst s. eapply filled_cells_no_missing; [exact Hv | exact Hcells].
    + rewrite (run_steps_absent cleaning_steps df0 col E0) in Hcol. discriminate.
  - destruct (column df0 col) as [s0 |] eqn:E0.
    + destruct (run_steps_column cleaning_steps df0 col fill_with_mean s0 Hnd Hok)
        as [s' [Hs' Hc]]; [| assumption |].
      { unfold cleaning_steps. apply in_or_app. left.
        apply in_map_iff. exists col. auto. }
      assert (s' = s) by congruence. subst s'.
      unfold fill_with_mean in Hs'. destruct s0 as [xs | xs]; simpl in Hs'.
      * inversion Hs'. destruct (mean_of (present xs)); simpl; exact I.
      * destruct (present xs) eqn:Ep; simpl in Hs'; inversion Hs'. simpl. exact Ep.
    + rewrite (run_steps_absent cleaning_steps df0 col E0) in Hcol. discriminate.
Qed.

Lemma present_nil_nth A (xs : list (option A)) i :
  present xs = [] -> nth i xs None = None.
Proof.
  revert i. induction xs as [| [x |] xs IH]; intros i; simpl; intros H;
    try discriminate; destruct i; auto.
Qed.

Lemma present_all_none A (l : list (option A)) :
  Forall (fun c => c = None) l -> present l = [].
Proof. induction 1 as [| c l Hc _ IH]; simpl; [| subst c]; auto. Qed.

Lemma mean_defined_take s idxs :
  mean_defined s -> exists m, Series_mean (Series_take idxs s) = Ok m.
Proof.
  destruct s as [xs | xs]; simpl; intros H; [eauto |].
  rewrite present_all_none; [eauto |].
  apply Forall_forall. intros c Hc. apply in_map_iff in Hc.
  destruct Hc as [i [<- _]]. apply present_nil_nth. exact H.
Qed.

Lemma has_column_true df col :
  has_column df col = true -> exists s, column df col = Some s.
Proof. unfold has_column. destruct (column df col); [eauto | discriminate]. Qed.

Lemma averages_of_ok df diet_col v : forall available,
  (forall col, In col available -> exists s, column df col = Some s /\ mean_defined s) ->
  averages_of df available diet_col v
  = Ok (map (fun col => (drop_unit col, round_float (group_mean df diet_col v col)))
            available).
Proof.
  unfold averages_of. induction available as [| col available IH]; intros H;
    [reflexivity |].
  cbn [omap map]. rewrite IH by (intros c Hc; apply H; simpl; auto).
  destruct (H col (or_introl eq_refl)) as [s [Hcol Hdef]].
  unfold getitem, select. rewrite column_take, Hcol. cbn [option_map obind].
  unfold group_mean, rows_of_diet. rewrite Hcol.
  destruct (mean_defined_take s (where_true (mask_eq diet_col v)) Hdef) as [m Hm].
  rewrite Hm. reflexivity.
Qed.

Lemma mapM_pure A B (f : A -> M B) (g : A -> B) self l :
  (forall x, In x l -> f x self = (Ok (g x), self)) ->
  mapM f l self = (Ok (map g l), self).
Proof.
  induction l as [| x l IH]; intros H; [reflexivity |].
  cbn [mapM map]. unfold bind. rewrite (H x) by (simpl; auto).
  rewrite IH by (intros y Hy; apply H; simpl; auto). reflexivity.
Qed.

(** On a cleaned table with a diet type column and a macronutrient column
    the averages are defined for every diet type. *)
Lemma macronutrient_averages_cleaned df diet_col cn bn :
  cleaned df ->
  column df "Diet_type" = Some diet_col ->
  filter (has_column df) macro_cols <> [] ->
  get_macronutrient_averages (mkProcessor (Some df) cn bn)
  = (Ok (map (fun v => (v, group_averages df diet_col v)) (Series_unique diet_col)),
     mkProcessor (Some df) cn bn).
Proof.
  intros Hclean Hdiet Havail.
  unfold get_macronutrient_averages, bind, get_data. cbn [data]. cbn iota beta.
  rewrite Hdiet.
  destruct (filter (has_column df) macro_cols) as [| c0 rest] eqn:Ef; [congruence |].
  unfold lift. f_equal. rewrite <- Ef.
  rewrite (omap_ext_in _ _ _
             (fun v => Ok (v, group_averages df diet_col v))).
  - apply omap_ok.
  - intros v _. rewrite averages_of_ok; [reflexivity |].
    intros col Hcol. apply filter_In in Hcol. destruct Hcol as [Hin Hhas].
    destruct (has_column_true df col Hhas) as [s Hs]. exists s. split; [exact Hs |].
    apply (proj2 (cleaned_columns df Hclean) col s Hin Hs).
Qed.

(* ================================================================= *)
(** ** The diet comparison *)

Lemma comparison_body_pure df diet_col cn bn (entry : scalar * list (string * float64)) :
  column df "Diet_type" = Some diet_col ->
  (let (diet_type, macros) := entry in
   df' <- self_frame ;;
   diet_col' <- lift (getitem df' "Diet_type") ;;
   ret (mkDietInfo diet_type
          (dict_get macros "Protein" (Some 0%Q))
          (dict_get macros "Carbs" (Some 0%Q))
          (dict_get macros "Fat" (Some 0%Q))
          (index_len (select df' (mask_eq diet_col' diet_type)))))
    (mkProcessor (Some df) cn bn)
  = (Ok (mkDietInfo (fst entry)
           (dict_get (snd entry) "Protein" (Some 0%Q))
           (dict_get (snd entry) "Carbs" (Some 0%Q))
           (dict_get (snd entry) "Fat" (Some 0%Q))
           (length (rows_of_diet diet_col (fst entry)))),
     mkProcessor (Some df) cn bn).
Proof.
  intros Hdiet. destruct entry as [v macros].
  unfold bind, self_frame, get_data, bind, ret, lift, getitem. cbn [data].
  cbn iota beta. rewrite Hdiet. reflexivity.
Qed.

Lemma diet_comparison_cleaned df diet_col cn bn :
  cleaned df ->
  column df "Diet_type" = Some diet_col ->
  filter (has_column df) macro_cols <> [] ->
  fst (get_diet_comparison_data (mkProcessor (Some df) cn bn))
  = Ok (map (comparison_entry df diet_col) (Series_unique diet_col)).
Proof.
  intros Hclean Hdiet Havail. unfold get_diet_comparison_data, bind.
  rewrite (macronutrient_averages_cleaned df diet_col cn bn Hclean Hdiet Havail).
  rewrite (mapM_pure _ _ _
             (fun entry : scalar * list (string * float64) =>
                mkDietInfo (fst entry)
                  (dict_get (snd entry) "Protein" (Some 0%Q))
                  (dict_get (snd entry) "Carbs" (Some 0%Q))
                  (dict_get (snd entry) "Fat" (Some 0%Q))
                  (length (rows_of_diet diet_col (fst entry))))).
  - cbn [fst]. rewrite map_map. reflexivity.
  - intros entry _. apply comparison_body_pure. exact Hdiet.
Qed.

Lemma macros_reported df diet_col v :
  cleaned df ->
  let macros := group_averages df diet_col v in
  macro_reported df diet_col v "Protein(g)" (dict_get macros "Protein" (Some 0%Q)) /\
  macro_reported df diet_col v "Carbs(g)" (dict_get macros "Carbs" (Some 0%Q)) /\
  macro_reported df diet_col v "Fat(g)" (dict_get macros "Fat" (Some 0%Q)).
Proof.
  intros Hclean.
  assert (Hdef : forall col s, In col numeric_cols -> column df col = Some s ->
                 exists m, Series_mean (Series_take (rows_of_diet diet_col v) s) = Ok m).
  { intros col s Hin Hcol. apply mean_defined_take.
    apply (proj2 (cleaned_columns df Hclean) col s Hin Hcol). }
  unfold group_averages, macro_cols, macro_reported, group_mean, has_column.
  cbn [filter].
  destruct (column df "Protein(g)") as [sp |] eqn:Ep;
    destruct (column df "Carbs(g)") as [sc |] eqn:Ec;
    destruct (column df "Fat(g)") as [sf |] eqn:Ef;
    try (destruct (Hdef "Protein(g)" sp) as [mp Hp]; [simpl; auto | assumption |]);
    try (destruct (Hdef "Carbs(g)" sc) as [mc Hc]; [simpl; auto | assumption |]);
    try (destruct (Hdef "Fat(g)" sf) as [mf Hf]; [simpl; auto | assumption |]);
    cbn [map]; rewrite ?Ep, ?Ec, ?Ef, ?Hp, ?Hc, ?Hf;
    repeat match goal with |- _ /\ _ => split end;
    first [reflexivity | eexists; split; reflexivity].
Qed.

(** C6 (as amended).  On a cleaned, well-formed table that has a diet type
    column and at least one macronutrient column, the diet comparison has
    exactly one entry per distinct diet type, each carrying the rounded
    averages of that diet type (0 for a macronutrient column the table
    lacks) and its number of rows, and these numbers sum to the row count.
    Without a diet type column or without any macronutrient column the
    comparison is empty. *)
Theorem diet_comparison_totals :
  forall (self : Processor) (df : DataFrame),
    data self = Some df -> cleaned df -> well_formed df ->
    match column df "Diet_type", filter (has_column df) macro_cols with
    | Some diet_col, _ :: _ =>
        let entries := map (comparison_entry df diet_col) (Series_unique diet_col) in
        fst (get_diet_comparison_data self) = Ok entries /\
        map di_diet_type entries = Series_unique diet_col /\
        ForallOrdPairs (fun a b => scalar_same b a = false) (Series_unique diet_col) /\
        (forall e, In e entries ->
           di_total_recipes e = length (rows_of_diet diet_col (di_diet_type e)) /\
           macro_reported df diet_col (di_diet_type e) "Protein(g)" (di_protein e) /\
           macro_reported df diet_col (di_diet_type e) "Carbs(g)" (di_carbs e) /\
           macro_reported df diet_col (di_diet_type e) "Fat(g)" (di_fat e)) /\
        sum_nat (map di_total_recipes entries) = index_len df
    | _, _ => fst (get_diet_comparison_data self) = Ok []
    end.
Proof.
  intros [d cn bn] df Hd Hclean Hwf. simpl in Hd. subst d.
  destruct (column df "Diet_type") as [diet_col |] eqn:Hdiet.
  2:{ unfold get_diet_comparison_data, get_macronutrient_averages, bind, get_data.
      cbn [data]. cbn iota beta. rewrite Hdiet. reflexivity. }
  destruct (filter (has_column df) macro_cols) as [| c0 rest] eqn:Havail.
  { unfold get_diet_comparison_data, get_macronutrient_averages, bind, get_data.
    cbn [data]. cbn iota beta. rewrite Hdiet, Havail. reflexivity. }
  cbv zeta. split; [| split; [| split; [| split]]].
  - apply diet_comparison_cleaned; [assumption | assumption |].
    rewrite Havail. discriminate.
  - rewrite map_map. simpl. apply map_id.
  - apply distinct_acc_pairwise.
  - intros e He. apply in_map_iff in He. destruct He as [v [<- _]].
    split; [reflexivity |]. apply macros_reported. exact Hclean.
  - rewrite map_map. cbn [di_total_recipes comparison_entry].
    assert (Hcells : Forall (fun c => c <> SNaN) (Series_cells diet_col)).
    { apply no_missing_cells.
      apply (proj1 (cleaned_columns df Hclean) "Diet_type" diet_col); simpl; auto. }
    rewrite (map_ext _ (fun v => count scalar_same v (Series_cells diet_col))).
    + unfold Series_unique.
      rewrite (sum_counts_distinct _ scalar_same scalar_same_refl scalar_same_sym
                 scalar_same_trans).
      rewrite Series_cells_length. apply (well_formed_column df _ _ Hwf Hdiet).
    + intros v. apply rows_of_diet_count. exact Hcells.
Qed.

Lemma sample_table_cleaned : cleaned sample_table.
Proof.
  exists (holding sample_table). repeat split. simpl. discriminate.
Qed.

Lemma sample_table_well_formed : well_formed sample_table.
Proof. repeat constructor. Qed.

Lemma diet_comparison_totals_witness :
  fst (get_diet_comparison_data (holding sample_table))
  = Ok [ mkDietInfo (SStr "vegan") (Some 20%Q) (Some 15%Q) (Some (7 # 2)%Q) 2;
         mkDietInfo (SStr "keto") (Some 5%Q) (Some 5%Q) (Some 25%Q) 1 ] /\
  sum_nat [2; 1] = index_len sample_table.
Proof.
  pose proof (diet_comparison_totals (holding sample_table) sample_table eq_refl
                sample_table_cleaned sample_table_well_formed) as H.
  split; [exact (proj1 H) | exact (proj2 (proj2 (proj2 (proj2 H))))].
Defined.

(** C6 as stated fails on a clean table without a diet type column: the
    comparison is empty, so its row counts sum to 0 while the table has one
    row. *)
Lemma diet_comparison_counterexample :
  _clean_data (holding no_diet_column) = (Ok tt, holding no_diet_column) /\
  fst (get_diet_comparison_data (holding no_diet_column)) = Ok [] /\
  sum_nat (map di_total_recipes []) = 0 /\
  index_len no_diet_column = 1.
Proof. repeat split; reflexivity. Qed.

(* ================================================================= *)
(** ** Rounding and the nutrient ranges *)

Lemma round_half_even_bounds q :
  (Qfloor q <= round_half_even q <= Qfloor q + 1)%Z.
Proof.
  unfold round_half_even.
  destruct (Qcompare (q - inject_Z (Qfloor q)) (1 # 2)); [destruct (Z.even _) | |]; lia.
Qed.

Lemma round_half_even_mono x y :
  (x <= y)%Q -> (round_half_even x <= round_half_even y)%Z.
Proof.
  intros Hxy. pose proof (Qfloor_resp_le x y Hxy) as Hf.
  pose proof (round_half_even_bounds x) as Hx.
  pose proof (round_half_even_bounds y) as Hy.
  destruct (Z.eq_dec (Qfloor x) (Qfloor y)) as [E | NE]; [| lia].
  clear Hx Hy Hf. unfold round_half_even. rewrite <- E.
  assert (Hr : (x - inject_Z (Qfloor x) <= y - inject_Z (Qfloor x))%Q).
  { unfold Qminus. apply Qplus_le_l. exact Hxy. }
  destruct (Qcompare_spec (x - inject_Z (Qfloor x)) (1 # 2)) as [Ex | Lx | Gx];
    destruct (Qcompare_spec (y - inject_Z (Qfloor x)) (1 # 2)) as [Ey | Ly | Gy];
    try (destruct (Z.even (Qfloor x))); try lia; exfalso;
    apply (Qlt_irrefl (1 # 2));
    first
      [ rewrite Ex in Hr; eapply Qle_lt_trans; eassumption
      | rewrite Ey in Hr; eapply Qlt_le_trans; eassumption
      | eapply Qlt_le_trans; [exact Gx |]; eapply Qle_trans; [exact Hr |];
        apply Qlt_le_weak; exact Ly ].
Qed.

Lemma round2_mono x y : (x <= y)%Q -> (round2 x <= round2 y)%Q.
Proof.
  intros H. unfold round2. rewrite !Qred_correct.
  apply Qmult_le_compat_r; [| discriminate].
  rewrite <- Zle_Qle. apply round_half_even_mono.
  apply Qmult_le_compat_r; [exact H | discriminate].
Qed.






Lemma float_le_round a b :
  (a <= b)%Q -> float_le (round_float (Some a)) (round_float (Some b)) = true.
Proof. intros H. simpl. apply Qle_bool_iff. apply round2_mono. exact H. Qed.





(* ================================================================= *)
(** ** Regular expressions: the matcher is correct *)

Import Re.

(** [lower] folds exactly the letters that [same_letter] identifies. *)
Lemma nat_of_lower c :
  nat_of_ascii (lower c)
  = if Nat.leb 65 (nat_of_ascii c) && Nat.leb (nat_of_ascii c) 90
    then nat_of_ascii c + 32 else nat_of_ascii c.
Proof.
  unfold lower.
  destruct (Nat.leb_spec 65 (nat_of_ascii c)); destruct (Nat.leb_spec (nat_of_ascii c) 90);
    cbn [andb]; try reflexivity.
  apply nat_ascii_embedding. lia.
Qed.

Lemma nat_of_ascii_injective c d : nat_of_ascii c = nat_of_ascii d -> c = d.
Proof.
  intros H. rewrite <- (ascii_nat_embedding c), <- (ascii_nat_embedding d), H.
  reflexivity.
Qed.

Lemma lower_same_letter c d : lower c = lower d <-> same_letter c d.
Proof.
  unfold same_letter. split.
  - intros H. apply (f_equal nat_of_ascii) in H. rewrite !nat_of_lower in H.
    destruct (Nat.leb_spec 65 (nat_of_ascii c));
      destruct (Nat.leb_spec (nat_of_ascii c) 90);
      destruct (Nat.leb_spec 65 (nat_of_ascii d));
      destruct (Nat.leb_spec (nat_of_ascii d) 90); cbn [andb] in H;
      try (left; apply nat_of_ascii_injective; lia);
      try (right; left; lia); try (right; right; lia).
  - intros H. apply nat_of_ascii_injective. rewrite !nat_of_lower.
    destruct H as [-> | [[H1 H2] | [H1 H2]]]; [reflexivity | |];
      destruct (Nat.leb_spec 65 (nat_of_ascii c));
      destruct (Nat.leb_spec (nat_of_ascii c) 90);
      destruct (Nat.leb_spec 65 (nat_of_ascii d));
      destruct (Nat.leb_spec (nat_of_ascii d) 90); cbn [andb]; lia.
Qed.

Lemma lower_str_same_text p t : lower_str p = lower_str t <-> same_text p t.
Proof.
  revert t. induction p as [| c p IH]; intros [| d t]; simpl; split; intros H;
    try discriminate; try (inversion H; fail); try constructor.
  - inversion H. apply lower_same_letter. assumption.
  - inversion H. apply IH. assumption.
  - inversion H; subst. f_equal; [apply lower_same_letter | apply IH]; assumption.
Qed.

Lemma substring_ci_lower term v :
  substring_ci term v <->
  exists pre mid post,
    v = (pre ++ mid ++ post)%string /\ lower_str mid = lower_str term.
Proof.
  unfold substring_ci. split; intros [pre [mid [post [E H]]]];
    exists pre, mid, post; (split; [exact E |]); apply lower_str_same_text; exact H.
Qed.

Lemma append_nil_inv (s1 s2 : string) :
  (s1 ++ s2)%string = EmptyString -> s1 = EmptyString /\ s2 = EmptyString.
Proof. destruct s1; simpl; [auto | discriminate]. Qed.



Lemma matches_empty_nullable r s : matches r s -> s = EmptyString -> nullable r = true.
Proof.
  induction 1 as [| | | r1 r2 s1 s2 H1 IH1 H2 IH2 | r1 r2 s H IH | r1 r2 s H IH
                 | | r s1 s2 H1 IH1 H2 IH2]; intros E; simpl; try discriminate; auto.
  - apply append_nil_inv in E. destruct E. rewrite IH1, IH2 by assumption. reflexivity.
  - rewrite IH by assumption. reflexivity.
  - rewrite IH by assumption. apply orb_true_r.
Qed.

Lemma nullable_matches_empty r : nullable r = true -> matches r EmptyString.
Proof.
  induction r; simpl; intros H; try discriminate.
  - constructor.
  - apply andb_true_iff in H. destruct H.
    change EmptyString with (EmptyString ++ EmptyString)%string. constructor; auto.
  - apply orb_true_iff in H. destruct H; [apply MAltL | apply MAltR]; auto.
  - constructor.
Qed.

Lemma deriv_sound c r : forall s, matches (deriv c r) s -> matches r (String c s).
Proof.
  induction r as [| | d | | r1 IH1 r2 IH2 | r1 IH1 r2 IH2 | r1 IH1]; simpl; intros s H.
  - inversion H.
  - inversion H.
  - destruct (Ascii.eqb (lower c) (lower d)) eqn:E; inversion H; subst.
    constructor. apply lower_same_letter. apply Ascii.eqb_eq in E. congruence.
  - destruct (Ascii.eqb c newline) eqn:E; inversion H; subst.
    constructor. apply Ascii.eqb_neq. exact E.
  - assert (Hcat : forall s, matches (Cat (deriv c r1) r2) s ->
                             matches (Cat r1 r2) (String c s)).
    { intros s0 H0. inversion H0; subst.
      change (String c (s1 ++ s2)) with ((String c s1) ++ s2)%string.
      constructor; auto. }
    destruct (nullable r1) eqn:En; [| auto].
    inversion H; subst; [auto |].
    change (String c s) with (EmptyString ++ String c s)%string.
    constructor; [apply nullable_matches_empty; exact En | auto].
  - inversion H; subst; [apply MAltL | apply MAltR]; auto.
  - inversion H; subst.
    change (String c (s1 ++ s2)) with ((String c s1) ++ s2)%string.
    constructor; auto.
Qed.

Lemma deriv_complete r t : matches r t -> forall c s, t = String c s -> matches (deriv c r) s.
Proof.
  induction 1 as [| c0 d Hcd | d Hd | r1 r2 s1 s2 H1 IH1 H2 IH2 | r1 r2 s0 H IH
                 | r1 r2 s0 H IH | | r s1 s2 H1 IH1 H2 IH2]; intros c s E; simpl.
  - discriminate.
  - inversion E; subst. apply lower_same_letter in Hcd.
    rewrite (proj2 (Ascii.eqb_eq _ _)) by congruence. constructor.
  - inversion E; subst. rewrite (proj2 (Ascii.eqb_neq _ _)) by assumption. constructor.
  - destruct s1 as [| c1 s1'].
    + simpl in E. subst s2.
      rewrite (matches_empty_nullable r1 _ H1 eq_refl).
      apply MAltR. apply IH2. reflexivity.
    + simpl in E. inversion E; subst.
      assert (Hc : matches (Cat (deriv c r1) r2) (s1' ++ s2)%string).
      { constructor; [apply IH1; reflexivity | assumption]. }
      destruct (nullable r1); [apply MAltL |]; exact Hc.
  - apply MAltL. apply IH. exact E.
  - apply MAltR. apply IH. exact E.
  - discriminate.
  - destruct s1 as [| c1 s1'].
    + simpl in E. apply (IH2 c s E).
    + simpl in E. inversion E; subst.
      constructor; [apply IH1; reflexivity | assumption].
Qed.

Lemma match_here_correct : forall v r,
  match_here r v = true <->
  exists p q, v = (p ++ q)%string /\ matches r p.
Proof.
  induction v as [| c v IH]; intros r; simpl.
  - rewrite orb_false_r. split.
    + intros H. exists EmptyString, EmptyString. split; [reflexivity |].
      apply nullable_matches_empty. exact H.
    + intros [p [q [E H]]]. symmetry in E. apply append_nil_inv in E. destruct E; subst.
      eapply matches_empty_nullable; eauto.
  - rewrite orb_true_iff, IH. split.
    + intros [H | [p [q [E H]]]].
      * exists EmptyString, (String c v). split; [reflexivity |].
        apply nullable_matches_empty. exact H.
      * exists (String c p), q. subst v. split; [reflexivity |].
        apply deriv_sound. exact H.
    + intros [p [q [E H]]]. destruct p as [| c' p].
      * left. eapply matches_empty_nullable; eauto.
      * right. simpl in E. inversion E; subst. exists p, q. split; [reflexivity |].
        eapply deriv_complete; eauto.
Qed.

(** [search] decides [found]: the pattern matches somewhere in the text. *)
Lemma search_correct r : forall v, search r v = true <-> found r v.
Proof.
  unfold found. induction v as [| c v IH]; simpl.
  - rewrite orb_false_r. rewrite (match_here_correct EmptyString r). split.
    + intros [p [q [E H]]]. exists EmptyString, p, q. auto.
    + intros [pre [mid [post [E H]]]]. symmetry in E.
      apply append_nil_inv in E. destruct E as [-> E].
      exists mid, post. auto.
  - rewrite orb_true_iff, IH, (match_here_correct (String c v) r). split.
    + intros [[p [q [E H]]] | [pre [mid [post [E H]]]]].
      * exists EmptyString, p, q. auto.
      * exists (String c pre), mid, post. subst v. auto.
    + intros [pre [mid [post [E H]]]]. destruct pre as [| c' pre].
      * left. exists mid, post. auto.
      * right. simpl in E. inversion E; subst. exists pre, mid, post. auto.
Qed.

(* ================================================================= *)
(** ** Terms without special characters are searched literally *)

Lemma matches_literal t : forall p, matches (literal t) p <-> lower_str p = lower_str t.
Proof.
  induction t as [| c t IH]; intros p; simpl.
  - split.
    + intros H. inversion H. reflexivity.
    + destruct p; simpl; [constructor | discriminate].
  - split.
    + intros H. inversion H as [| | | r1 r2 s1 s2 H1 H2 | | | |]; subst.
      inversion H1 as [| ? ? Hcd | | | | | |]; subst. apply lower_same_letter in Hcd.
      simpl. apply IH in H2. congruence.
    + destruct p as [| d p]; simpl; [discriminate |]. intros H. inversion H.
      change (String d p) with ((String d EmptyString) ++ p)%string.
      constructor; [constructor; apply lower_same_letter; congruence
                   | apply IH; assumption].
Qed.

Lemma prefix_ci_correct t : forall v,
  prefix_ci t v = true <->
  exists p q, v = (p ++ q)%string /\ lower_str p = lower_str t.
Proof.
  induction t as [| a t IH]; intros v; simpl.
  - split; [| reflexivity]. intros _. exists EmptyString, v. auto.
  - destruct v as [| b v].
    + split; [discriminate |]. intros [p [q [E H]]]. symmetry in E.
      apply append_nil_inv in E. destruct E; subst. discriminate.
    + rewrite andb_true_iff, Ascii.eqb_eq, IH. split.
      * intros [Hab [p [q [E H]]]]. exists (String b p), q. subst v. simpl.
        split; [reflexivity | congruence].
      * intros [p [q [E H]]]. destruct p as [| b' p]; [discriminate |].
        simpl in E, H. inversion E; subst. inversion H.
        split; [congruence |]. exists p, q. auto.
Qed.

(** [contains_ci] decides the substring reading of the specification. *)
Lemma contains_ci_correct t : forall v, contains_ci t v = true <-> substring_ci t v.
Proof.
  intros v. rewrite substring_ci_lower. revert v.
  induction v as [| c v IH]; simpl.
  - rewrite orb_false_r, prefix_ci_correct. split.
    + intros [p [q [E H]]]. exists EmptyString, p, q. auto.
    + intros [pre [mid [post [E H]]]]. symmetry in E.
      apply append_nil_inv in E. destruct E as [-> E]. exists mid, post. auto.
  - rewrite orb_true_iff, IH, prefix_ci_correct. split.
    + intros [[p [q [E H]]] | [pre [mid [post [E H]]]]].
      * exists EmptyString, p, q. auto.
      * exists (String c pre), mid, post. subst v. auto.
    + intros [pre [mid [post [E H]]]]. destruct pre as [| c' pre].
      * left. exists mid, post. auto.
      * right. simpl in E. inversion E; subst. exists pre, mid, post. auto.
Qed.

Lemma parse_plain t : forall a its last,
  plain t = true ->
  parse t (mkFrame a its) [] last
  = Compiled (close (mkFrame a (rev (map Chr (list_ascii_of_string t)) ++ its))).
Proof.
  induction t as [| c t IH]; intros a its last Hp; [reflexivity |].
  simpl in Hp. apply andb_true_iff in Hp. destruct Hp as [Hc Hp].
  unfold is_plain in Hc. apply negb_true_iff in Hc.
  repeat (apply orb_false_iff in Hc; destruct Hc as [Hc ?]).
  cbn [parse]. rewrite Hc.
  repeat match goal with H : _ = false |- _ => rewrite H; clear H end.
  unfold push. cbn [alts items]. rewrite IH by assumption.
  cbn [list_ascii_of_string map rev]. rewrite <- app_assoc. reflexivity.
Qed.

Lemma sequence_literal t :
  sequence (rev (map Chr (list_ascii_of_string t))) = literal t.
Proof.
  unfold sequence. rewrite rev_involutive.
  induction t as [| c t IH]; simpl; [| rewrite IH]; reflexivity.
Qed.

(** A term of plain characters compiles to the pattern of its own text. *)
Lemma compile_plain t :
  plain t = true -> compile t = Compiled (Alt (literal t) Nothing).
Proof.
  intros Hp. unfold compile. rewrite parse_plain by assumption.
  unfold close. cbn [alts items]. rewrite app_nil_r, sequence_literal. reflexivity.
Qed.

Lemma search_literal t v : search (Alt (literal t) Nothing) v = contains_ci t v.
Proof.
  apply eq_true_iff_eq. rewrite search_correct, contains_ci_correct, substring_ci_lower.
  unfold found. split; intros [pre [mid [post [E H]]]];
    exists pre, mid, post; split; try assumption.
  - inversion H as [| | | | r1 r2 s H1 | r1 r2 s H1 | |]; subst;
      [apply matches_literal; assumption | inversion H1].
  - apply MAltL. apply matches_literal. assumption.
Qed.

(* ================================================================= *)
(** ** Regular expressions: [parse] reads the documented syntax *)













(** *** Soundness: what [parse] accepts is a text of the syntax *)














(* ================================================================= *)
(** ** Search *)

Lemma where_from_increasing mask : forall k,
  StronglySorted lt (where_from k mask) /\ Forall (fun i => k <= i) (where_from k mask).
Proof.
  induction mask as [| b mask IH]; intros k; simpl; [split; constructor |].
  destruct (IH (S k)) as [Hs Hall].
  assert (Hall' : Forall (fun i => k <= i) (where_from (S k) mask)).
  { eapply Forall_impl; [| exact Hall]. simpl. intros; lia. }
  destruct b; [| split; assumption].
  split.
  - constructor; [exact Hs |].
    eapply Forall_impl; [| exact Hall]. simpl. intros; lia.
  - constructor; [lia | exact Hall'].
Qed.

Lemma where_from_in mask : forall k i,
  In i (where_from k mask) <-> k <= i /\ nth (i - k) mask false = true.
Proof.
  induction mask as [| b mask IH]; intros k i; simpl.
  - split; [contradiction |]. intros [_ H]. destruct (i - k); discriminate.
  - assert (Hrec : In i (where_from (S k) mask) <->
                   k <= i /\ i <> k /\ nth (i - S k) mask false = true).
    { rewrite IH. split; intros H; repeat split; try lia; tauto. }
    destruct b; simpl; rewrite Hrec; split.
    + intros [<- | [Hle [Hne H]]]; [rewrite Nat.sub_diag; auto |].
      split; [lia |]. replace (i - k) with (S (i - S k)) by lia. exact H.
    + intros [Hle H]. destruct (Nat.eq_dec k i) as [-> | Hne]; [auto |].
      right. repeat split; [lia | congruence |].
      replace (i - k) with (S (i - S k)) in H by lia. exact H.
    + intros [Hle [Hne H]].
      split; [lia |]. replace (i - k) with (S (i - S k)) by lia. exact H.
    + intros [Hle H]. destruct (Nat.eq_dec k i) as [-> | Hne].
      * rewrite Nat.sub_diag in H. discriminate.
      * repeat split; [lia | congruence |].
        replace (i - k) with (S (i - S k)) in H by lia. exact H.
Qed.

(** A row is selected exactly when its entry is present and passes the test. *)
Lemma text_rows_in test xs i :
  In i (text_rows test xs) <->
  exists v, nth_error xs i = Some (Some v) /\ test v = true.
Proof.
  unfold text_rows, where_true. rewrite where_from_in, Nat.sub_0_r.
  set (g := fun c : option string => match c with Some v => test v | None => false end).
  rewrite (nth_map_default _ _ g xs None false i eq_refl).
  split.
  - intros [_ H]. destruct (nth_error xs i) as [c |] eqn:E.
    + rewrite (nth_error_nth xs i None E) in H. destruct c as [v |]; [| discriminate].
      exists v. auto.
    + apply nth_error_None in E. rewrite nth_overflow in H by exact E. discriminate.
  - intros [v [E H]]. split; [lia |]. rewrite (nth_error_nth xs i None E). exact H.
Qed.

Lemma round_scalar_cleaned df i col :
  cleaned df -> In col numeric_cols ->
  round_scalar (row_get df i col (SNum 0)) = Ok (rounded (row_get df i col (SNum 0))).
Proof.
  intros Hclean Hin. unfold row_get.
  destruct (column df col) as [s |] eqn:E; [| reflexivity].
  pose proof (proj2 (cleaned_columns df Hclean) col s Hin E) as Hdef.
  destruct s as [xs | xs]; simpl in Hdef.
  - rewrite Series_at_float. destruct (nth i xs None); reflexivity.
  - unfold Series_at. simpl.
    set (g := fun c : option string => match c with Some t => SStr t | None => SNaN end).
    rewrite (nth_map_default _ _ g xs None SNaN i eq_refl).
    rewrite (present_nil_nth _ xs i Hdef). reflexivity.
Qed.

Lemma recipe_row_cleaned with_diet df i :
  cleaned df -> recipe_row with_diet df i = Ok (recipe_entry with_diet df i).
Proof.
  intros Hclean. unfold recipe_row, recipe_entry.
  rewrite !(round_scalar_cleaned df i) by (try assumption; simpl; auto).
  reflexivity.
Qed.

Lemma recipe_row_take with_diet df idxs k :
  k < length idxs ->
  recipe_row with_diet (take df idxs) k = recipe_row with_diet df (nth k idxs 0).
Proof.
  intros Hk. unfold recipe_row. rewrite !row_get_take by exact Hk. reflexivity.
Qed.

(** The rows [search_recipes] reports once the pattern is compiled. *)
Lemma search_recipes_rows re_beyond term field df xs test cn bn :
  cleaned df ->
  column df field = Some (Object xs) ->
  re_compile re_beyond term = Ok test ->
  fst (search_recipes re_beyond term field (mkProcessor (Some df) cn bn))
  = Ok (map (recipe_entry true df) (text_rows test xs)).
Proof.
  intros Hclean Hcol Hre.
  unfold search_recipes, bind, get_data, lift. cbn [data]. cbn iota beta.
  rewrite Hcol. unfold str_contains. rewrite Hre. cbn [obind]. cbn iota beta.
  cbn [fst]. unfold select. fold (text_rows test xs).
  rewrite (omap_iterrows_take _ df (text_rows test xs) (recipe_row true)
             (recipe_row true df)).
  - rewrite (omap_ext_in _ _ _ (fun i => Ok (recipe_entry true df i))).
    + apply omap_ok.
    + intros i _. apply recipe_row_cleaned. exact Hclean.
  - intros k Hk. apply recipe_row_take. exact Hk.
Qed.



Lemma sample_names_ascii :
  forall v, In (Some v) [Some "A"; Some "B"; Some "C"] -> is_ascii v = true.
Proof.
  intros v [H | [H | [H | []]]]; inversion H; reflexivity.
Qed.


(** C3 (as amended).  For ASCII text: for a term without special
    characters and a text column of a cleaned table whose entries are
    ASCII, the search reports exactly the rows whose entry is present and
    contains the term as a substring, letter case ignored, and the empty
    list when there is none; when the table has no such column the result
    is the empty list; on a numeric column the search raises
    [AttributeError]. *)
Theorem search_plain_term :
  forall (re_beyond : string -> outcome (string -> bool)) (self : Processor)
         (df : DataFrame) (term field : string),
    data self = Some df -> cleaned df ->
    plain term = true -> is_ascii term = true ->
    match column df field with
    | None => fst (search_recipes re_beyond term field self) = Ok []
    | Some (Float64 _) =>
        fst (search_recipes re_beyond term field self) = Raise AttributeError
    | Some (Object xs) =>
        (forall v, In (Some v) xs -> is_ascii v = true) ->
        fst (search_recipes re_beyond term field self)
        = Ok (map (recipe_entry true df) (text_rows (contains_ci term) xs)) /\
        (forall i, In i (text_rows (contains_ci term) xs) <->
                   exists v, nth_error xs i = Some (Some v) /\ substring_ci term v) /\
        ((forall v, In (Some v) xs -> ~ substring_ci term v) ->
         fst (search_recipes re_beyond term field self) = Ok [])
    end.
Proof.
  intros re_beyond [d cn bn] df term field Hd Hclean Hplain _. simpl in Hd. subst d.
  destruct (column df field) as [[xs | xs] |] eqn:Hcol.
  - unfold search_recipes, bind, get_data, lift. cbn [data]. cbn iota beta.
    rewrite Hcol. reflexivity.
  - intros _.
    assert (Hrows : forall i, In i (text_rows (contains_ci term) xs) <->
                    exists v, nth_error xs i = Some (Some v) /\ substring_ci term v).
    { intros i. rewrite text_rows_in. split; intros [v [E H]]; exists v; split;
        try assumption; apply contains_ci_correct; assumption. }
    assert (Hres : fst (search_recipes re_beyond term field (mkProcessor (Some df) cn bn))
                   = Ok (map (recipe_entry true df) (text_rows (contains_ci term) xs))).
    { rewrite (search_recipes_rows re_beyond term field df xs
                 (search (Alt (literal term) Nothing)) cn bn Hclean Hcol).
      - f_equal. f_equal. unfold text_rows. f_equal. apply map_ext.
        intros [v |]; [apply search_literal | reflexivity].
      - unfold re_compile. rewrite (compile_plain term Hplain). reflexivity. }
    split; [exact Hres |]. split; [exact Hrows |].
    intros Hnone. rewrite Hres.
    destruct (text_rows (contains_ci term) xs) as [| i rest] eqn:E; [reflexivity |].
    exfalso. destruct (proj1 (Hrows i)) as [v [Hv Hs]]; [left; reflexivity |].
    apply (Hnone v); [| exact Hs]. eapply nth_error_In. exact Hv.
  - unfold search_recipes, bind, get_data, lift. cbn [data]. cbn iota beta.
    rewrite Hcol. reflexivity.
Qed.

Lemma search_plain_term_witness :
  fst (search_recipes no_extension "b" "Recipe_name" (holding sample_table))
  = Ok [recipe_entry true sample_table 1].
Proof.
  exact (proj1 (search_plain_term no_extension (holding sample_table) sample_table
                  "b" "Recipe_name" eq_refl sample_table_cleaned eq_refl eq_refl
                  sample_names_ascii)).
Defined.

(** C3 as stated fails: the term "." is in none of the recipe names, yet
    the search reports all three recipes; and the term "(" raises. *)
Lemma search_dot_counterexample :
  fst (search_recipes no_extension "." "Recipe_name" (holding sample_table))
  = Ok [recipe_entry true sample_table 0; recipe_entry true sample_table 1;
        recipe_entry true sample_table 2] /\
  forallb (fun v => negb (contains_ci "." v)) ["A"; "B"; "C"] = true /\
  fst (search_recipes no_extension "(" "Recipe_name" (holding sample_table))
  = Raise ReError.
Proof. repeat split; reflexivity. Qed.

(* ================================================================= *)
(** * Further properties of the engine *)

(** ** Recipes of a diet type *)

Lemma rows_of_diet_in diet_col v i :
  In i (rows_of_diet diet_col v) <->
  exists c, nth_error (Series_cells diet_col) i = Some c /\ scalar_eqb c v = true.
Proof.
  unfold rows_of_diet, where_true, mask_eq. rewrite where_from_in, Nat.sub_0_r.
  rewrite (nth_map_default _ _ (fun c => scalar_eqb c v) (Series_cells diet_col)
             SNaN false i eq_refl).
  split.
  - intros [_ H]. destruct (nth_error (Series_cells diet_col) i) as [c |] eqn:E.
    + rewrite (nth_error_nth _ i SNaN E) in H. exists c. auto.
    + apply nth_error_None in E. rewrite nth_overflow in H by exact E. discriminate.
  - intros [c [E H]]. split; [lia |]. rewrite (nth_error_nth _ i SNaN E). exact H.
Qed.

Lemma scalar_eqb_text c d : scalar_eqb c (SStr d) = true <-> c = SStr d.
Proof.
  destruct c; simpl; split; try discriminate; intros H.
  - apply String.eqb_eq in H. congruence.
  - inversion H. apply String.eqb_refl.
Qed.

Lemma recipes_by_diet_type_run df diet_col d cn bn :
  cleaned df -> column df "Diet_type" = Some diet_col ->
  fst (get_recipes_by_diet_type d (mkProcessor (Some df) cn bn))
  = Ok (map (recipe_entry false df) (rows_of_diet diet_col (SStr d))).
Proof.
  intros Hclean Hcol.
  unfold get_recipes_by_diet_type, bind, get_data, lift. cbn [data]. cbn iota beta.
  rewrite Hcol. cbn [fst]. unfold select. fold (rows_of_diet diet_col (SStr d)).
  rewrite (omap_iterrows_take _ df (rows_of_diet diet_col (SStr d)) (recipe_row false)
             (recipe_row false df)).
  - rewrite (omap_ext_in _ _ _ (fun i => Ok (recipe_entry false df i))).
    + apply omap_ok.
    + intros i _. apply recipe_row_cleaned. exact Hclean.
  - intros k Hk. apply recipe_row_take. exact Hk.
Qed.

(** X1.  On a cleaned table the listing by diet type reports, in row order,
    exactly the rows whose diet type is the given text, letter for letter;
    without a diet type column it is empty. *)
Theorem recipes_by_diet_type_rows :
  forall (self : Processor) (df : DataFrame) (d : string),
    data self = Some df -> cleaned df ->
    match column df "Diet_type" with
    | None => fst (get_recipes_by_diet_type d self) = Ok []
    | Some diet_col =>
        fst (get_recipes_by_diet_type d self)
        = Ok (map (recipe_entry false df) (rows_of_diet diet_col (SStr d))) /\
        StronglySorted lt (rows_of_diet diet_col (SStr d)) /\
        (forall i, In i (rows_of_diet diet_col (SStr d)) <->
                   nth_error (Series_cells diet_col) i = Some (SStr d))
    end.
Proof.
  intros [dt cn bn] df d Hd Hclean. simpl in Hd. subst dt.
  destruct (column df "Diet_type") as [diet_col |] eqn:Hcol.
  - split; [apply recipes_by_diet_type_run; assumption |]. split.
    + apply where_from_increasing.
    + intros i. rewrite rows_of_diet_in. split.
      * intros [c [E H]]. apply scalar_eqb_text in H. congruence.
      * intros E. exists (SStr d). split; [exact E |]. apply scalar_eqb_text. reflexivity.
  - unfold get_recipes_by_diet_type, bind, get_data. cbn [data]. cbn iota beta.
    rewrite Hcol. reflexivity.
Qed.

Lemma recipes_by_diet_type_rows_witness :
  fst (get_recipes_by_diet_type "vegan" (holding sample_table))
  = Ok [recipe_entry false sample_table 0; recipe_entry false sample_table 1].
Proof.
  exact (proj1 (recipes_by_diet_type_rows (holding sample_table) sample_table "vegan"
                  eq_refl sample_table_cleaned)).
Defined.

(** X2.  On a cleaned table the diet comparison and the listing by diet type
    agree: the [total_recipes] of the entry for a diet type is the number of
    recipes the listing returns for it. *)
Theorem comparison_counts_listing :
  forall (self : Processor) (df : DataFrame) (d : string)
         (entries : list diet_info) (recipes : list recipe_info),
    data self = Some df -> cleaned df ->
    fst (get_diet_comparison_data self) = Ok entries ->
    fst (get_recipes_by_diet_type d self) = Ok recipes ->
    forall e, In e entries -> di_diet_type e = SStr d ->
              di_total_recipes e = length recipes.
Proof.
  intros [dt cn bn] df d entries recipes Hd Hclean Hcmp Hrec e He Hde.
  simpl in Hd. subst dt.
  destruct (column df "Diet_type") as [diet_col |] eqn:Hcol.
  2:{ unfold get_diet_comparison_data, get_macronutrient_averages, bind, get_data in Hcmp.
      cbn [data] in Hcmp. cbn iota beta in Hcmp. rewrite Hcol in Hcmp.
      simpl in Hcmp. inversion Hcmp; subst. contradiction. }
  destruct (filter (has_column df) macro_cols) as [| c0 rest] eqn:Havail.
  { unfold get_diet_comparison_data, get_macronutrient_averages, bind, get_data in Hcmp.
    cbn [data] in Hcmp. cbn iota beta in Hcmp. rewrite Hcol, Havail in Hcmp.
    simpl in Hcmp. inversion Hcmp; subst. contradiction. }
  rewrite (diet_comparison_cleaned df diet_col cn bn Hclean Hcol) in Hcmp
    by (rewrite Havail; discriminate).
  rewrite (recipes_by_diet_type_run df diet_col d cn bn Hclean Hcol) in Hrec.
  inversion Hcmp; subst entries. inversion Hrec; subst recipes.
  apply in_map_iff in He. destruct He as [v [<- _]]. simpl in Hde. subst v.
  rewrite length_map. reflexivity.
Qed.

Lemma comparison_counts_listing_witness :
  di_total_recipes
    (mkDietInfo (SStr "vegan") (Some 20%Q) (Some 15%Q) (Some (7 # 2)%Q) 2)
  = length [recipe_entry false sample_table 0; recipe_entry false sample_table 1].
Proof.
  apply (comparison_counts_listing (holding sample_table) sample_table "vegan"
           [ mkDietInfo (SStr "vegan") (Some 20%Q) (Some 15%Q) (Some (7 # 2)%Q) 2;
             mkDietInfo (SStr "keto") (Some 5%Q) (Some 5%Q) (Some 25%Q) 1 ]
           _ eq_refl sample_table_cleaned eq_refl eq_refl).
  - left. reflexivity.
  - reflexivity.
Defined.

(** ** Cuisine distribution *)

Lemma sum_nat_perm l l' : Permutation l l' -> sum_nat l = sum_nat l'.
Proof. induction 1; simpl; lia. Qed.

Lemma Series_cells_take idxs s :
  Series_cells (Series_take idxs s) = map (Series_at s) idxs.
Proof.
  unfold Series_at. destruct s as [xs | xs]; simpl; rewrite map_map; apply map_ext;
    intros i; symmetry.
  - apply (nth_map_default _ _ scalar_of_float xs None SNaN i eq_refl).
  - apply (nth_map_default _ _
             (fun c : option string => match c with Some t => SStr t | None => SNaN end)
             xs None SNaN i eq_refl).
Qed.

Lemma Series_at_present s i :
  Forall (fun c => c <> SNaN) (Series_cells s) -> i < Series_len s ->
  Series_at s i <> SNaN.
Proof.
  intros Hall Hi. unfold Series_at. rewrite Forall_forall in Hall. apply Hall.
  apply nth_In. rewrite Series_cells_length. exact Hi.
Qed.

(** The counts of [value_counts] add up to the number of entries that are
    not missing, and come largest first. *)
Lemma value_counts_sum s :
  sum_nat (map snd (value_counts s))
  = length (filter (fun c => negb (scalar_same c SNaN)) (Series_cells s)).
Proof.
  unfold value_counts, sort_desc.
  set (cells := filter (fun c => negb (scalar_same c SNaN)) (Series_cells s)).
  rewrite (sum_nat_perm _ _ (Permutation_map snd (sort_by_perm _ _ _))).
  rewrite map_map. cbn [snd].
  apply (sum_counts_distinct _ scalar_same scalar_same_refl scalar_same_sym
           scalar_same_trans).
Qed.

Lemma value_counts_sorted s :
  StronglySorted (fun a b : scalar * nat => snd b <= snd a) (value_counts s).
Proof.
  unfold value_counts, sort_desc.
  eapply StronglySorted_weaken; [| apply sort_by_sorted].
  - intros a b H. apply Nat.leb_le. exact H.
  - intros x y. rewrite !Nat.leb_le. lia.
  - intros x y z. rewrite !Nat.leb_le. lia.
Qed.

Lemma filter_all A (f : A -> bool) l : Forall (fun x => f x = true) l -> filter f l = l.
Proof. induction 1 as [| x l Hx _ IH]; simpl; [| rewrite Hx, IH]; reflexivity. Qed.

Lemma rows_of_diet_bound diet_col v i :
  In i (rows_of_diet diet_col v) -> i < Series_len diet_col.
Proof.
  intros H. apply rows_of_diet_in in H. destruct H as [c [E _]].
  rewrite <- Series_cells_length. apply nth_error_Some. congruence.
Qed.

Lemma cuisine_distribution_run df diet_col cuisine_col cn bn :
  column df "Diet_type" = Some diet_col ->
  column df "Cuisine_type" = Some cuisine_col ->
  fst (get_cuisine_distribution (mkProcessor (Some df) cn bn))
  = Ok (map (fun v => (v, value_counts (Series_take (rows_of_diet diet_col v) cuisine_col)))
            (Series_unique diet_col)).
Proof.
  intros Hd Hc. unfold get_cuisine_distribution, bind, get_data, lift.
  cbn [data]. cbn iota beta. rewrite Hd, Hc. cbn [fst].
  rewrite (omap_ext_in _ _ _
             (fun v => Ok (v, value_counts
                                (Series_take (rows_of_diet diet_col v) cuisine_col)))).
  - apply omap_ok.
  - intros v _. unfold getitem, select. rewrite column_take, Hc. reflexivity.
Qed.

(** X3.  On a cleaned, well-formed table with a diet type and a cuisine
    column, the cuisine distribution has one entry per distinct diet type;
    the counts of an entry come largest first and add up to the number of
    recipes of that diet type, and all counts together add up to the row
    count.  Without one of the two columns the distribution is empty. *)
Theorem cuisine_distribution_counts :
  forall (self : Processor) (df : DataFrame),
    data self = Some df -> cleaned df -> well_formed df ->
    match column df "Diet_type", column df "Cuisine_type" with
    | Some diet_col, Some cuisine_col =>
        exists dist,
          fst (get_cuisine_distribution self) = Ok dist /\
          map fst dist = Series_unique diet_col /\
          (forall v counts, In (v, counts) dist ->
             sum_nat (map snd counts) = length (rows_of_diet diet_col v) /\
             StronglySorted (fun a b : scalar * nat => snd b <= snd a) counts) /\
          sum_nat (map (fun e => sum_nat (map snd (snd e))) dist) = index_len df
    | _, _ => fst (get_cuisine_distribution self) = Ok []
    end.
Proof.
  intros [dt cn bn] df Hd Hclean Hwf. simpl in Hd. subst dt.
  destruct (column df "Diet_type") as [diet_col |] eqn:Hdiet.
  2:{ unfold get_cuisine_distribution, bind, get_data. cbn [data]. cbn iota beta.
      rewrite Hdiet. reflexivity. }
  destruct (column df "Cuisine_type") as [cuisine_col |] eqn:Hcui.
  2:{ unfold get_cuisine_distribution, bind, get_data. cbn [data]. cbn iota beta.
      rewrite Hdiet, Hcui. reflexivity. }
  pose proof (well_formed_column df _ _ Hwf Hdiet) as Hlen_d.
  pose proof (well_formed_column df _ _ Hwf Hcui) as Hlen_c.
  assert (Hcells_d : Forall (fun c => c <> SNaN) (Series_cells diet_col)).
  { apply no_missing_cells.
    apply (proj1 (cleaned_columns df Hclean) "Diet_type" diet_col); simpl; auto. }
  assert (Hcells_c : Forall (fun c => c <> SNaN) (Series_cells cuisine_col)).
  { apply no_missing_cells.
    apply (proj1 (cleaned_columns df Hclean) "Cuisine_type" cuisine_col); simpl; auto. }
  assert (Hsum : forall v,
             sum_nat (map snd (value_counts
                                 (Series_take (rows_of_diet diet_col v) cuisine_col)))
             = length (rows_of_diet diet_col v)).
  { intros v. rewrite value_counts_sum, Series_cells_take.
    rewrite filter_all; [apply length_map |].
    apply Forall_forall. intros c Hc. apply in_map_iff in Hc.
    destruct Hc as [i [<- Hi]].
    assert (Hne : Series_at cuisine_col i <> SNaN).
    { apply Series_at_present; [exact Hcells_c |].
      rewrite Hlen_c, <- Hlen_d. eapply rows_of_diet_bound. exact Hi. }
    destruct (Series_at cuisine_col i); simpl; congruence. }
  eexists. split; [apply cuisine_distribution_run; eassumption |].
  split; [rewrite map_map; apply map_id |]. split.
  - intros v counts Hin. apply in_map_iff in Hin. destruct Hin as [v' [E _]].
    inversion E; subst. split; [apply Hsum | apply value_counts_sorted].
  - rewrite map_map. cbn [snd].
    rewrite (map_ext _ (fun v => count scalar_same v (Series_cells diet_col))).
    + unfold Series_unique.
      rewrite (sum_counts_distinct _ scalar_same scalar_same_refl scalar_same_sym
                 scalar_same_trans).
      rewrite Series_cells_length. exact Hlen_d.
    + intros v. rewrite Hsum. apply rows_of_diet_count. exact Hcells_d.
Qed.

Lemma cuisine_distribution_counts_witness :
  exists dist,
    fst (get_cuisine_distribution (holding sample_table)) = Ok dist /\
    sum_nat (map (fun e => sum_nat (map snd (snd e))) dist) = 3.
Proof.
  destruct (cuisine_distribution_counts (holding sample_table) sample_table eq_refl
              sample_table_cleaned sample_table_well_formed)
    as [dist [H1 [_ [_ H4]]]].
  exists dist. split; [exact H1 | exact H4].
Defined.

(** ** Summary *)

Lemma mem_map A B (f : A -> B) (eqa : A -> A -> bool) (eqb : B -> B -> bool) :
  (forall x y, eqb (f x) (f y) = eqa x y) ->
  forall x seen, mem eqb (f x) (map f seen) = mem eqa x seen.
Proof.
  intros H x seen. induction seen as [| y seen IH]; simpl; [reflexivity |].
  rewrite H, IH. reflexivity.
Qed.

Lemma distinct_acc_map A B (f : A -> B) (eqa : A -> A -> bool) (eqb : B -> B -> bool) :
  (forall x y, eqb (f x) (f y) = eqa x y) ->
  forall l seen,
    distinct_acc eqb (map f seen) (map f l) = map f (distinct_acc eqa seen l).
Proof.
  intros H. induction l as [| x l IH]; intros seen; simpl; [reflexivity |].
  rewrite (mem_map _ _ f eqa eqb H). destruct (mem eqa x seen).
  - apply IH.
  - simpl. f_equal. apply (IH (x :: seen)).
Qed.

Lemma count_map A B (f : A -> B) (eqa : A -> A -> bool) (eqb : B -> B -> bool) :
  (forall x y, eqb (f x) (f y) = eqa x y) ->
  forall x l, count eqb (f x) (map f l) = count eqa x l.
Proof.
  intros H x l. induction l as [| y l IH]; simpl; [reflexivity |].
  rewrite H, IH. reflexivity.
Qed.

Lemma distinct_acc_length A (eqb : A -> A -> bool) l : forall seen,
  length (distinct_acc eqb seen l) <= length l.
Proof.
  induction l as [| x l IH]; intros seen; simpl; [lia |].
  destruct (mem eqb x seen); simpl; [specialize (IH seen) | specialize (IH (x :: seen))];
    lia.
Qed.

Lemma cells_of_present_num xs :
  existsb is_missing xs = false ->
  Series_cells (Float64 xs) = map SNum (present xs).
Proof.
  simpl. induction xs as [| [q |] xs IH]; simpl; intros H; try discriminate.
  - reflexivity.
  - rewrite IH by assumption. reflexivity.
Qed.

Lemma cells_of_present_str xs :
  existsb is_missing xs = false ->
  Series_cells (Object xs) = map SStr (present xs).
Proof.
  simpl. induction xs as [| [q |] xs IH]; simpl; intros H; try discriminate.
  - reflexivity.
  - rewrite IH by assumption. reflexivity.
Qed.

Lemma count_other_kind :
  (forall w l, count scalar_same (SStr w) (map SNum l) = 0) /\
  (forall w l, count scalar_same (SNum w) (map SStr l) = 0) /\
  (forall A (h : A -> scalar) (l : list A),
      (forall a, h a <> SNaN) -> count scalar_same SNaN (map h l) = 0).
Proof.
  repeat split.
  - intros w l. induction l; simpl; auto.
  - intros w l. induction l; simpl; auto.
  - intros A h l Hh. induction l as [| a l IH]; simpl; [reflexivity |].
    specialize (Hh a). destruct (h a); simpl; congruence.
Qed.

(** The distinct values, their number and the mode of a column without
    missing entries fit together. *)
Lemma summarises_column s :
  Series_has_missing s = false ->
  summarises s (Series_nunique s) (Series_unique s) (fill_value_of (Series_mode s)).
Proof.
  intros Hm. unfold summarises.
  pose proof (no_missing_cells s Hm) as Hcells.
  assert (Hlisted : Forall (fun v => v <> SNaN) (Series_unique s)).
  { apply Forall_forall. intros v Hv. unfold Series_unique, distinct in Hv.
    apply distinct_acc_in in Hv. rewrite Forall_forall in Hcells. auto. }
  assert (Hlen : length (Series_unique s) <= Series_len s).
  { rewrite <- Series_cells_length. apply distinct_acc_length. }
  destruct count_other_kind as [Hc1 [Hc2 Hc3]].
  destruct s as [xs | xs]; simpl in Hm.
  - assert (Hu : Series_unique (Float64 xs) = map SNum (distinct Qeq_bool (present xs))).
    { unfold Series_unique, distinct. rewrite (cells_of_present_num xs Hm).
      apply (distinct_acc_map _ _ SNum Qeq_bool scalar_same (fun x y => eq_refl) _ []). }
    split; [cbn [Series_nunique]; rewrite Hu, length_map; reflexivity |].
    split; [cbn [Series_nunique] in *; rewrite Hu, length_map in Hlen; exact Hlen |].
    split; [exact Hlisted |]. split; [apply distinct_acc_pairwise |].
    assert (Hplen : length (present xs) = length xs).
    { rewrite <- (length_map SNum), <- (cells_of_present_num xs Hm).
      apply Series_cells_length. }
    cbn [Series_len Series_mode]. unfold mode_num. split.
    + intros H0. rewrite H0 in Hplen. destruct (present xs); [reflexivity | discriminate].
    + intros Hpos. destruct (present xs) as [| x l] eqn:Ep; [simpl in Hplen; lia |].
      destruct (mode_num_head (x :: l)) as [v [rest [Hmode [Hin [Hmax _]]]]];
        [discriminate |].
      rewrite Hmode. cbn [map fill_value_of]. split.
      * destruct (distinct_covers _ Qeq_bool Qeq_bool_refl (x :: l) v Hin) as [y [Hy Hvy]].
        exists (SNum y). split; [| exact Hvy].
        rewrite Hu, ?Ep. apply in_map. exact Hy.
      * intros w. rewrite (cells_of_present_num xs Hm), Ep.
        rewrite (count_map _ _ SNum Qeq_bool scalar_same (fun x y => eq_refl) v).
        destruct w as [| q | t].
        -- rewrite Hc3 by discriminate. lia.
        -- rewrite (count_map _ _ SNum Qeq_bool scalar_same (fun x y => eq_refl) q).
           apply Hmax.
        -- rewrite Hc1. lia.
  - assert (Hu : Series_unique (Object xs) = map SStr (distinct String.eqb (present xs))).
    { unfold Series_unique, distinct. rewrite (cells_of_present_str xs Hm).
      apply (distinct_acc_map _ _ SStr String.eqb scalar_same (fun x y => eq_refl) _ []). }
    split; [cbn [Series_nunique]; rewrite Hu, length_map; reflexivity |].
    split; [cbn [Series_nunique] in *; rewrite Hu, length_map in Hlen; exact Hlen |].
    split; [exact Hlisted |]. split; [apply distinct_acc_pairwise |].
    assert (Hplen : length (present xs) = length xs).
    { rewrite <- (length_map SStr), <- (cells_of_present_str xs Hm).
      apply Series_cells_length. }
    cbn [Series_len Series_mode]. unfold mode_str. split.
    + intros H0. rewrite H0 in Hplen. destruct (present xs); [reflexivity | discriminate].
    + intros Hpos. destruct (present xs) as [| x l] eqn:Ep; [simpl in Hplen; lia |].
      destruct (mode_str_head (x :: l)) as [v [rest [Hmode [Hin [Hmax _]]]]];
        [discriminate |].
      rewrite Hmode. cbn [map fill_value_of]. split.
      * destruct (distinct_covers _ String.eqb String.eqb_refl (x :: l) v Hin)
          as [y [Hy Hvy]].
        exists (SStr y). split; [| exact Hvy].
        rewrite Hu, ?Ep. apply in_map. exact Hy.
      * intros w. rewrite (cells_of_present_str xs Hm), Ep.
        rewrite (count_map _ _ SStr String.eqb scalar_same (fun x y => eq_refl) v).
        destruct w as [| q | t].
        -- rewrite Hc3 by discriminate. lia.
        -- rewrite Hc2. lia.
        -- rewrite (count_map _ _ SStr String.eqb scalar_same (fun x y => eq_refl) t).
           apply Hmax.
Qed.

(** X4.  On a cleaned table the summary is consistent: the row count is
    that of the table; for the diet type column the number of types is the
    length of the list of types, which has no repeats and no missing value,
    and the most common type is one of the listed types and no type occurs
    more often (or is "Unknown" when the table has no rows); the same holds
    for the number of cuisines and the most common cuisine; a column the
    table lacks gives 0, the empty list and "Unknown". *)
Theorem diet_summary_consistent :
  forall (self : Processor) (df : DataFrame),
    data self = Some df -> cleaned df ->
    exists s,
      fst (get_diet_summary self) = Ok (Some s) /\
      total_recipes s = index_len df /\
      match column df "Diet_type" with
      | Some diet_col =>
          summarises diet_col (total_diet_types s) (diet_types s) (most_common_diet s)
      | None =>
          total_diet_types s = 0 /\ diet_types s = [] /\
          most_common_diet s = SStr "Unknown"
      end /\
      match column df "Cuisine_type" with
      | Some cuisine_col =>
          summarises cuisine_col (total_cuisine_types s) (Series_unique cuisine_col)
            (most_common_cuisine s)
      | None => total_cuisine_types s = 0 /\ most_common_cuisine s = SStr "Unknown"
      end.
Proof.
  intros [dt cn bn] df Hd Hclean. simpl in Hd. subst dt.
  pose proof (proj1 (cleaned_columns df Hclean)) as Hcat.
  eexists. split; [reflexivity |]. cbn [total_recipes total_diet_types diet_types
    most_common_diet total_cuisine_types most_common_cuisine].
  split; [reflexivity |]. unfold nunique_or_0, most_common. split.
  - destruct (column df "Diet_type") as [s |] eqn:E; [| auto].
    apply summarises_column. apply (Hcat "Diet_type" s); simpl; auto.
  - destruct (column df "Cuisine_type") as [s |] eqn:E; [| auto].
    apply summarises_column. apply (Hcat "Cuisine_type" s); simpl; auto.
Qed.

Lemma diet_summary_consistent_witness :
  exists s,
    fst (get_diet_summary (holding sample_table)) = Ok (Some s) /\
    total_recipes s = 3.
Proof.
  destruct (diet_summary_consistent (holding sample_table) sample_table eq_refl
              sample_table_cleaned) as [s [H1 [H2 _]]].
  exists s. split; [exact H1 | exact H2].
Defined.

(** ** Top lists of different lengths *)

Lemma top_recipes_few argsort df nutrient n xs cn bn :
  column df (nutrient ++ "(g)")%string = Some (Float64 xs) ->
  (n < Z.of_nat (length xs))%Z ->
  fst (get_top_recipes_by_nutrient argsort nutrient n (mkProcessor (Some df) cn bn))
  = Ok (map (top_row df nutrient xs)
          (if (n <=? 0)%Z then [] else firstn (Z.to_nat n) (nlargest_order xs))).
Proof.
  intros Hcol Hn. apply top_recipes_rows; [exact Hcol |]. unfold nlargest.
  destruct (Z.leb_spec n 0) as [_ | _]; [reflexivity |].
  destruct (Z.leb_spec (Z.of_nat (length xs)) n) as [Hge | _]; [lia | reflexivity].
Qed.

(** X8.  Below the row count top lists are nested: when the query is asked
    for fewer recipes than the table has rows, and returns, it returns for
    every smaller count [n] the first [n] entries of that answer.  (Asked
    for all rows the query sorts in another way, and rows of equal value
    may then change places.) *)
Theorem top_lists_nested :
  forall (argsort : list Q -> list nat) (self : Processor) (df : DataFrame)
         (nutrient : string) (n m : Z) (rows_m : list top_recipe),
    data self = Some df -> well_formed df ->
    (n <= m)%Z -> (m < Z.of_nat (index_len df))%Z ->
    fst (get_top_recipes_by_nutrient argsort nutrient m self) = Ok rows_m ->
    fst (get_top_recipes_by_nutrient argsort nutrient n self)
    = Ok (firstn (Z.to_nat n) rows_m).
Proof.
  intros argsort [d cn bn] df nutrient n m rows_m Hd Hwf Hnm Hrows Hm.
  simpl in Hd. subst d.
  destruct (column df (nutrient ++ "(g)")%string) as [[xs | xs] |] eqn:Hcol.
  - pose proof (well_formed_column df _ _ Hwf Hcol) as Hlen. simpl in Hlen.
    rewrite (top_recipes_few argsort df nutrient m xs cn bn Hcol) in Hm by lia.
    rewrite (top_recipes_few argsort df nutrient n xs cn bn Hcol) by lia.
    inversion Hm; subst rows_m. f_equal. rewrite firstn_map. f_equal.
    destruct (Z.leb_spec n 0) as [Hn | Hn].
    + replace (Z.to_nat n) with 0 by lia. reflexivity.
    + destruct (Z.leb_spec m 0) as [Hm0 | Hm0]; [lia |].
      rewrite firstn_firstn. f_equal. lia.
  - unfold get_top_recipes_by_nutrient, bind, get_data, lift in Hm.
    cbn iota beta in Hm. cbn [data] in Hm. rewrite Hcol in Hm. simpl in Hm. discriminate.
  - unfold get_top_recipes_by_nutrient, bind, get_data, lift in Hm |- *.
    cbn iota beta in Hm |- *. cbn [data] in Hm |- *. rewrite Hcol in Hm |- *.
    simpl in Hm. inversion Hm. rewrite firstn_nil. reflexivity.
Qed.

Lemma top_lists_nested_witness :
  fst (get_top_recipes_by_nutrient stable_argsort "Protein" 1 (holding sample_table))
  = Ok (firstn (Z.to_nat 1)
          [ top_row sample_table "Protein" [Some 10%Q; Some 30%Q; Some 5%Q] 1;
            top_row sample_table "Protein" [Some 10%Q; Some 30%Q; Some 5%Q] 0 ]).
Proof.
  apply (top_lists_nested stable_argsort (holding sample_table) sample_table
           "Protein" 1 2 _ eq_refl sample_table_well_formed);
    [lia | simpl; lia | reflexivity].
Defined.

(** ** The letter case of a search term *)

Lemma contains_ci_term_case t t' v :
  lower_str t = lower_str t' -> contains_ci t v = contains_ci t' v.
Proof.
  intros H. apply eq_true_iff_eq. rewrite !contains_ci_correct, !substring_ci_lower.
  rewrite H. reflexivity.
Qed.

(** X9.  For terms without special characters the letter case of the term
    does not matter: two terms that differ only in letter case give the
    same search result, whatever the table and the field. *)
Theorem search_ignores_term_case :
  forall (re_beyond : string -> outcome (string -> bool)) (self : Processor)
         (t t' field : string),
    plain t = true -> plain t' = true -> lower_str t = lower_str t' ->
    search_recipes re_beyond t field self = search_recipes re_beyond t' field self.
Proof.
  intros re_beyond self t t' field Ht Ht' Hl.
  unfold search_recipes, bind, get_data. cbn iota beta.
  destruct (data self) as [df |]; [| reflexivity].
  destruct (column df field) as [s |]; [| reflexivity].
  assert (Hmask : str_contains re_beyond s t = str_contains re_beyond s t').
  { unfold str_contains. destruct s as [xs | xs]; [reflexivity |].
    unfold re_compile. rewrite (compile_plain t Ht), (compile_plain t' Ht').
    cbn [obind]. f_equal. apply map_ext. intros [v |]; [| reflexivity].
    rewrite !search_literal. apply contains_ci_term_case. exact Hl. }
  rewrite Hmask. reflexivity.
Qed.

Lemma search_ignores_term_case_witness :
  search_recipes no_extension "b" "Recipe_name" (holding sample_table)
  = search_recipes no_extension "B" "Recipe_name" (holding sample_table).
Proof.
  apply search_ignores_term_case; reflexivity.
Defined.

(** ** The shape of the table under cleaning and loading *)

Lemma replace_col_names col s l :
  lookup col l <> None -> map fst (replace_col col s l) = map fst l.
Proof.
  induction l as [| [k v] l IH]; simpl; [congruence |].
  destruct (String.eqb col k) eqn:E; simpl; [reflexivity |].
  intros H. rewrite IH by exact H. reflexivity.
Qed.

Lemma replace_col_lengths col s s0 l n :
  lookup col l = Some s0 -> Series_len s = Series_len s0 ->
  Forall (fun c : string * Series => Series_len (snd c) = n) l ->
  Forall (fun c : string * Series => Series_len (snd c) = n) (replace_col col s l).
Proof.
  intros Hl Hs Hall. induction Hall as [| [k v] l Hk Hall IH]; simpl in *; [discriminate |].
  destruct (String.eqb col k) eqn:E.
  - inversion Hl; subst. constructor; [simpl in *; congruence | exact Hall].
  - constructor; [exact Hk | apply IH; exact Hl].
Qed.

Lemma fill_length A (v : A) xs : length (fill v xs) = length xs.
Proof. apply length_map. Qed.

Lemma fillna_length v s : Series_len (fillna v s) = Series_len s.
Proof.
  destruct v, s; simpl; try reflexivity; try apply length_map.
  destruct (existsb is_missing xs); simpl; [apply length_map | reflexivity].
Qed.

Lemma fill_with_mean_length s s' : fill_with_mean s = Ok s' -> Series_len s' = Series_len s.
Proof.
  unfold fill_with_mean. destruct (Series_mean s) as [m | e]; simpl; intros H;
    inversion H. apply fillna_length.
Qed.

Lemma fill_with_mode_length s s' : fill_with_mode s = Ok s' -> Series_len s' = Series_len s.
Proof. unfold fill_with_mode. intros H. inversion H. apply fillna_length. Qed.

Lemma run_steps_shape steps : forall df,
  Forall (fun st : string * (Series -> outcome Series) =>
            forall s s', snd st s = Ok s' -> Series_len s' = Series_len s) steps ->
  map fst (columns (snd (run_steps steps df))) = map fst (columns df) /\
  (well_formed df -> well_formed (snd (run_steps steps df))).
Proof.
  induction steps as [| [col f] rest IH]; intros df Hall; simpl; [auto |].
  inversion Hall as [| ? ? Hf Hall']; subst. simpl in Hf.
  destruct (clean_column_on f col df) as [df1 | e] eqn:E; simpl; [| auto].
  destruct (IH df1 Hall') as [Hnames Hwf].
  unfold clean_column_on in E. destruct (column df col) as [s |] eqn:Ec.
  - destruct (f s) as [s' | e] eqn:Ef; simpl in E; inversion E; subst df1.
    split.
    + rewrite Hnames. simpl. apply replace_col_names. unfold column in Ec. congruence.
    + intros H. apply Hwf. unfold well_formed in *. simpl.
      eapply replace_col_lengths; [exact Ec | apply Hf; exact Ef | exact H].
  - inversion E; subst df1. auto.
Qed.

(** X6.  Cleaning keeps the shape of the table, whether it returns or
    raises: the row count, the column names in their order, the rule that
    every column is as long as the index, and the other fields of the
    processor. *)
Theorem cleaning_keeps_shape :
  forall (self : Processor) (df : DataFrame),
    data self = Some df ->
    exists df',
      snd (_clean_data self)
      = mkProcessor (Some df') (container_name self) (blob_name self) /\
      index_len df' = index_len df /\
      map fst (columns df') = map fst (columns df) /\
      (well_formed df -> well_formed df').
Proof.
  intros [dt cn bn] df Hd. simpl in Hd. subst dt.
  exists (snd (run_steps cleaning_steps df)).
  rewrite clean_data_run. cbn [snd container_name blob_name].
  split; [reflexivity |]. split; [apply run_steps_index |].
  apply run_steps_shape. unfold cleaning_steps, numeric_cols, categorical_cols. simpl.
  repeat constructor; simpl; auto using fill_with_mean_length, fill_with_mode_length.
Qed.

Lemma cleaning_keeps_shape_witness :
  exists df',
    snd (_clean_data (holding sample_raw)) = holding df' /\ index_len df' = 3.
Proof.
  destruct (cleaning_keeps_shape (holding sample_raw) sample_raw eq_refl)
    as [df' [H1 [H2 _]]].
  exists df'. split; [exact H1 | exact H2].
Defined.




(* ================================================================= *)
(** * The HTTP entry point *)

Lemma load_blob_true read_csv download name self loaded :
  load_data_from_blob read_csv download name self = (Ok true, loaded) ->
  exists df, data loaded = Some df /\ cleaned df.
Proof.
  destruct self as [dt cn bn].
  unfold load_data_from_blob, try_except, bind, lift, ret, set_data.
  cbn [container_name blob_name].
  destruct (download cn (blob_name_or name bn)) as [blob_data | e]; cbn iota beta;
    [| destruct e; intros H; inversion H].
  destruct (read_csv blob_data) as [df | e]; cbn iota beta;
    [| destruct e; intros H; inversion H].
  rewrite clean_data_run.
  destruct (fst (run_steps cleaning_steps df)) as [[] | e] eqn:Eok;
    [| destruct e; intros H; inversion H].
  intros H. inversion H. exists (snd (run_steps cleaning_steps df)).
  split; [reflexivity |].
  exists (mkProcessor (Some df) cn bn). rewrite clean_data_run. cbn [fst snd data].
  repeat split; [discriminate | exact Eok].
Qed.

Lemma query_never_inl re_beyond argsort q self resp self' :
  (a <- run_query re_beyond argsort q ;; ret (inr (Answer a))) self
  <> (Ok (inl resp : HttpResponse + main_result), self').
Proof.
  unfold bind, ret. destruct (run_query re_beyond argsort q self) as [[a | e] s]; discriminate.
Qed.

(** Only a search without term is answered by [dispatch] itself. *)
Lemma dispatch_inl re_beyond argsort py_int operation req self resp self' :
  dispatch re_beyond argsort py_int operation req self = (Ok (inl resp), self') ->
  resp = mkResponse 400 TermRequiredBody /\
  operation = "search" /\ get_param req "term" "" = "".
Proof.
  unfold dispatch.
  repeat match goal with
         | |- context [if String.eqb operation ?k then _ else _] =>
             destruct (String.eqb operation k) eqn:?
         | |- context [if String.prefix ?k operation then _ else _] =>
             destruct (String.prefix k operation) eqn:?
         end;
    try (intros H; exfalso; eapply query_never_inl; exact H).
  - destruct (String.eqb (get_param req "term" "") "") eqn:Et.
    + intros H. inversion H. apply String.eqb_eq in Et.
      match goal with E : String.eqb operation "search" = true |- _ =>
        apply String.eqb_eq in E end.
      auto.
    + intros H; exfalso; eapply query_never_inl; exact H.
  - unfold ret. discriminate.
Qed.

(** X10.  [main] turns every outcome into a response with status 200, 400 or
    500.  The health check is answered with 200 whatever the storage does.
    Any other request is answered with 500 unless the processor could be
    built and the blob was downloaded, parsed and cleaned; in particular
    status 400 is given only to a search without term, and only after the
    dataset was loaded. *)
Theorem main_status :
  forall (getenv_storage : option string)
         (from_connection_string : string -> outcome unit)
         (download_blob : string -> string -> outcome string)
         (read_csv : string -> outcome DataFrame)
         (re_beyond : string -> outcome (string -> bool))
         (argsort : list Q -> list nat)
         (py_int : string -> option Z)
         (dumps : main_result -> outcome string)
         (req : HttpRequest),
    let response :=
      main getenv_storage from_connection_string download_blob read_csv re_beyond
        argsort py_int dumps req in
    (status_code response = 200 \/ status_code response = 400
     \/ status_code response = 500) /\
    (operation_of req = "health" -> response = mkResponse 200 HealthBody) /\
    (operation_of req <> "health" -> status_code response <> 500 ->
     exists processor loaded df,
       init getenv_storage from_connection_string None "diet-data" = Ok processor /\
       load_data_from_blob read_csv download_blob None processor = (Ok true, loaded) /\
       data loaded = Some df /\ cleaned df) /\
    (status_code response = 400 ->
     operation_of req = "search" /\ get_param req "term" "" = "").
Proof.
  intros getenv_storage from_connection_string download_blob read_csv re_beyond
    argsort py_int dumps req response.
  subst response. unfold main, main_body.
  destruct (String.eqb (operation_of req) "health") eqn:Eh.
  { apply String.eqb_eq in Eh. repeat split; auto.
    - intros H. congruence.
    - rewrite Eh. simpl in H. discriminate.
    - simpl in H. discriminate. }
  apply String.eqb_neq in Eh.
  destruct (init getenv_storage from_connection_string None "diet-data")
    as [processor | e] eqn:Einit; cbn [obind].
  2:{ simpl. repeat split; auto; intros; try congruence; discriminate. }
  destruct (load_data_from_blob read_csv download_blob None processor)
    as [[[] | e] loaded] eqn:Eload.
  2:{ simpl. repeat split; auto; intros; try congruence; discriminate. }
  2:{ simpl. repeat split; auto; intros; try congruence; discriminate. }
  destruct (load_blob_true _ _ _ _ _ Eload) as [df [Hdf Hclean]].
  assert (Hloaded : exists processor0 loaded0 df0,
             Ok processor = Ok processor0 /\
             load_data_from_blob read_csv download_blob None processor0
             = (Ok true, loaded0) /\
             data loaded0 = Some df0 /\ cleaned df0).
  { exists processor, loaded, df. auto. }
  destruct (dispatch re_beyond argsort py_int (operation_of req) req loaded)
    as [[[resp | result] | e] self'] eqn:Ed.
  - destruct (dispatch_inl _ _ _ _ _ _ _ _ Ed) as [-> [Hop Hterm]].
    simpl. repeat split; auto; intros; congruence.
  - destruct (dumps result) as [text | e]; simpl; repeat split; auto;
      intros; try congruence; discriminate.
  - simpl. repeat split; auto; intros; try congruence; discriminate.
Qed.

Lemma main_status_witness :
  operation_of (mkRequest [("operation", "Search")] []) = "search" /\
  get_param (mkRequest [("operation", "Search")] []) "term" "" = "".
Proof.
  exact (proj2 (proj2 (proj2
           (main_status (Some "UseDevelopmentStorage=true") any_client sample_store
              read_sample_csv no_extension stable_argsort sample_int sample_dumps
              (mkRequest [("operation", "Search")] [])))) eq_refl).
Defined.

(** ** The route to the recipes of a diet type *)

Lemma lower_idempotent c : lower (lower c) = lower c.
Proof.
  destruct c as [b0 b1 b2 b3 b4 b5 b6 b7];
    destruct b0, b1, b2, b3, b4, b5, b6, b7; reflexivity.
Qed.

Lemma lower_str_idempotent s : lower_str (lower_str s) = lower_str s.
Proof.
  induction s as [| c s IH]; simpl; [| rewrite lower_idempotent, IH]; reflexivity.
Qed.

Lemma replace_from_lower old s : forall skip,
  lower_str s = s -> lower_str (replace_from old "" skip s) = replace_from old "" skip s.
Proof.
  induction s as [| c s IH]; intros skip H; [reflexivity |].
  simpl in H. injection H as Hc Hs.
  cbn [replace_from].
  destruct skip as [| k]; [| apply IH; exact Hs].
  destruct (String.prefix old (String c s)).
  - cbn [String.append]. apply IH. exact Hs.
  - simpl. rewrite Hc. f_equal. apply IH. exact Hs.
Qed.

Lemma prefix_recipes_slash s :
  String.prefix "recipes/" s = true -> no_slash s = false.
Proof.
  intros H.
  do 8 (destruct s as [| ? s]; [discriminate |];
        cbn [String.prefix] in H;
        match type of H with
        | context [ascii_dec ?x ?y] =>
            destruct (ascii_dec x y) as [? |]; [subst y | discriminate]
        end).
  reflexivity.
Qed.

Lemma replace_from_no_slash s :
  no_slash s = true -> replace_from "recipes/" "" 0 s = s.
Proof.
  induction s as [| c s IH]; intros H; [reflexivity |].
  pose proof H as H'. simpl in H'. apply andb_true_iff in H'. destruct H' as [_ Hs].
  cbn [replace_from].
  destruct (String.prefix "recipes/" (String c s)) eqn:E.
  - apply prefix_recipes_slash in E. congruence.
  - rewrite IH by exact Hs. reflexivity.
Qed.

Lemma dispatch_recipes re_beyond argsort py_int operation req :
  String.prefix "recipes/" operation = true ->
  dispatch re_beyond argsort py_int operation req
  = (a <- run_query re_beyond argsort (RecipesByDietType (route_diet_type operation)) ;;
     ret (inr (Answer a))).
Proof.
  intros H. unfold dispatch. rewrite H.
  destruct operation as [| c0 operation]; [discriminate |].
  cbn [String.prefix] in H.
  destruct (ascii_dec "r" c0) as [e |]; [subst c0 | discriminate].
  reflexivity.
Qed.

(** X11.  The operation "recipes/<type>" lists the recipes of the diet type
    that is left when every "recipes/" is taken out of the lower-cased
    operation.  That type has no upper-case letter, so a diet type written
    with one is never listed over HTTP; and a lower-case type without a
    slash is passed on unchanged. *)
Theorem recipes_route :
  forall (re_beyond : string -> outcome (string -> bool))
         (argsort : list Q -> list nat) (py_int : string -> option Z)
         (req : HttpRequest),
    (String.prefix "recipes/" (operation_of req) = true ->
     dispatch re_beyond argsort py_int (operation_of req) req
     = (a <- run_query re_beyond argsort
               (RecipesByDietType (route_diet_type (operation_of req))) ;;
        ret (inr (Answer a)))) /\
    lower_str (route_diet_type (operation_of req)) = route_diet_type (operation_of req) /\
    (forall label, lower_str label <> label ->
                   route_diet_type (operation_of req) <> label) /\
    (forall d, no_slash d = true ->
       String.prefix "recipes/" ("recipes/" ++ d) = true /\
       route_diet_type ("recipes/" ++ d) = d).
Proof.
  intros re_beyond argsort py_int req.
  assert (Hlow : lower_str (route_diet_type (operation_of req))
                 = route_diet_type (operation_of req)).
  { unfold route_diet_type, str_replace, operation_of.
    apply replace_from_lower. apply lower_str_idempotent. }
  split; [apply dispatch_recipes |]. split; [exact Hlow |]. split.
  - intros label Hlabel E. apply Hlabel. rewrite <- E. exact Hlow.
  - intros d Hd.
    assert (Hp : String.prefix "recipes/" ("recipes/" ++ d) = true)
      by (destruct d; reflexivity).
    split; [exact Hp |].
    unfold route_diet_type, str_replace.
    change ("recipes/" ++ d)%string
      with (String "r" ("ecipes/" ++ d)) in *.
    cbn [replace_from]. rewrite Hp.
    change (replace_from "recipes/" "" 0 d = d).
    apply replace_from_no_slash. exact Hd.
Qed.

Lemma recipes_route_witness :
  route_diet_type (operation_of (mkRequest [("operation", "recipes/Vegan")] []))
  <> "Vegan" /\
  route_diet_type "recipes/vegan" = "vegan".
Proof.
  pose proof (recipes_route no_extension stable_argsort sample_int
                (mkRequest [("operation", "recipes/Vegan")] [])) as [_ [_ [H1 H2]]].
  split.
  - apply H1. discriminate.
  - apply (H2 "vegan"). reflexivity.
Defined.

(** ** The size of a top list *)

Lemma top_length_bound argsort self nutrient n rows :
  fst (get_top_recipes_by_nutrient argsort nutrient n self) = Ok rows ->
  length rows <= Z.to_nat n.
Proof.
  destruct self as [[df |] cn bn]; [| simpl; intros H; inversion H; simpl; lia].
  destruct (column df (nutrient ++ "(g)")%string) as [[xs | xs] |] eqn:Hcol.
  - rewrite (top_recipes_rows argsort df nutrient n xs _ cn bn Hcol eq_refl).
    intros H. inversion H. rewrite length_map.
    destruct (n <=? 0)%Z; [simpl; lia |].
    destruct (Z.of_nat (length xs) <=? n)%Z; rewrite length_firstn; lia.
  - unfold get_top_recipes_by_nutrient, bind, get_data, lift.
    cbn iota beta. cbn [data]. rewrite Hcol. simpl. discriminate.
  - unfold get_top_recipes_by_nutrient, bind, get_data, lift.
    cbn iota beta. cbn [data]. rewrite Hcol. simpl. intros H. inversion H. simpl. lia.
Qed.

(** X12.  Whatever the request says about [n], the top-recipes operation
    asks for between 1 and 100 recipes (10 when [n] is absent or no number)
    and its answer never holds more than that, so never more than 100. *)
Theorem top_recipes_operation_bounded :
  forall (re_beyond : string -> outcome (string -> bool))
         (argsort : list Q -> list nat) (py_int : string -> option Z)
         (req : HttpRequest) (self self' : Processor) (result : main_result),
    dispatch re_beyond argsort py_int "top-recipes" req self = (Ok (inr result), self') ->
    (1 <= requested_n py_int req <= 100)%Z /\
    ((lookup "n" (params req) = None \/
      exists text, lookup "n" (params req) = Some text /\ py_int text = None) ->
     requested_n py_int req = 10%Z) /\
    exists rows,
      result = Answer (ATop rows) /\
      length rows <= Z.to_nat (requested_n py_int req) /\ length rows <= 100.
Proof.
  intros re_beyond argsort py_int req self self' result H.
  pose proof (clamp_n_range
                (match lookup "n" (params req) with
                 | Some text => match py_int text with Some n => n | None => 10%Z end
                 | None => 10%Z
                 end)) as Hn.
  fold (requested_n py_int req) in Hn.
  split; [exact Hn |]. split.
  - unfold requested_n. intros [-> | [text [-> ->]]]; reflexivity.
  - unfold dispatch in H. cbn [String.eqb Ascii.eqb Bool.eqb] in H.
    unfold bind, ret in H. cbn [run_query] in H. unfold bind, ret in H.
    destruct (get_top_recipes_by_nutrient argsort (get_param req "nutrient" "Protein")
                (requested_n py_int req) self) as [[rows | e] s] eqn:E;
      [| discriminate].
    inversion H; subst. exists rows. split; [reflexivity |].
    pose proof (top_length_bound argsort self _ _ rows (f_equal fst E)) as Hlen.
    split; [exact Hlen | lia].
Qed.

Lemma top_recipes_operation_bounded_witness :
  (1 <= requested_n sample_int (mkRequest [] [("n", "1000")]) <= 100)%Z.
Proof.
  exact (proj1 (top_recipes_operation_bounded no_extension stable_argsort sample_int
                  (mkRequest [] [("n", "1000")]) (holding sample_table)
                  (holding sample_table) _ eq_refl)).
Defined.

(** ** Uploading results *)

(** X13.  An upload never raises and never changes the processor.  It
    returns [True] exactly when the blob client is obtained, the data are
    rendered and the upload itself succeeds; a format other than json or
    csv, and csv for data that are no list, give [False] whatever the
    storage does, and nothing is uploaded for them. *)
Theorem upload_never_raises :
  forall (payload : Type) (is_list : payload -> bool)
         (json_dumps frame_to_csv : payload -> outcome string)
         (get_blob_client : string -> string -> outcome unit)
         (upload_blob : string -> string -> string -> string -> outcome unit)
         (data : payload) (name format_type : string) (self : Processor),
    let result := upload_results_to_blob is_list json_dumps frame_to_csv
                    get_blob_client upload_blob data name format_type self in
    snd result = self /\
    (fst result = Ok true \/ fst result = Ok false) /\
    (fst result = Ok true <->
     get_blob_client (container_name self) name = Ok tt /\
     exists content content_type,
       render is_list json_dumps frame_to_csv data format_type
       = Ok (content, content_type) /\
       upload_blob (container_name self) name content content_type = Ok tt) /\
    (forall content content_type,
       render is_list json_dumps frame_to_csv data format_type
       = Ok (content, content_type) ->
       (Re.lower_str format_type = "json" /\ content_type = "application/json" /\
        json_dumps data = Ok content) \/
       (Re.lower_str format_type = "csv" /\ is_list data = true /\
        content_type = "text/csv" /\ frame_to_csv data = Ok content)) /\
    (Re.lower_str format_type <> "json" ->
     Re.lower_str format_type <> "csv" \/ is_list data = false ->
     fst result = Ok false).
Proof.
  intros payload is_list json_dumps frame_to_csv get_blob_client upload_blob
         data0 name format_type self result.
  assert (Hrender : forall content content_type,
             render is_list json_dumps frame_to_csv data0 format_type
             = Ok (content, content_type) ->
             (Re.lower_str format_type = "json" /\ content_type = "application/json" /\
              json_dumps data0 = Ok content) \/
             (Re.lower_str format_type = "csv" /\ is_list data0 = true /\
              content_type = "text/csv" /\ frame_to_csv data0 = Ok content)).
  { intros content content_type. unfold render.
    destruct (String.eqb (Re.lower_str format_type) "json") eqn:Ej.
    - apply String.eqb_eq in Ej.
      destruct (json_dumps data0) as [c | e]; simpl; intros H; inversion H; subst.
      left. auto.
    - destruct (String.eqb (Re.lower_str format_type) "csv") eqn:Ec; simpl;
        [| discriminate].
      apply String.eqb_eq in Ec.
      destruct (is_list data0); [| discriminate].
      destruct (frame_to_csv data0) as [c | e]; simpl; intros H; inversion H; subst.
      right. auto. }
  subst result. unfold upload_results_to_blob, try_except, lift, ret.
  destruct (get_blob_client (container_name self) name) as [[] | e1] eqn:Eg;
    cbn [obind fst snd].
  - destruct (render is_list json_dumps frame_to_csv data0 format_type)
      as [[content content_type] | e2] eqn:Er; cbn [obind fst snd].
    + destruct (upload_blob (container_name self) name content content_type)
        as [[] | e3] eqn:Eu; cbn [obind fst snd].
      * split; [reflexivity |]. split; [left; reflexivity |]. split.
        -- split; [| reflexivity]. intros _. split; [reflexivity |].
           exists content, content_type. auto.
        -- split; [exact Hrender |].
           intros Hj Hc. destruct (Hrender _ _ eq_refl) as [[H _] | [H1 [H2 _]]];
             [contradiction | destruct Hc; congruence].
      * split; [reflexivity |]. split; [right; reflexivity |]. split.
        -- split; [discriminate |].
           intros [_ [c [ct [Hc Hu]]]]. inversion Hc; subst. congruence.
        -- split; [exact Hrender |]. reflexivity.
    + split; [reflexivity |]. split; [right; reflexivity |]. split.
      * split; [discriminate |]. intros [_ [c [ct [Hc _]]]]. discriminate.
      * split; [exact Hrender |]. reflexivity.
  - split; [reflexivity |]. split; [right; reflexivity |]. split.
    + split; [discriminate |]. intros [H _]. discriminate.
    + split; [exact Hrender |]. reflexivity.
Qed.

(** ** Loading into the analyzer *)

Lemma cleaned_settled df cn bn :
  cleaned df ->
  _clean_data (mkProcessor (Some df) cn bn) = (Ok tt, mkProcessor (Some df) cn bn).
Proof.
  intros [[[df0 |] cn0 bn0] [Hd [Hok Hdf]]]; [| simpl in Hd; congruence].
  rewrite clean_data_run in Hok, Hdf.
  destruct cleaning_steps_settle as [Hnd Hall].
  pose proof (run_steps_settled cleaning_steps Hnd Hall df0) as Hs.
  destruct (run_steps cleaning_steps df0) as [o df1].
  cbn [fst snd data] in Hok, Hdf, Hs.
  assert (E : df1 = df) by congruence. subst df1 o.
  rewrite clean_data_run, Hs. reflexivity.
Qed.

Lemma clean_then_read df cn bn r self' :
  ((_clean_data ;; get_data) (mkProcessor (Some df) cn bn)) = (Ok r, self') ->
  r = data self' /\ forall df', r = Some df' -> cleaned df'.
Proof.
  unfold bind, get_data.
  destruct (_clean_data (mkProcessor (Some df) cn bn)) as [[[] | e] s] eqn:E;
    [| discriminate].
  intros H. inversion H; subst. split; [reflexivity |].
  intros df' Hdf'. exists (mkProcessor (Some df) cn bn).
  rewrite E. cbn [fst snd data]. split; [discriminate |]. auto.
Qed.

(** X14.  [load_data] of the analyzer returns what the analyzer holds
    afterwards, and a table it returns is a cleaned one.  A path that does
    not end in ".csv", or a source that is neither text nor dictionary,
    reads nothing: a new analyzer returns [None], and an analyzer that
    holds a cleaned table returns that table and keeps it.  An exception of
    the reading is not caught, and leaves the analyzer as it was. *)
Theorem analyzer_load_data :
  forall (dict_source : Type) (read_csv_path : string -> outcome DataFrame)
         (frame_of_dict : dict_source -> outcome DataFrame)
         (source : data_source dict_source) (self : Processor),
    let result := load_data read_csv_path frame_of_dict source self in
    let reads_nothing :=
      match source with
      | SourcePath _ path => ends_with ".csv" path = false
      | SourceDict _ => False
      | SourceOther _ => True
      end in
    let reading :=
      match source with
      | SourcePath _ path =>
          if ends_with ".csv" path then Some (read_csv_path path) else None
      | SourceDict d => Some (frame_of_dict d)
      | SourceOther _ => None
      end in
    (forall r, fst result = Ok r ->
               r = data (snd result) /\ forall df, r = Some df -> cleaned df) /\
    (reads_nothing -> data self = None -> result = (Ok None, self)) /\
    (reads_nothing -> forall df, data self = Some df -> cleaned df ->
                                 result = (Ok (Some df), self)) /\
    (forall e, reading = Some (Raise e) -> result = (Raise e, self)) /\
    (forall df, reading = Some (Ok df) ->
                result = ((_clean_data ;; get_data)
                            (mkProcessor (Some df) (container_name self) (blob_name self)))).
Proof.
  intros dict_source read_csv_path frame_of_dict source [d cn bn] result
         reads_nothing reading.
  assert (Hskip : load_data read_csv_path frame_of_dict (SourceOther dict_source)
                    (mkProcessor d cn bn)
                  = match d with
                    | Some df => (_clean_data ;; get_data) (mkProcessor (Some df) cn bn)
                    | None => (Ok None, mkProcessor None cn bn)
                    end).
  { unfold load_data, bind, ret, get_data. cbn [data fst snd].
    destruct d as [df |]; reflexivity. }
  assert (Hread : forall df, (df' <- lift (Ok df) ;; set_data df') (mkProcessor d cn bn)
                             = (Ok tt, mkProcessor (Some df) cn bn))
    by reflexivity.
  assert (Hnothing : reads_nothing ->
                     result = load_data read_csv_path frame_of_dict
                                (SourceOther dict_source) (mkProcessor d cn bn)).
  { subst result reads_nothing. destruct source as [path | dsrc |]; intros H.
    - unfold load_data. rewrite H. reflexivity.
    - contradiction.
    - reflexivity. }
  assert (Hloaded : forall df, reading = Some (Ok df) ->
             result = (_clean_data ;; get_data) (mkProcessor (Some df) cn bn)).
  { subst result reading. intros df H. destruct source as [path | dsrc |].
    - unfold load_data.
      destruct (ends_with ".csv" path); [| discriminate].
      injection H as H. rewrite H. reflexivity.
    - unfold load_data. injection H as H. rewrite H. reflexivity.
    - discriminate. }
  assert (Hraised : forall e, reading = Some (Raise e) ->
             result = (Raise e, mkProcessor d cn bn)).
  { subst result reading. intros e H. destruct source as [path | dsrc |].
    - unfold load_data.
      destruct (ends_with ".csv" path); [| discriminate].
      injection H as H. rewrite H. reflexivity.
    - unfold load_data. injection H as H. rewrite H. reflexivity.
    - discriminate. }
  split; [| split; [| split; [| split]]].
  - intros r Hr.
    assert (Hcases : result = load_data read_csv_path frame_of_dict
                                (SourceOther dict_source) (mkProcessor d cn bn) \/
                     (exists df, reading = Some (Ok df)) \/
                     (exists e, reading = Some (Raise e))).
    { destruct source as [path | dsrc |].
      - destruct (ends_with ".csv" path) eqn:E.
        + subst reading. cbv beta iota. rewrite ?E.
          destruct (read_csv_path path) as [df | e]; right; [left | right]; eauto.
        + left. apply Hnothing. unfold reads_nothing. first [exact E | reflexivity].
      - subst reading. cbv beta iota.
        destruct (frame_of_dict dsrc) as [df | e]; right; [left | right]; eauto.
      - left. reflexivity. }
    destruct Hcases as [Hc | [[df Hc] | [e Hc]]].
    + rewrite Hc, Hskip in Hr |- *. destruct d as [df |].
      * destruct ((_clean_data ;; get_data) (mkProcessor (Some df) cn bn))
          as [o s] eqn:E.
        cbn [fst snd] in Hr |- *. subst o. exact (clean_then_read df cn bn r s E).
      * cbn [fst snd data] in Hr |- *. injection Hr as <-.
        split; [reflexivity | discriminate].
    + rewrite (Hloaded df Hc) in Hr |- *.
      destruct ((_clean_data ;; get_data) (mkProcessor (Some df) cn bn))
        as [o s] eqn:E.
      cbn [fst snd] in Hr |- *. subst o. exact (clean_then_read df cn bn r s E).
    + rewrite (Hraised e Hc) in Hr. discriminate.
  - intros Hn Hd. cbn [data] in Hd. subst d. rewrite (Hnothing Hn), Hskip. reflexivity.
  - intros Hn df Hd Hclean. cbn [data] in Hd. subst d.
    rewrite (Hnothing Hn), Hskip. unfold bind, get_data.
    rewrite (cleaned_settled df cn bn Hclean). reflexivity.
  - exact Hraised.
  - exact Hloaded.
Qed.

Lemma analyzer_load_data_witness :
  load_data read_sample_csv (fun _ : unit => Raise OtherError)
    (SourcePath unit "All_Diets.xlsx") (holding sample_table)
  = (Ok (Some sample_table), holding sample_table).
Proof.
  exact (proj1 (proj2 (proj2
           (analyzer_load_data unit read_sample_csv (fun _ : unit => Raise OtherError)
              (SourcePath unit "All_Diets.xlsx") (holding sample_table))))
           eq_refl sample_table eq_refl sample_table_cleaned).
Defined.

(** ** The constructor *)

(** X15.  The constructor takes the connection string from its argument
    unless that is [None] or empty, and only then from the environment;
    with neither it raises.  A processor it returns holds no dataset, keeps
    the container name it was given and the blob name "All_Diets.csv", and
    answers every query with the empty result. *)
Theorem constructor_connection_string :
  forall (getenv_storage : option string) (from_connection_string : string -> outcome unit)
         (connection_string : option string) (container : string),
    let made := init getenv_storage from_connection_string connection_string container in
    let absent (o : option string) := o = None \/ o = Some "" in
    (absent connection_string -> absent getenv_storage -> made = Raise OtherError) /\
    (forall cs, connection_string = Some cs -> cs <> "" ->
       forall other : option string,
         made = init other from_connection_string connection_string container) /\
    (absent connection_string ->
     made = init getenv_storage from_connection_string getenv_storage container) /\
    (forall processor, made = Ok processor ->
       processor = mkProcessor None container "All_Diets.csv" /\
       (exists cs, cs <> "" /\ from_connection_string cs = Ok tt /\
                   (connection_string = Some cs \/
                    absent connection_string /\ getenv_storage = Some cs)) /\
       forall (re_beyond : string -> outcome (string -> bool))
              (argsort : list Q -> list nat) (q : query),
         run_query re_beyond argsort q processor = (Ok (empty_answer q), processor)).
Proof.
  intros env from cs container made absent. subst made absent. cbv beta.
  split; [| split; [| split]].
  - intros [-> | ->] [-> | ->]; reflexivity.
  - intros s -> Hs other. unfold init, py_or.
    destruct (String.eqb s "") eqn:E; [apply String.eqb_eq in E; contradiction |].
    reflexivity.
  - intros [-> | ->]; unfold init, py_or; cbn [String.eqb].
    + destruct env as [s |]; [| reflexivity].
      destruct (String.eqb s "") eqn:E; rewrite ?E; reflexivity.
    + destruct env as [s |]; [| reflexivity].
      destruct (String.eqb s "") eqn:E; rewrite ?E; reflexivity.
  - intros processor H. unfold init in H.
    destruct (py_or cs env) as [s |] eqn:Eor; [| discriminate].
    destruct (String.eqb s "") eqn:Es; [discriminate |].
    apply String.eqb_neq in Es.
    destruct (from s) as [[] | e] eqn:Ef; [| discriminate].
    cbn [obind] in H. injection H as <-.
    split; [reflexivity |]. split.
    + exists s. split; [exact Es |]. split; [exact Ef |].
      unfold py_or in Eor. destruct cs as [c |].
      * destruct (String.eqb c "") eqn:Ec.
        -- apply String.eqb_eq in Ec. subst c. right. auto.
        -- left. exact Eor.
      * right. auto.
    + intros re_beyond argsort q. destruct q; reflexivity.
Qed.

Lemma constructor_connection_string_witness :
  init (Some "UseDevelopmentStorage=true") any_client (Some "") "diet-data"
  = init (Some "UseDevelopmentStorage=true") any_client
      (Some "UseDevelopmentStorage=true") "diet-data".
Proof.
  exact (proj1 (proj2 (proj2
           (constructor_connection_string (Some "UseDevelopmentStorage=true") any_client
              (Some "") "diet-data")))
           (or_intror eq_refl)).
Defined.
